(** * nba-pipeline: lineup and possession reconstruction, verified against its specification

    A shallow embedding of the transformers of the two pipelines

      - lineups/transformers/{lineup_states, possessions, lineup_possessions, lineup_ratings}.py
      - players/transformers/{court_time, rim_defense}.py

    pandas DataFrames are lists of records (one record per row, in row
    order), Python dicts are insertion-ordered association lists, Python
    sets are duplicate-free lists, and a raised exception is the [Raise]
    branch of the [result] monad.  NaN cells are [None].  Ratios that the
    source computes in float64 are computed here in exact rationals.

    The development also embeds players/transformers/possessions.py and
    players/transformers/shot_distance.py; the distances of the latter are
    computed in binary64 with the kernel's primitive floats. *)

From Stdlib Require Import String.
From Stdlib Require Import ZArith List Bool Lia QArith Qround Qabs Lqa.
From Stdlib Require Import Permutation Sorted ListSet.
From Stdlib Require PrimFloat.
Import ListNotations.
Open Scope Z_scope.

(* ================================================================== *)
(** * Shared frame: exceptions, stable sorting, ordered dictionaries    *)
(* ================================================================== *)

Module Frame.

(** The Python exceptions the embedded code can raise. *)
Inductive exn : Type := IndexError | KeyError | ValueError.

Inductive result (A : Type) : Type :=
| Ok (a : A)
| Raise (e : exn).
Arguments Ok {A} a.
Arguments Raise {A} e.

Definition bind {A B : Type} (c : result A) (k : A -> result B) : result B :=
  match c with
  | Ok a => k a
  | Raise e => Raise e
  end.

(** [mapM f l]: run [f] on every element, left to right, stopping at the
    first exception. *)
Fixpoint mapM {A B : Type} (f : A -> result B) (l : list A) : result (list B) :=
  match l with
  | [] => Ok []
  | x :: r =>
      bind (f x) (fun y => bind (mapM f r) (fun ys => Ok (y :: ys)))
  end.

Section StableSort.
Context {A : Type} (leb : A -> A -> bool).

(** Stable insertion sort: [DataFrame.sort_values] on several columns
    (a stable lexsort); on one column pandas does not promise the order
    of ties, and this model keeps them in row order. *)
Fixpoint insert_sorted (x : A) (l : list A) : list A :=
  match l with
  | [] => [x]
  | y :: r => if leb x y then x :: y :: r else y :: insert_sorted x r
  end.

Definition sort_values (l : list A) : list A :=
  fold_right insert_sorted [] l.
End StableSort.

Section Unique.
Context {A : Type} (eqb : A -> A -> bool).

(** [Series.unique()]: the distinct values in order of first
    appearance. *)
Fixpoint unique_by (l : list A) : list A :=
  match l with
  | [] => []
  | x :: r => x :: filter (fun y => negb (eqb y x)) (unique_by r)
  end.
End Unique.

Definition unique (l : list Z) : list Z := unique_by Z.eqb l.

Section Dict.
Context {K V : Type} (eqb : K -> K -> bool).

(** A Python dict: keys in insertion order; assigning to a key that is
    present keeps its place. *)
Definition dict : Type := list (K * V).

Fixpoint dict_get (d : dict) (k : K) : option V :=
  match d with
  | [] => None
  | (k', v) :: r => if eqb k' k then Some v else dict_get r k
  end.

Fixpoint dict_set (d : dict) (k : K) (v : V) : dict :=
  match d with
  | [] => [(k, v)]
  | (k', v') :: r =>
      if eqb k' k then (k', v) :: r else (k', v') :: dict_set r k v
  end.

Fixpoint dict_del (d : dict) (k : K) : dict :=
  match d with
  | [] => []
  | (k', v') :: r =>
      if eqb k' k then r else (k', v') :: dict_del r k
  end.
End Dict.

(** A Python set of ints, as a duplicate-free list. *)
Definition pyset : Type := set Z.

Definition pyset_of_list (l : list Z) : pyset :=
  fold_left (fun s x => set_add Z.eq_dec x s) l (empty_set Z).

Definition pyset_mem (x : Z) (s : pyset) : bool := set_mem Z.eq_dec x s.

(** [sorted(s.unique())] and [sorted(list(set(...)))]. *)
Definition sorted_unique (l : list Z) : list Z :=
  sort_values Z.leb (unique l).

(** [Series.max()]; [None] is the NaN that pandas gives for no rows. *)
Definition series_max (l : list Z) : option Z :=
  match l with
  | [] => None
  | x :: r => Some (fold_left Z.max r x)
  end.

Definition series_min (l : list Z) : option Z :=
  match l with
  | [] => None
  | x :: r => Some (fold_left Z.min r x)
  end.

(** [a == b] on two cells that may be NaN: NaN equals nothing. *)
Definition cell_eqb (a b : option Z) : bool :=
  match a, b with
  | Some x, Some y => x =? y
  | _, _ => false
  end.

(** [df.iloc[i:j]] for [0 <= i]. *)
Definition iloc {A : Type} (l : list A) (i j : nat) : list A :=
  firstn (j - i) (skipn i l).

End Frame.

Import Frame.

Notation "x <- c ;; k" := (bind c (fun x => k))
  (at level 61, c at next level, right associativity).

(* ================================================================== *)
(** * Input tables                                                      *)
(* ================================================================== *)

Module Data.

(** One play-by-play row, with the columns the transformers read.
    [gameClock] holds the seconds that [_game_clock_to_seconds] returns
    for the row's MM:SS text. *)
Record pbp_row : Type := mk_pbp {
  gameId : string;
  period : Z;
  gameClock : Z;
  wallClockInt : Z;
  pbpOrder : Z;
  msgType : Z;
  team : string;
  offTeamId : option Z;
  defTeamId : option Z;
  nbaTeamId : option Z;
  playerId1 : option Z;
  playerId2 : option Z;
  playerId3 : option Z;
  pts : Z;
  is_rim_shot : bool
}.

(** One box-score row.  [startPos] is [None] for NaN. *)
Record box_row : Type := mk_box {
  nbaId : Z;
  b_team : string;
  b_nbaTeamId : Z;
  startPos : option string;
  gs : Z
}.

End Data.

(* ================================================================== *)
(** * lineups/transformers/possessions.py                               *)
(* ================================================================== *)

Module Possessions.
Import Data.

(** A row of the prepared frame: the input row with the columns that
    [_prepare_pbp_data] and [_clean_team_ids] add. *)
Record prow : Type := mk_prow {
  src : pbp_row;
  time_elapsed : Z;
  offTeamId_clean : option Z;
  defTeamId_clean : option Z
}.

Definition game_clock_seconds (r : prow) : Z := gameClock (src r).

Definition clocks_of_period (pbp : list pbp_row) (p : Z) : list Z :=
  map gameClock (filter (fun r => period r =? p) pbp).

(** [pbp.groupby('period')['game_clock_seconds'].max()] at one period.
    Every row's own period has at least that row, so the NaN of an empty
    group is never read; it is written as 0 here. *)
Definition max_period_time (pbp : list pbp_row) (p : Z) : Z :=
  match series_max (clocks_of_period pbp p) with
  | Some m => m
  | None => 0
  end.

(** Sort key of [sort_values(['period', 'time_elapsed', 'pbpOrder'])]. *)
Definition chrono_leb (a b : pbp_row * Z) : bool :=
  let '(ra, ta) := a in
  let '(rb, tb) := b in
  if period ra <? period rb then true
  else if period rb <? period ra then false
  else if ta <? tb then true
  else if tb <? ta then false
  else pbpOrder ra <=? pbpOrder rb.

Definition positive_cell (x : option Z) : bool :=
  match x with Some v => 0 <? v | None => false end.

Definition cells (l : list (option Z)) : list Z :=
  flat_map (fun x => match x with Some v => [v] | None => [] end) l.

(** The [valid_teams] list of [_clean_team_ids]. *)
Definition clean_valid_teams (pbp : list pbp_row) : list Z :=
  let by_off := unique (cells (filter positive_cell (map offTeamId pbp))) in
  if (length by_off =? 2)%nat then sort_values Z.leb by_off
  else sorted_unique (cells (map nbaTeamId pbp)).

(** The lambda applied to [offTeamId_clean]:
    [valid_teams[1] if x == valid_teams[0] else valid_teams[0] if pd.notna(x) else np.nan]. *)
Definition other_team_of (valid_teams : list Z) (x : option Z)
  : result (option Z) :=
  match nth_error valid_teams 0 with
  | None => Raise IndexError
  | Some v0 =>
      if cell_eqb x (Some v0) then
        match nth_error valid_teams 1 with
        | Some v1 => Ok (Some v1)
        | None => Raise IndexError
        end
      else
        match x with
        | Some _ => Ok (Some v0)
        | None => Ok None
        end
  end.

Definition _clean_team_ids (rows : list (pbp_row * Z)) : result (list prow) :=
  let valid_teams := clean_valid_teams (map fst rows) in
  mapM (fun rt : pbp_row * Z =>
          let '(r, t) := rt in
          let off_clean :=
            if positive_cell (offTeamId r) then offTeamId r else None in
          d <- other_team_of valid_teams off_clean ;;
          Ok (mk_prow r t off_clean d))
       rows.

(** On a frame without rows, [pbp.apply(..., axis=1)] hands back a copy
    of the frame, and assigning a frame of several columns to the single
    column [time_elapsed] raises ValueError. *)
Definition _prepare_pbp_data (pbp : list pbp_row) : result (list prow) :=
  match pbp with
  | [] => Raise ValueError
  | _ =>
      let timed :=
        map (fun r => (r, max_period_time pbp (period r) - gameClock r)) pbp in
      _clean_team_ids (sort_values chrono_leb timed)
  end.

Inductive end_type : Type :=
| made_shot | free_throw | turnover | rebound | period_end
| defensive_rebound.

Definition end_type_eqb (a b : end_type) : bool :=
  match a, b with
  | made_shot, made_shot | free_throw, free_throw | turnover, turnover
  | rebound, rebound | period_end, period_end
  | defensive_rebound, defensive_rebound => true
  | _, _ => false
  end.

(** The dict [possession_end_events]. *)
Definition possession_end_events (msg_type : Z) : option end_type :=
  if msg_type =? 1 then Some made_shot
  else if msg_type =? 3 then Some free_throw
  else if msg_type =? 5 then Some turnover
  else if msg_type =? 4 then Some rebound
  else if msg_type =? 12 then Some period_end
  else if msg_type =? 13 then Some period_end
  else None.

(** [pbp_df.iloc[idx+1:idx+3] if idx < len(pbp_df)-2 else pd.DataFrame()]. *)
Definition next_plays (pbp : list prow) (idx : nat) : list prow :=
  if (Z.of_nat idx <? Z.of_nat (length pbp) - 2)
  then iloc pbp (idx + 1) (idx + 3)
  else [].

Definition follow_up_free_throw (window : Z) (play next_play : prow) : bool :=
  (msgType (src next_play) =? 3)
  && cell_eqb (playerId1 (src next_play)) (playerId1 (src play))
  && (Z.abs (time_elapsed next_play - time_elapsed play) <? window).

Definition _is_and_one_freethrow (play : prow) (pbp : list prow) (idx : nat)
  : bool :=
  existsb (follow_up_free_throw 5 play) (next_plays pbp idx).

Definition _is_last_free_throw (play : prow) (pbp : list prow) (idx : nat)
  : bool :=
  negb (existsb (follow_up_free_throw 10 play) (next_plays pbp idx)).

(** [pbp_df.iloc[max(0, idx-5):idx][::-1]]. *)
Definition prev_plays (pbp : list prow) (idx : nat) : list prow :=
  rev (iloc pbp (idx - 5) idx).

Definition notna (x : option Z) : bool :=
  match x with Some _ => true | None => false end.

(** The backward scan stops at the first missed shot; whatever it finds,
    the function ends in [return True]. *)
Fixpoint scan_for_miss (play : prow) (prev : list prow) : bool :=
  match prev with
  | [] => true
  | q :: rest =>
      if msgType (src q) =? 2 then
        if notna (offTeamId_clean play) && notna (offTeamId_clean q)
           && negb (cell_eqb (offTeamId_clean play) (offTeamId_clean q))
        then true
        else true
      else scan_for_miss play rest
  end.

Definition _is_defensive_rebound (play : prow) (pbp : list prow) (idx : nat)
  : bool :=
  scan_for_miss play (prev_plays pbp idx).

Record ending : Type := mk_ending {
  e_period : Z;
  e_end_time_seconds : Z;
  e_time_elapsed : Z;
  e_end_type : end_type;
  e_ending_team : option Z;
  e_pbp_idx : nat
}.

Definition _create_possession_ending (play : prow) (et : end_type) (idx : nat)
  : ending :=
  mk_ending (period (src play)) (game_clock_seconds play) (time_elapsed play)
            et (offTeamId_clean play) idx.

(** The body of the loop of [_identify_possession_endings] for the row
    at position [idx]: the endings it appends. *)
Definition endings_at (pbp : list prow) (idx : nat) (play : prow)
  : list ending :=
  let msg_type := msgType (src play) in
  match possession_end_events msg_type with
  | None => []
  | Some et =>
      if msg_type =? 1 then
        if negb (_is_and_one_freethrow play pbp idx)
        then [_create_possession_ending play et idx] else []
      else if msg_type =? 3 then
        if _is_last_free_throw play pbp idx
        then [_create_possession_ending play et idx] else []
      else if msg_type =? 4 then
        if _is_defensive_rebound play pbp idx
        then [_create_possession_ending play defensive_rebound idx] else []
      else if msg_type =? 5 then
        [_create_possession_ending play et idx]
      else if (msg_type =? 12) || (msg_type =? 13) then
        [_create_possession_ending play et idx]
      else []
  end.

Fixpoint enumerate_from {A : Type} (i : nat) (l : list A) : list (nat * A) :=
  match l with
  | [] => []
  | x :: r => (i, x) :: enumerate_from (S i) r
  end.

Definition _identify_possession_endings (pbp : list prow) : list ending :=
  flat_map (fun ip : nat * prow => endings_at pbp (fst ip) (snd ip))
           (enumerate_from 0 pbp).

Record possession : Type := mk_possession {
  possession_id : Z;
  p_period : Z;
  start_time_seconds : Z;
  end_time_seconds : Z;
  off_team : Z;
  def_team : Z;
  p_end_type : end_type;
  pbp_end_idx : nat;
  duration_seconds : Z;
  points_scored : Z
}.

(** [ending['end_type'] in ['defensive_rebound', 'turnover']]. *)
Definition changes_teams (et : end_type) : bool :=
  end_type_eqb et defensive_rebound || end_type_eqb et turnover.

(** The inner loop of [_build_possession_timeline] over the endings of
    one period; the metric columns are filled by
    [_calculate_possession_metrics]. *)
Fixpoint period_loop (p : Z) (endings : list ending) (pid : Z)
         (possession_start current_off_team other_team : Z)
  : list possession :=
  match endings with
  | [] => []
  | e :: rest =>
      let poss :=
        mk_possession pid p possession_start (e_end_time_seconds e)
                      current_off_team other_team (e_end_type e)
                      (e_pbp_idx e) 0 0 in
      if changes_teams (e_end_type e)
      then poss :: period_loop p rest (pid + 1) (e_end_time_seconds e)
                               other_team current_off_team
      else poss :: period_loop p rest (pid + 1) (e_end_time_seconds e)
                               current_off_team other_team
  end.

Definition elapsed_leb (a b : ending) : bool :=
  e_time_elapsed a <=? e_time_elapsed b.

Definition period_start_time (pbp : list prow) (p : Z) : Z :=
  match series_max (map game_clock_seconds
                        (filter (fun r => period (src r) =? p) pbp)) with
  | Some m => m
  | None => 0
  end.

(** One iteration of the loop over periods: the possessions of period
    [p], numbered from [pid]. *)
Definition period_possessions (pbp : list prow) (endings : list ending)
           (p : Z) (pid : Z) : result (list possession) :=
  let period_endings :=
    sort_values elapsed_leb (filter (fun e => e_period e =? p) endings) in
  let period_pbp := filter (fun r => period (src r) =? p) pbp in
  match cells (map offTeamId_clean period_pbp) with
  | [] => Raise IndexError
  | current_off_team :: _ =>
      let valid_teams := sorted_unique (cells (map offTeamId_clean pbp)) in
      match nth_error valid_teams 0 with
      | None => Raise IndexError
      | Some v0 =>
          other_team <-
            (if current_off_team =? v0
             then match nth_error valid_teams 1 with
                  | Some v1 => Ok v1
                  | None => Raise IndexError
                  end
             else Ok v0) ;;
          Ok (period_loop p period_endings pid (period_start_time pbp p)
                          current_off_team other_team)
      end
  end.

Fixpoint periods_loop (pbp : list prow) (endings : list ending)
         (periods : list Z) (pid : Z) : result (list possession) :=
  match periods with
  | [] => Ok []
  | p :: rest =>
      chunk <- period_possessions pbp endings p pid ;;
      more <- periods_loop pbp endings rest (pid + Z.of_nat (length chunk)) ;;
      Ok (chunk ++ more)
  end.

Definition _build_possession_timeline (pbp : list prow)
           (endings : list ending) : result (list possession) :=
  match endings with
  | [] => Ok []
  | _ => periods_loop pbp endings (sorted_unique (map e_period endings)) 1
  end.

Definition possession_points (pbp : list prow) (poss : possession) : Z :=
  fold_right Z.add 0
    (map (fun r => pts (src r))
         (filter (fun r =>
                    (period (src r) =? p_period poss)
                    && (game_clock_seconds r <=? start_time_seconds poss)
                    && (game_clock_seconds r >=? end_time_seconds poss)
                    && cell_eqb (offTeamId_clean r) (Some (off_team poss))
                    && (0 <? pts (src r)))
                 pbp)).

Definition _calculate_possession_metrics (possessions : list possession)
           (pbp : list prow) : list possession :=
  map (fun poss =>
         mk_possession (possession_id poss) (p_period poss)
           (start_time_seconds poss) (end_time_seconds poss)
           (off_team poss) (def_team poss) (p_end_type poss)
           (pbp_end_idx poss)
           (Z.abs (start_time_seconds poss - end_time_seconds poss))
           (possession_points pbp poss))
      possessions.

Definition extract_possessions (pbp_df : list pbp_row)
  : result (list possession) :=
  pbp_clean <- _prepare_pbp_data pbp_df ;;
  let possession_endings := _identify_possession_endings pbp_clean in
  possessions <- _build_possession_timeline pbp_clean possession_endings ;;
  Ok (_calculate_possession_metrics possessions pbp_clean).

End Possessions.

(* ================================================================== *)
(** * lineups/transformers/lineup_states.py                             *)
(* ================================================================== *)

Module LineupStates.
Import Data.

(** The value stored per team by [_extract_starting_lineups]. *)
Record starting_lineup : Type := mk_starting {
  players : pyset;
  team_id : Z
}.

(** [startPos.notna() & (startPos != '')]. *)
Definition has_start_pos (r : box_row) : bool :=
  match startPos r with
  | Some s => negb (String.eqb s EmptyString)
  | None => false
  end.

Definition team_rows (t : string) (rows : list box_row) : list box_row :=
  filter (fun r => String.eqb (b_team r) t) rows.

Definition starting_lineup_of (starters : list box_row) (t : string)
  : result (string * starting_lineup) :=
  let team_starters := team_rows t starters in
  let player_ids := map nbaId team_starters in
  match team_starters with
  | [] => Raise IndexError
  | first :: _ =>
      if negb (length player_ids =? 5)%nat then Raise ValueError
      else Ok (t, mk_starting (pyset_of_list player_ids) (b_nbaTeamId first))
  end.

Definition _extract_starting_lineups (box_score_df : list box_row)
  : result (dict (K := string) (V := starting_lineup)) :=
  let starters := filter has_start_pos box_score_df in
  mapM (starting_lineup_of starters)
       (unique_by String.eqb (map b_team starters)).

Record substitution : Type := mk_sub {
  s_period : Z;
  s_game_clock_seconds : Z;
  s_team : string;
  player_in : Z;
  player_out : Z
}.

(** [sort_values(['period', 'game_clock_seconds'], ascending=[True, False])]. *)
Definition sub_leb (a b : substitution) : bool :=
  if s_period a <? s_period b then true
  else if s_period b <? s_period a then false
  else s_game_clock_seconds b <=? s_game_clock_seconds a.

(** playerId1 is read as the player coming in, playerId2 as the one
    going out; rows with a missing player are dropped. *)
Definition _parse_substitutions (pbp_df : list pbp_row) : list substitution :=
  let subs := filter (fun r => msgType r =? 8) pbp_df in
  sort_values sub_leb
    (flat_map (fun r =>
                 match playerId1 r, playerId2 r with
                 | Some p1, Some p2 =>
                     [mk_sub (period r) (gameClock r) (team r) p1 p2]
                 | _, _ => []
                 end)
              subs).

(** One row of the lineup timeline; [ls_players] holds the columns
    player_1, player_2, ... in that order. *)
Record lineup_state : Type := mk_state {
  ls_period : Z;
  ls_game_clock_seconds : Z;
  ls_team : string;
  ls_team_id : Z;
  ls_players : list Z
}.

(** The values of [_lineup_to_dict]: the set's members in ascending order. *)
Definition _lineup_to_dict (lineup_set : pyset) : list Z :=
  sort_values Z.leb lineup_set.

Definition lineups : Type := dict (K := string) (V := pyset).

(** The state of the loop of [_build_lineup_timeline]: [current_lineups]
    and the rows appended to [lineup_timeline] so far. *)
Definition builder_state : Type := (lineups * list lineup_state)%type.

Definition get_team_id (team_ids : dict (K := string) (V := Z)) (t : string)
  : result Z :=
  match dict_get String.eqb team_ids t with
  | Some i => Ok i
  | None => Raise KeyError
  end.

(** The body of [for _, sub in period_subs.iterrows()]. *)
Definition apply_substitution (team_ids : dict (K := string) (V := Z))
           (st : builder_state) (sub : substitution) : result builder_state :=
  let '(current_lineups, lineup_timeline) := st in
  match dict_get String.eqb current_lineups (s_team sub) with
  | None => Raise KeyError
  | Some lineup =>
      if negb (pyset_mem (player_out sub) lineup) then Ok st
      else if pyset_mem (player_in sub) lineup then Ok st
      else
        let lineup' :=
          set_add Z.eq_dec (player_in sub)
                  (set_remove Z.eq_dec (player_out sub) lineup) in
        i <- get_team_id team_ids (s_team sub) ;;
        Ok (dict_set String.eqb current_lineups (s_team sub) lineup',
            lineup_timeline ++
              [mk_state (s_period sub) (s_game_clock_seconds sub)
                        (s_team sub) i (_lineup_to_dict lineup')])
  end.

Fixpoint process_substitutions (team_ids : dict (K := string) (V := Z))
         (st : builder_state) (subs : list substitution)
  : result builder_state :=
  match subs with
  | [] => Ok st
  | sub :: rest =>
      st' <- apply_substitution team_ids st sub ;;
      process_substitutions team_ids st' rest
  end.

(** The rows added at the start of a period, one per team. *)
Definition period_start_rows (team_ids : dict (K := string) (V := Z))
           (current_lineups : lineups) (p : Z) : list lineup_state :=
  map (fun tl : string * pyset =>
         mk_state p (if p <=? 4 then 720 else 300) (fst tl)
                  (match dict_get String.eqb team_ids (fst tl) with
                   | Some i => i
                   | None => 0
                   end)
                  (_lineup_to_dict (snd tl)))
      current_lineups.

Fixpoint lineup_periods_loop (team_ids : dict (K := string) (V := Z))
         (substitutions : list substitution) (st : builder_state)
         (periods : list Z) : result builder_state :=
  match periods with
  | [] => Ok st
  | p :: rest =>
      let '(current_lineups, lineup_timeline) := st in
      let st1 :=
        (current_lineups,
         lineup_timeline ++ period_start_rows team_ids current_lineups p) in
      let period_subs := filter (fun s => s_period s =? p) substitutions in
      st2 <- process_substitutions team_ids st1 period_subs ;;
      lineup_periods_loop team_ids substitutions st2 rest
  end.

Definition _build_lineup_timeline
           (starting_lineups : dict (K := string) (V := starting_lineup))
           (substitutions : list substitution) (pbp_df : list pbp_row)
  : result (list lineup_state) :=
  let current_lineups :=
    map (fun ts : string * starting_lineup => (fst ts, players (snd ts)))
        starting_lineups in
  let team_ids :=
    map (fun ts : string * starting_lineup => (fst ts, team_id (snd ts)))
        starting_lineups in
  let periods := sorted_unique (map period pbp_df) in
  st <- lineup_periods_loop team_ids substitutions (current_lineups, []) periods ;;
  Ok (snd st).

(** [sort_values(['team', 'period', 'game_clock_seconds'])]. *)
Definition state_leb (a b : lineup_state) : bool :=
  if String.ltb (ls_team a) (ls_team b) then true
  else if String.ltb (ls_team b) (ls_team a) then false
  else if ls_period a <? ls_period b then true
  else if ls_period b <? ls_period a then false
  else ls_game_clock_seconds a <=? ls_game_clock_seconds b.

(** The [lineup_id] column is a function of the team and player columns
    and is not carried; computing it reads column player_5, which the
    frame has only when some row has five players, and a frame without
    rows has no column to assign to. *)
Definition extract_lineup_states (box_score_df : list box_row)
           (pbp_df : list pbp_row) : result (list lineup_state) :=
  starting_lineups <- _extract_starting_lineups box_score_df ;;
  let substitutions := _parse_substitutions pbp_df in
  lineup_states <-
    _build_lineup_timeline starting_lineups substitutions pbp_df ;;
  match lineup_states with
  | [] => Raise ValueError
  | _ =>
      if forallb (fun r => (length (ls_players r) <? 5)%nat) lineup_states
      then Raise KeyError
      else Ok (sort_values state_leb lineup_states)
  end.

End LineupStates.

(* ================================================================== *)
(** * lineups/transformers/lineup_possessions.py                        *)
(* ================================================================== *)

Module LineupPossessions.
Import LineupStates.

(** [sort_values('game_clock_seconds', ascending=False)]. *)
Definition clock_desc_leb (a b : lineup_state) : bool :=
  ls_game_clock_seconds b <=? ls_game_clock_seconds a.

(** [df.iloc[-1]] of a frame that has rows. *)
Definition iloc_last {A : Type} (l : list A) : option A :=
  match rev l with
  | [] => None
  | x :: _ => Some x
  end.

(** [None] is the Python [None] that the function returns. *)
Definition find_lineup_at_time (lineups_df : list lineup_state)
           (period : Z) (time_seconds : Z) (team_id : Z)
  : option lineup_state :=
  let team_lineups :=
    filter (fun r => (ls_team_id r =? team_id) && (ls_period r =? period))
           lineups_df in
  match team_lineups with
  | [] => None
  | _ =>
      let team_lineups := sort_values clock_desc_leb team_lineups in
      let active_lineups :=
        filter (fun r => ls_game_clock_seconds r >=? time_seconds)
               team_lineups in
      match active_lineups with
      | [] => iloc_last team_lineups
      | _ => iloc_last active_lineups
      end
  end.

(** A matched possession, with the columns the ratings step reads. *)
Record lineup_possession : Type := mk_lp {
  lp_possession_id : Z;
  lp_period : Z;
  lp_points_scored : Z;
  off_team_id : Z;
  def_team_id : Z;
  lp_off_team : string;
  lp_def_team : string;
  off_players : list Z;
  def_players : list Z
}.

Definition create_possession_record (poss : Possessions.possession)
           (off_lineup def_lineup : lineup_state) : lineup_possession :=
  mk_lp (Possessions.possession_id poss) (Possessions.p_period poss)
        (Possessions.points_scored poss)
        (Possessions.off_team poss) (Possessions.def_team poss)
        (ls_team off_lineup) (ls_team def_lineup)
        (ls_players off_lineup) (ls_players def_lineup).

Definition lp_leb (a b : lineup_possession) : bool :=
  lp_possession_id a <=? lp_possession_id b.

Definition match_lineups_to_possessions (lineup_states_df : list lineup_state)
           (possessions_df : list Possessions.possession)
  : list lineup_possession :=
  sort_values lp_leb
    (flat_map
       (fun poss =>
          match find_lineup_at_time lineup_states_df
                  (Possessions.p_period poss)
                  (Possessions.start_time_seconds poss)
                  (Possessions.off_team poss),
                find_lineup_at_time lineup_states_df
                  (Possessions.p_period poss)
                  (Possessions.start_time_seconds poss)
                  (Possessions.def_team poss) with
          | Some off_lineup, Some def_lineup =>
              [create_possession_record poss off_lineup def_lineup]
          | _, _ => []
          end)
       possessions_df).

End LineupPossessions.

(* ================================================================== *)
(** * lineups/transformers/lineup_ratings.py                            *)
(* ================================================================== *)

Module LineupRatings.
Import LineupPossessions.

(** The grouping key: team label and the sorted tuple of players. *)
Definition unit_key : Type := (string * list Z)%type.

Fixpoint tuple_compare (a b : list Z) : comparison :=
  match a, b with
  | [], [] => Eq
  | [], _ :: _ => Lt
  | _ :: _, [] => Gt
  | x :: a', y :: b' =>
      match x ?= y with
      | Eq => tuple_compare a' b'
      | c => c
      end
  end.

Definition key_compare (a b : unit_key) : comparison :=
  match String.compare (fst a) (fst b) with
  | Eq => tuple_compare (snd a) (snd b)
  | c => c
  end.

Definition key_eqb (a b : unit_key) : bool :=
  match key_compare a b with Eq => true | _ => false end.

Definition key_leb (a b : unit_key) : bool :=
  match key_compare a b with Gt => false | _ => true end.

Definition off_key (r : lineup_possession) : unit_key :=
  (lp_off_team r, sort_values Z.leb (off_players r)).

Definition def_key (r : lineup_possession) : unit_key :=
  (lp_def_team r, sort_values Z.leb (def_players r)).

(** One row of a grouped frame: the key, [possession_id: count] and
    [points_scored: sum]. *)
Record side_stats : Type := mk_side {
  ss_key : unit_key;
  ss_poss : Z;
  ss_points : Z
}.

Definition count_key (key_of : lineup_possession -> unit_key)
           (df : list lineup_possession) (k : unit_key) : Z :=
  Z.of_nat (length (filter (fun r => key_eqb (key_of r) k) df)).

Definition sum_points (key_of : lineup_possession -> unit_key)
           (df : list lineup_possession) (k : unit_key) : Z :=
  fold_right Z.add 0
    (map lp_points_scored (filter (fun r => key_eqb (key_of r) k) df)).

(** [df.groupby([team, 'lineup_players']).agg(...)]: one row per key,
    keys in ascending order. *)
Definition grouped (key_of : lineup_possession -> unit_key)
           (df : list lineup_possession) : list side_stats :=
  map (fun k => mk_side k (count_key key_of df k) (sum_points key_of df k))
      (sort_values key_leb (unique_by key_eqb (map key_of df))).

Definition calculate_offensive_stats (df : list lineup_possession)
  : list side_stats := grouped off_key df.

Definition calculate_defensive_stats (df : list lineup_possession)
  : list side_stats := grouped def_key df.

Record combined : Type := mk_combined {
  c_key : unit_key;
  off_poss : Z;
  off_points : Z;
  def_poss : Z;
  def_points_allowed : Z
}.

Definition rows_of_key (k : unit_key) (l : list side_stats)
  : list side_stats :=
  filter (fun s => key_eqb (ss_key s) k) l.

(** [pd.merge(off_stats, def_stats, on=['team', 'lineup_players'],
    how='outer').fillna(0)]: for every key of either frame, the pairs of
    rows with that key, a side without rows giving zeros. *)
Definition combine_offensive_defensive_stats
           (off_stats def_stats : list side_stats) : list combined :=
  let keys :=
    sort_values key_leb
      (unique_by key_eqb (map ss_key off_stats ++ map ss_key def_stats)) in
  flat_map
    (fun k =>
       match rows_of_key k off_stats, rows_of_key k def_stats with
       | [], ds =>
           map (fun d => mk_combined k 0 0 (ss_poss d) (ss_points d)) ds
       | os, [] =>
           map (fun o => mk_combined k (ss_poss o) (ss_points o) 0 0) os
       | os, ds =>
           flat_map
             (fun o =>
                map (fun d => mk_combined k (ss_poss o) (ss_points o)
                                          (ss_poss d) (ss_points d))
                    ds)
             os
       end)
    keys.

(** [np.where(poss > 0, (points / poss) * 100, 0)]. *)
Definition per_100 (points poss : Z) : Q :=
  if 0 <? poss then (inject_Z points / inject_Z poss * 100)%Q else 0%Q.

(** Rounding to the nearest integer, ties to the even one. *)
Definition round_half_even (q : Q) : Z :=
  let f := Qfloor q in
  match (q - inject_Z f ?= 1 # 2)%Q with
  | Lt => f
  | Gt => f + 1
  | Eq => if Z.even f then f else f + 1
  end.

(** [Series.round(1)]. *)
Definition round1 (q : Q) : Q :=
  (inject_Z (round_half_even (q * 10)) / 10)%Q.

Record rating_row : Type := mk_rating {
  r_team : string;
  r_players : list Z;
  r_off_poss : Z;
  r_def_poss : Z;
  off_rating : Q;
  def_rating : Q;
  net_rating : Q
}.

Definition rating_of (c : combined) : rating_row :=
  let o := per_100 (off_points c) (off_poss c) in
  let d := per_100 (def_points_allowed c) (def_poss c) in
  mk_rating (fst (c_key c)) (snd (c_key c)) (off_poss c) (def_poss c)
            (round1 o) (round1 d) (round1 (o - d)%Q).

Definition calculate_final_ratings (df : list combined) : list rating_row :=
  map rating_of df.

(** [sort_values(['team', 'off_poss', 'net_rating'],
    ascending=[True, False, False])]. *)
Definition rating_leb (a b : rating_row) : bool :=
  if String.ltb (r_team a) (r_team b) then true
  else if String.ltb (r_team b) (r_team a) then false
  else if r_off_poss b <? r_off_poss a then true
  else if r_off_poss a <? r_off_poss b then false
  else Qle_bool (net_rating b) (net_rating a).

Definition clean_final_output (df : list rating_row) : list rating_row :=
  sort_values rating_leb df.

Definition row_key (r : rating_row) : unit_key := (r_team r, r_players r).

Definition calculate_lineup_ratings (lineup_possessions_df : list lineup_possession)
  : list rating_row :=
  match lineup_possessions_df with
  | [] => []
  | _ =>
      let off_stats := calculate_offensive_stats lineup_possessions_df in
      let def_stats := calculate_defensive_stats lineup_possessions_df in
      let lineup_ratings :=
        combine_offensive_defensive_stats off_stats def_stats in
      clean_final_output (calculate_final_ratings lineup_ratings)
  end.

(** The dictionary that [get_lineup_summary] returns. *)
Record lineup_summary : Type := mk_summary {
  total_lineups : Z;
  teams : list string;
  avg_off_rating : Q;
  avg_def_rating : Q;
  best_net_rating : Q;
  worst_net_rating : Q;
  total_possessions : Z;
  lineups_with_both_stats : Z
}.

(** [Series.sum()] of an integer column. *)
Definition series_sum (l : list Z) : Z := fold_right Z.add 0 l.

(** [Series.mean()] of a column that has at least one row. *)
Definition series_mean (l : list Q) : Q :=
  (fold_right Qplus 0 l / inject_Z (Z.of_nat (length l)))%Q.

Definition q_max (a b : Q) : Q := if Qle_bool a b then b else a.

Definition q_min (a b : Q) : Q := if Qle_bool a b then a else b.

(** [Series.max()] and [Series.min()] of a column whose first row is [x]. *)
Definition series_qmax (x : Q) (r : list Q) : Q := fold_left q_max r x.

Definition series_qmin (x : Q) (r : list Q) : Q := fold_left q_min r x.

(** [get_lineup_summary]; [None] is the empty dictionary returned for a
    frame without rows. *)
Definition get_lineup_summary (ratings_df : list rating_row)
  : option lineup_summary :=
  match ratings_df with
  | [] => None
  | first :: rest =>
      Some (mk_summary
              (Z.of_nat (length ratings_df))
              (sort_values String.leb
                           (unique_by String.eqb (map r_team ratings_df)))
              (series_mean (map off_rating ratings_df))
              (series_mean (map def_rating ratings_df))
              (series_qmax (net_rating first) (map net_rating rest))
              (series_qmin (net_rating first) (map net_rating rest))
              (series_sum (map r_off_poss ratings_df))
              (Z.of_nat
                 (length (filter (fun r => (0 <? r_off_poss r)
                                           && (0 <? r_def_poss r))
                                 ratings_df))))
  end.

(** [filter_lineups]: the rows with enough possessions on either side; a
    frame without rows is returned as it is. *)
Definition filter_lineups (ratings_df : list rating_row) (min_possessions : Z)
  : list rating_row :=
  match ratings_df with
  | [] => ratings_df
  | _ =>
      filter (fun r => (min_possessions <=? r_off_poss r)
                       || (min_possessions <=? r_def_poss r))
             ratings_df
  end.

End LineupRatings.

(* ================================================================== *)
(** * players/transformers/court_time.py                                *)
(* ================================================================== *)

Module CourtTime.
Import Data.

(** A clock cell that may be NaN; NaN sorts last and compares false. *)
Definition clock_leb (a b : option Z) : bool :=
  match a, b with
  | Some x, Some y => x <=? y
  | _, _ => false
  end.

Definition clock_sort_compare (a b : option Z) : comparison :=
  match a, b with
  | Some x, Some y => x ?= y
  | Some _, None => Lt
  | None, Some _ => Gt
  | None, None => Eq
  end.

Definition _get_starting_lineups (box_score_df : list box_row)
  : dict (K := Z) (V := pyset) :=
  let starters_df := filter (fun r => gs r =? 1) box_score_df in
  map (fun t =>
         (t, pyset_of_list
               (map nbaId (filter (fun r => b_nbaTeamId r =? t) starters_df))))
      (unique (map b_nbaTeamId starters_df)).

(** [dict(zip(nbaId, nbaTeamId))]. *)
Definition _get_team_mapping (box_score_df : list box_row)
  : dict (K := Z) (V := Z) :=
  fold_left (fun d r => dict_set Z.eqb d (nbaId r) (b_nbaTeamId r))
            box_score_df [].

Record sub_event : Type := mk_sub_event {
  se_period : Z;
  se_wallClockInt : Z;
  se_playerId1 : option Z;
  se_playerId2 : option Z
}.

Definition sub_event_leb (a b : sub_event) : bool :=
  if se_period a <? se_period b then true
  else if se_period b <? se_period a then false
  else se_wallClockInt a <=? se_wallClockInt b.

Definition _get_substitution_events (pbp_df : list pbp_row) : list sub_event :=
  sort_values sub_event_leb
    (map (fun r => mk_sub_event (period r) (wallClockInt r)
                                (playerId1 r) (playerId2 r))
         (filter (fun r => msgType r =? 8) pbp_df)).

Record activity : Type := mk_activity {
  a_period : Z;
  a_wallClockInt : Z;
  a_playerId : Z;
  a_msgType : Z
}.

Definition activity_leb (a b : activity) : bool :=
  if a_period a <? a_period b then true
  else if a_period b <? a_period a then false
  else a_wallClockInt a <=? a_wallClockInt b.

Definition is_activity (r : pbp_row) : bool :=
  existsb (Z.eqb (msgType r)) [1; 2; 3; 4; 5; 6; 7].

(** Sorting the frame built from an empty [activity_list] raises
    KeyError: it has no column to sort by. *)
Definition _get_player_activities (pbp_df : list pbp_row)
  : result (list activity) :=
  let activity_list :=
    flat_map
      (fun r =>
         flat_map
           (fun c => match c with
                     | Some p =>
                         [mk_activity (period r) (wallClockInt r) p (msgType r)]
                     | None => []
                     end)
           [playerId1 r; playerId2 r; playerId3 r])
      (filter is_activity pbp_df) in
  match activity_list with
  | [] => Raise KeyError
  | _ => Ok (sort_values activity_leb activity_list)
  end.

Inductive action : Type := START | IN | OUT.
Inductive source : Type := starter | from_substitution | inferred_from_activity.

Record status_change : Type := mk_change {
  sc_period : Z;
  sc_wallClockInt : option Z;
  sc_playerId : Z;
  sc_teamId : Z;
  sc_action : action;
  sc_source : source
}.

(** Rank of the action strings in alphabetical order: IN, OUT, START. *)
Definition action_rank (a : action) : Z :=
  match a with IN => 0 | OUT => 1 | START => 2 end.

(** [sort_values(['period', 'wallClockInt', 'action'])]. *)
Definition change_leb (a b : status_change) : bool :=
  if sc_period a <? sc_period b then true
  else if sc_period b <? sc_period a then false
  else match clock_sort_compare (sc_wallClockInt a) (sc_wallClockInt b) with
       | Lt => true
       | Gt => false
       | Eq => action_rank (sc_action a) <=? action_rank (sc_action b)
       end.

(** [team_id = team_mapping.get(p)] followed by [if team_id:]. *)
Definition known_team (team_mapping : dict (K := Z) (V := Z)) (p : Z)
  : option Z :=
  match dict_get Z.eqb team_mapping p with
  | Some t => if t =? 0 then None else Some t
  | None => None
  end.

(** playerId1 is read as the player going out, playerId2 as the one
    coming in; [int(...)] of a NaN cell raises ValueError. *)
Definition sub_players (sub : sub_event) : result (Z * Z) :=
  match se_playerId1 sub, se_playerId2 sub with
  | Some player_out, Some player_in => Ok (player_out, player_in)
  | _, _ => Raise ValueError
  end.

Definition substitution_changes (team_mapping : dict (K := Z) (V := Z))
           (sub : sub_event) : result (list status_change) :=
  oi <- sub_players sub ;;
  let '(player_out, player_in) := oi in
  Ok ((match known_team team_mapping player_out with
       | Some t => [mk_change (se_period sub) (Some (se_wallClockInt sub))
                              player_out t OUT from_substitution]
       | None => []
       end)
      ++
      (match known_team team_mapping player_in with
       | Some t => [mk_change (se_period sub) (Some (se_wallClockInt sub))
                              player_in t IN from_substitution]
       | None => []
       end)).

Inductive event : Type :=
| Substitution (p w player_out player_in : Z)
| Activity (p w player_id msg_type : Z).

Definition event_period (e : event) : Z :=
  match e with Substitution p _ _ _ | Activity p _ _ _ => p end.

Definition event_wallClockInt (e : event) : Z :=
  match e with Substitution _ w _ _ | Activity _ w _ _ => w end.

Definition event_leb (a b : event) : bool :=
  if event_period a <? event_period b then true
  else if event_period b <? event_period a then false
  else event_wallClockInt a <=? event_wallClockInt b.

(** The loop of [_infer_reentries_from_activity] over the sorted events,
    with [player_status] and the entries inferred so far. *)
Fixpoint infer_loop (team_mapping : dict (K := Z) (V := Z))
         (events : list event) (player_status : dict (K := Z) (V := action))
         (inferred_entries : list status_change) : list status_change :=
  match events with
  | [] => inferred_entries
  | Substitution _ _ player_out player_in :: rest =>
      infer_loop team_mapping rest
        (dict_set Z.eqb (dict_set Z.eqb player_status player_out OUT)
                  player_in IN)
        inferred_entries
  | Activity p w player_id _ :: rest =>
      match dict_get Z.eqb player_status player_id with
      | Some OUT =>
          match known_team team_mapping player_id with
          | Some t =>
              infer_loop team_mapping rest
                (dict_set Z.eqb player_status player_id IN)
                (inferred_entries ++
                   [mk_change p (Some w) player_id t IN inferred_from_activity])
          | None => infer_loop team_mapping rest player_status inferred_entries
          end
      | _ => infer_loop team_mapping rest player_status inferred_entries
      end
  end.

Definition _infer_reentries_from_activity (activities : list activity)
           (substitutions : list sub_event)
           (team_mapping : dict (K := Z) (V := Z))
  : result (list status_change) :=
  sub_events <-
    mapM (fun sub =>
            oi <- sub_players sub ;;
            Ok (Substitution (se_period sub) (se_wallClockInt sub)
                             (fst oi) (snd oi)))
         substitutions ;;
  let all_events :=
    sub_events ++
    map (fun a => Activity (a_period a) (a_wallClockInt a) (a_playerId a)
                           (a_msgType a))
        activities in
  Ok (infer_loop team_mapping (sort_values event_leb all_events) [] []).

(** One court-time interval of one player. *)
Record interval : Type := mk_interval {
  i_gameId : string;
  i_playerId : Z;
  i_teamId : Z;
  period_start : Z;
  wallClock_start : option Z;
  period_end : Z;
  wallClock_end : option Z
}.

Definition entry_times : Type := dict (K := Z) (V := Z * option Z * Z).

(** The loop of [_build_intervals_from_status_changes]. *)
Fixpoint intervals_loop (game_id : string) (changes : list status_change)
         (player_entry_times : entry_times) (intervals : list interval)
  : entry_times * list interval :=
  match changes with
  | [] => (player_entry_times, intervals)
  | change :: rest =>
      let player_id := sc_playerId change in
      match sc_action change with
      | START | IN =>
          intervals_loop game_id rest
            (dict_set Z.eqb player_entry_times player_id
                      (sc_period change, sc_wallClockInt change,
                       sc_teamId change))
            intervals
      | OUT =>
          match dict_get Z.eqb player_entry_times player_id with
          | Some (entry_period, entry_wallClock, team_id) =>
              intervals_loop game_id rest
                (dict_del Z.eqb player_entry_times player_id)
                (intervals ++
                   [mk_interval game_id player_id team_id entry_period
                                entry_wallClock (sc_period change)
                                (sc_wallClockInt change)])
          | None => intervals_loop game_id rest player_entry_times intervals
          end
      end
  end.

Definition _build_intervals_from_status_changes
           (status_df : list status_change) (game_id : string)
           (game_end_wallClock : option Z) : list interval :=
  let '(player_entry_times, intervals) :=
    intervals_loop game_id status_df [] [] in
  let max_period :=
    match series_max (map sc_period status_df) with
    | Some m => m
    | None => 0
    end in
  intervals ++
  map (fun e : Z * (Z * option Z * Z) =>
         let '(player_id, (entry_period, entry_wallClock, team_id)) := e in
         mk_interval game_id player_id team_id entry_period entry_wallClock
                     max_period game_end_wallClock)
      player_entry_times.

Definition wallClocks_of_period (pbp_df : list pbp_row) (p : Z) : list Z :=
  map wallClockInt (filter (fun r => period r =? p) pbp_df).

Definition starter_changes (starters : dict (K := Z) (V := pyset))
           (game_start_wallClock : option Z) : list status_change :=
  flat_map
    (fun tp : Z * pyset =>
       map (fun player_id =>
              mk_change 1 game_start_wallClock player_id (fst tp) START starter)
           (snd tp))
    starters.

Definition _build_hybrid_intervals (starters : dict (K := Z) (V := pyset))
           (team_mapping : dict (K := Z) (V := Z))
           (substitutions : list sub_event) (activities : list activity)
           (pbp_df : list pbp_row) : result (list interval) :=
  match pbp_df with
  | [] => Raise IndexError
  | first :: _ =>
      let game_id := gameId first in
      let max_period :=
        match series_max (map period pbp_df) with
        | Some m => m
        | None => 0
        end in
      let game_start_wallClock := series_min (wallClocks_of_period pbp_df 1) in
      let game_end_wallClock :=
        series_max (wallClocks_of_period pbp_df max_period) in
      from_subs <- mapM (substitution_changes team_mapping) substitutions ;;
      inferred_entries <-
        _infer_reentries_from_activity activities substitutions team_mapping ;;
      let status_changes :=
        starter_changes starters game_start_wallClock
        ++ concat from_subs ++ inferred_entries in
      match status_changes with
      | [] => Raise KeyError
      | _ =>
          Ok (_build_intervals_from_status_changes
                (sort_values change_leb status_changes)
                game_id game_end_wallClock)
      end
  end.

Definition track_lineup_states (box_score_df : list box_row)
           (pbp_df : list pbp_row) : result (list interval) :=
  let starters := _get_starting_lineups box_score_df in
  let team_mapping := _get_team_mapping box_score_df in
  activities <- _get_player_activities pbp_df ;;
  let substitutions := _get_substitution_events pbp_df in
  _build_hybrid_intervals starters team_mapping substitutions activities pbp_df.

(** The interval filter that rim_defense.py and possessions.py of the
    players pipeline apply at an instant. *)
Definition covers (shot_period shot_wallClock : Z) (i : interval) : bool :=
  (period_start i <=? shot_period)
  && (shot_period <=? period_end i)
  && clock_leb (wallClock_start i) (Some shot_wallClock)
  && clock_leb (Some shot_wallClock) (wallClock_end i).

End CourtTime.

(* ================================================================== *)
(** * players/transformers/rim_defense.py                               *)
(* ================================================================== *)

Module RimDefense.
Import Data CourtTime.

Definition _get_player_team_mapping (lineup_intervals : list interval)
  : dict (K := Z) (V := Z) :=
  fold_left (fun d i => dict_set Z.eqb d (i_playerId i) (i_teamId i))
            lineup_intervals [].

(** The value stored per player in [player_stats]. *)
Record stats : Type := mk_stats {
  on_makes : Z;
  on_attempts : Z;
  off_makes : Z;
  off_attempts : Z;
  st_teamId : Z
}.

Definition player_stats : Type := dict (K := Z) (V := stats).

Definition bump (shot_made : bool) (n : Z) : Z :=
  if shot_made then n + 1 else n.

(** The body of [for player_id in defensive_team_players]. *)
Definition count_player (shot_made : bool) (defending_players : list Z)
           (defensive_team : Z) (ps : player_stats) (player_id : Z)
  : player_stats :=
  let s :=
    match dict_get Z.eqb ps player_id with
    | Some s => s
    | None => mk_stats 0 0 0 0 defensive_team
    end in
  if existsb (Z.eqb player_id) defending_players then
    dict_set Z.eqb ps player_id
      (mk_stats (bump shot_made (on_makes s)) (on_attempts s + 1)
                (off_makes s) (off_attempts s) (st_teamId s))
  else
    dict_set Z.eqb ps player_id
      (mk_stats (on_makes s) (on_attempts s)
                (bump shot_made (off_makes s)) (off_attempts s + 1)
                (st_teamId s)).

Definition defensive_team_players (player_teams : dict (K := Z) (V := Z))
           (defensive_team : Z) : list Z :=
  map fst (filter (fun pt : Z * Z => snd pt =? defensive_team) player_teams).

(** The players of [defensive_team] whose interval covers the instant:
    [players_on_court[players_on_court['teamId'] == defensive_team]]. *)
Definition defending_players (lineup_intervals : list interval)
           (shot_period shot_wallClock defensive_team : Z) : list Z :=
  let players_on_court :=
    filter (covers shot_period shot_wallClock) lineup_intervals in
  map i_playerId
      (filter (fun i => i_teamId i =? defensive_team) players_on_court).

(** The body of [for _, shot in rim_shots.iterrows()]. *)
Definition count_shot (lineup_intervals : list interval)
           (player_teams : dict (K := Z) (V := Z))
           (ps : player_stats) (shot : pbp_row) : player_stats :=
  let shot_made := msgType shot =? 1 in
  match offTeamId shot, defTeamId shot with
  | Some _, Some defensive_team =>
      fold_left
        (count_player shot_made
           (defending_players lineup_intervals (period shot)
                              (wallClockInt shot) defensive_team)
           defensive_team)
        (defensive_team_players player_teams defensive_team) ps
  | _, _ => ps
  end.

Record rim_row : Type := mk_rim_row {
  rr_playerId : Z;
  rr_teamId : Z;
  rim_fgm_on : Z;
  rim_fga_on : Z;
  rim_fgm_off : Z;
  rim_fga_off : Z;
  rim_fg_pct_on : option Q;
  rim_fg_pct_off : option Q;
  rim_fg_pct_diff : option Q
}.

(** [makes / attempts.replace(0, 1)]. *)
Definition ratio (makes attempts : Z) : Q :=
  (inject_Z makes / inject_Z (if attempts =? 0 then 1 else attempts))%Q.

(** [pct.where(attempts > 0, None)]. *)
Definition where_positive (attempts : Z) (pct : Q) : option Q :=
  if 0 <? attempts then Some pct else None.

(** One output row.  The difference is taken from the two ratios before
    the zero-attempt cells are blanked. *)
Definition result_row (e : Z * stats) : rim_row :=
  let '(player_id, s) := e in
  let pct_on := ratio (on_makes s) (on_attempts s) in
  let pct_off := ratio (off_makes s) (off_attempts s) in
  mk_rim_row player_id (st_teamId s)
             (on_makes s) (on_attempts s) (off_makes s) (off_attempts s)
             (where_positive (on_attempts s) pct_on)
             (where_positive (off_attempts s) pct_off)
             (Some (pct_on - pct_off)%Q).

(** With no player counted, the result frame has no columns and reading
    [rim_fgm_on] raises KeyError. *)
Definition _calculate_rim_defense_stats (rim_shots : list pbp_row)
           (lineup_intervals : list interval)
           (player_teams : dict (K := Z) (V := Z)) : result (list rim_row) :=
  match fold_left (count_shot lineup_intervals player_teams) rim_shots [] with
  | [] => Raise KeyError
  | ps => Ok (map result_row ps)
  end.

Definition track_rim_defense (enhanced_pbp_df : list pbp_row)
           (lineup_intervals : list interval) : result (list rim_row) :=
  let rim_shots := filter is_rim_shot enhanced_pbp_df in
  let player_teams := _get_player_team_mapping lineup_intervals in
  _calculate_rim_defense_stats rim_shots lineup_intervals player_teams.

End RimDefense.

(* ================================================================== *)
(** * Vocabulary of the specification                                   *)
(* ================================================================== *)

Module Vocabulary.
Import Possessions.

(** [a] starts no later than [b]: an earlier period, or the same period
    with no less time left on the game clock. *)
Definition chron_le (a b : possession) : Prop :=
  p_period a < p_period b
  \/ (p_period a = p_period b
      /\ start_time_seconds b <= start_time_seconds a).

(** [b] has the teams of [a] exchanged. *)
Definition swapped (a b : possession) : Prop :=
  off_team b = def_team a /\ def_team b = off_team a.

(** [b] has the teams of [a]. *)
Definition kept (a b : possession) : Prop :=
  off_team b = off_team a /\ def_team b = def_team a.

(** A substitution that fails the validation of the lineup timeline
    builder at the current on-court sets: its team has an on-court set,
    and the outgoing player is not in it or the incoming player is. *)
Definition fails_validation (current_lineups : LineupStates.lineups)
           (sub : LineupStates.substitution) : Prop :=
  exists lineup,
    dict_get String.eqb current_lineups (LineupStates.s_team sub) = Some lineup
    /\ (~ In (LineupStates.player_out sub) lineup
        \/ In (LineupStates.player_in sub) lineup).

(** The box-score rows that designate a starter of team [t], as the
    lineups pipeline reads them (a non-empty startPos). *)
Definition designated_starters (box_score_df : list Data.box_row) (t : string)
  : list Data.box_row :=
  filter (fun r => LineupStates.has_start_pos r && String.eqb (Data.b_team r) t)
         box_score_df.

(** The players that the players pipeline reads as starters of team
    [t] (gs = 1). *)
Definition gs_starters (box_score_df : list Data.box_row) (t : Z) : list Z :=
  map Data.nbaId
      (filter (fun r => (Data.gs r =? 1) && (Data.b_nbaTeamId r =? t))
              box_score_df).

(** A rim shot that the tracker counts against team [t]: both teams of
    the shot are known and [t] defends. *)
Definition counted_against (t : Z) (shot : Data.pbp_row) : bool :=
  match Data.offTeamId shot, Data.defTeamId shot with
  | Some _, Some d => d =? t
  | _, _ => false
  end.

Definition shot_made (shot : Data.pbp_row) : bool := Data.msgType shot =? 1.

(** The number of rim shots with known teams attempted against [t]. *)
Definition rim_shots_against (pbp_df : list Data.pbp_row) (t : Z) : Z :=
  Z.of_nat (length (filter (fun s => Data.is_rim_shot s && counted_against t s)
                           pbp_df)).


(** Every substitution row of the play-by-play names both players. *)
Definition substitutions_complete (pbp_df : list Data.pbp_row) : Prop :=
  forall r, In r pbp_df -> Data.msgType r = 8 ->
            Data.playerId1 r <> None /\ Data.playerId2 r <> None.

Section PossessionTerms.
Import Possessions.

Definition ids_from (pid : Z) (n : nat) : list Z :=
  map (fun i => pid + Z.of_nat i) (seq 0 n).

Definition desc_end (a b : ending) : Prop :=
  e_end_time_seconds b <= e_end_time_seconds a.

Definition hands_over (a b : possession) : Prop :=
  if changes_teams (p_end_type a) then swapped a b else kept a b.

Definition same_period_hands_over (a b : possession) : Prop :=
  p_period a = p_period b -> hands_over a b.

End PossessionTerms.

Section LineupTerms.
Import LineupStates.

Definition team_period (period team_id : Z) (r : lineup_state) : bool :=
  (ls_team_id r =? team_id) && (ls_period r =? period).

End LineupTerms.

Section RimTerms.
Import Data CourtTime RimDefense.

(** The stats that [count_player] stores for a player, from the entry
    the player had. *)
Definition counted (made : bool) (defending : list Z) (defensive_team : Z)
           (before : option stats) (player_id : Z) : stats :=
  let s := match before with
           | Some s => s
           | None => mk_stats 0 0 0 0 defensive_team
           end in
  if existsb (Z.eqb player_id) defending then
    mk_stats (bump made (on_makes s)) (on_attempts s + 1)
             (off_makes s) (off_attempts s) (st_teamId s)
  else
    mk_stats (on_makes s) (on_attempts s)
             (bump made (off_makes s)) (off_attempts s + 1) (st_teamId s).

Definition against (t : Z) (shots : list pbp_row) : Z :=
  Z.of_nat (length (filter (counted_against t) shots)).

Definition makes_against (t : Z) (shots : list pbp_row) : Z :=
  Z.of_nat (length (filter (fun s => counted_against t s && shot_made s) shots)).

(** The loop invariant of [for _, shot in rim_shots.iterrows()], after
    the shots [done]. *)
Definition tallied (player_teams : dict (K := Z) (V := Z))
           (done : list pbp_row) (ps : player_stats) : Prop :=
  NoDup (map fst ps)
  /\ (forall pid s,
         dict_get Z.eqb ps pid = Some s ->
         dict_get Z.eqb player_teams pid = Some (st_teamId s)
         /\ on_attempts s + off_attempts s = against (st_teamId s) done
         /\ on_makes s + off_makes s = makes_against (st_teamId s) done)
  /\ (forall pid t,
         dict_get Z.eqb player_teams pid = Some t ->
         dict_get Z.eqb ps pid = None ->
         against t done = 0 /\ makes_against t done = 0).

End RimTerms.

Section RatingTerms.
Import LineupPossessions LineupRatings.

(** The keys of a grouped frame, in the order of its rows. *)
Definition group_keys (l : list unit_key) : list unit_key :=
  sort_values key_leb (unique_by key_eqb l).

Definition stats_of (key_of : lineup_possession -> unit_key)
           (df : list lineup_possession) (k : unit_key) : side_stats :=
  mk_side k (count_key key_of df k) (sum_points key_of df k).

(** The merged row of a unit: its counts on both sides, zero on a side
    where it was not observed. *)
Definition merged (df : list lineup_possession) (k : unit_key) : combined :=
  mk_combined k (count_key off_key df k) (sum_points off_key df k)
              (count_key def_key df k) (sum_points def_key df k).

Definition all_keys (df : list lineup_possession) : list unit_key :=
  group_keys (map ss_key (calculate_offensive_stats df)
              ++ map ss_key (calculate_defensive_stats df)).

End RatingTerms.

End Vocabulary.

(* ================================================================== *)
(** * Concrete games                                                    *)
(* ================================================================== *)

Module Games.
Import Data.
Open Scope string_scope.

(** A play-by-play row of game "G1"; wall clock and game clock given. *)
Definition play (p clock wall order msg : Z) (tm : string)
           (off def : option Z) (p1 p2 : option Z) (points : Z) (rim : bool)
  : pbp_row :=
  mk_pbp "G1" p clock wall order msg tm off def off p1 p2 None points rim.

(** Team 2 turns the ball over; player 101 of team 1 then scores and is
    fouled, and takes the free throw: the last two rows of the stream. *)
Definition and_one_at_end : list pbp_row :=
  [ play 1 710 1000 1 5 "DAL" (Some 2) (Some 1) (Some 201) None 0 false;
    play 1 700 1100 2 1 "HOU" (Some 1) (Some 2) (Some 101) None 2 false;
    play 1 700 1150 3 3 "HOU" (Some 1) (Some 2) (Some 101) None 1 false ].

(** The same and-one with a period-end row after it. *)
Definition and_one_mid_stream : list pbp_row :=
  and_one_at_end
  ++ [ play 1 0 2000 4 12 "" (Some 0) (Some 0) None None 0 false ].

(** Two periods: a miss and defensive rebound, a made shot, the end of
    the period, and a turnover in the second period. *)
Definition two_periods : list pbp_row :=
  [ play 1 720 1000 1 10 "HOU" (Some 1) (Some 2) (Some 101) (Some 201) 0 false;
    play 1 705 1100 2 2 "HOU" (Some 1) (Some 2) (Some 101) None 0 false;
    play 1 700 1150 3 4 "DAL" (Some 2) (Some 1) (Some 201) None 0 false;
    play 1 680 1300 4 1 "DAL" (Some 2) (Some 1) (Some 202) None 3 false;
    play 1 0 2000 5 12 "" (Some 0) (Some 0) None None 0 false;
    play 2 720 3000 6 5 "HOU" (Some 1) (Some 2) (Some 102) None 0 false;
    play 2 700 3100 7 1 "DAL" (Some 2) (Some 1) (Some 203) None 2 false ].

Definition starter (id : Z) (tm : string) (tid : Z) : box_row :=
  mk_box id tm tid (Some "G") 1.

Definition bench (id : Z) (tm : string) (tid : Z) : box_row :=
  mk_box id tm tid None 0.

Definition hou_five : list box_row :=
  map (fun id => starter id "HOU" 1) [101; 102; 103; 104; 105].

Definition dal_five : list box_row :=
  map (fun id => starter id "DAL" 2) [201; 202; 203; 204; 205].

(** Five starters and one reserve per team. *)
Definition box_score : list box_row :=
  hou_five ++ [bench 106 "HOU" 1] ++ dal_five ++ [bench 206 "DAL" 2].

(** Team HOU has only three starters. *)
Definition box_three_starters : list box_row :=
  map (fun id => starter id "HOU" 1) [101; 102; 103]
  ++ [bench 104 "HOU" 1] ++ dal_five.

(** Team DAL has no designated starter at all. *)
Definition box_no_dal_starter : list box_row :=
  hou_five ++ map (fun id => bench id "DAL" 2) [201; 202; 203; 204; 205].

(** A period with a missed DAL rim shot at 10:50 (wall clock 1200), one
    HOU substitution at 10:00 (wall clock 1500) whose row carries [p1]
    in playerId1 and [p2] in playerId2, and a made DAL rim shot at 8:20
    (wall clock 2000). *)
Definition game_with_substitution (p1 p2 : Z) : list pbp_row :=
  [ play 1 720 1000 1 10 "HOU" (Some 1) (Some 2) (Some 101) (Some 201) 0 false;
    play 1 700 1100 2 2 "HOU" (Some 1) (Some 2) (Some 101) None 0 false;
    play 1 650 1200 3 2 "DAL" (Some 2) (Some 1) (Some 201) None 0 true;
    play 1 600 1500 4 8 "HOU" (Some 1) (Some 2) (Some p1) (Some p2) 0 false;
    play 1 500 2000 5 1 "DAL" (Some 2) (Some 1) (Some 201) None 2 true ].

(** The court-time intervals of the players pipeline for that game, 105
    leaving for 106. *)
Definition court_intervals : list CourtTime.interval :=
  Eval vm_compute in
    match CourtTime.track_lineup_states box_score
                                        (game_with_substitution 105 106) with
    | Ok intervals => intervals
    | Raise _ => []
    end.

(** The lineup states of the test fixture: HOU changes its fifth player
    at 9:30, DAL at 8:00. *)
Definition lineup_table : list LineupStates.lineup_state :=
  [ LineupStates.mk_state 1 720 "HOU" 1 [101; 102; 103; 104; 105];
    LineupStates.mk_state 1 570 "HOU" 1 [101; 102; 103; 104; 106];
    LineupStates.mk_state 1 720 "DAL" 2 [201; 202; 203; 204; 205];
    LineupStates.mk_state 1 480 "DAL" 2 [201; 202; 203; 204; 206] ].

Definition hou_on_court : LineupStates.lineups :=
  [("HOU", [101; 102; 103; 104; 105])].

End Games.

(* ================================================================== *)
(** * players/transformers/possessions.py                               *)
(* ================================================================== *)

Module PlayerPossessions.
Import Data CourtTime.

(** The strings of [end_reason]; [period_over] stands for "end_period",
    which is also the name of a column. *)
Inductive end_reason : Type :=
| made_shot | defensive_rebound | turnover | period_over | foul | game_end.

(** One element of the list [possessions]. *)
Record possession : Type := mk_possession {
  possession_id : Z;
  start_period : Z;
  start_wallClock : Z;
  offensive_team : option Z;
  defensive_team : option Z;
  events : list pbp_row;
  end_period : Z;
  end_wallClock : Z;
  end_reason_of : end_reason;
  event_count : Z
}.

(** [current_possession] while it is open. *)
Record open_possession : Type := mk_open {
  o_possession_id : Z;
  o_start_period : Z;
  o_start_wallClock : Z;
  o_offensive_team : option Z;
  o_defensive_team : option Z;
  o_events : list pbp_row
}.

(** [sort_values(['period', 'wallClockInt'])]. *)
Definition event_order_leb (a b : pbp_row) : bool :=
  if period a <? period b then true
  else if period b <? period a then false
  else wallClockInt a <=? wallClockInt b.

Section Identify.

(** ['FLAGRANT' in str(event.get('description', '')).upper()]: the
    description of a row enters the function through this test only. *)
Variable flagrant : pbp_row -> bool.

(** The chain of tests on one event; [next_event] is the row at [i + 1],
    if there is one.  After a made shot [next_is_oreb] is never set. *)
Definition ends_possession (event : pbp_row) (next_event : option pbp_row)
  : option end_reason :=
  if msgType event =? 1 then Some made_shot
  else if msgType event =? 2 then
    match next_event with
    | Some next => if msgType next =? 4 then Some defensive_rebound else None
    | None => None
    end
  else if msgType event =? 5 then Some turnover
  else if msgType event =? 13 then Some period_over
  else if msgType event =? 6 then
    if flagrant event then Some foul else None
  else None.

Definition start_possession (possessions : list possession) (event : pbp_row)
  : open_possession :=
  mk_open (Z.of_nat (length possessions) + 1) (period event)
          (wallClockInt event) (offTeamId event) (defTeamId event) [].

Definition add_event (c : open_possession) (event : pbp_row)
  : open_possession :=
  mk_open (o_possession_id c) (o_start_period c) (o_start_wallClock c)
          (o_offensive_team c) (o_defensive_team c) (o_events c ++ [event]).

Definition close_possession (c : open_possession) (event : pbp_row)
           (reason : end_reason) : possession :=
  mk_possession (o_possession_id c) (o_start_period c) (o_start_wallClock c)
                (o_offensive_team c) (o_defensive_team c) (o_events c)
                (period event) (wallClockInt event) reason
                (Z.of_nat (length (o_events c))).

(** The loop over the sorted rows, with [possessions] and
    [current_possession]. *)
Fixpoint identify_loop (rows : list pbp_row) (possessions : list possession)
         (current_possession : option open_possession)
  : list possession * option open_possession :=
  match rows with
  | [] => (possessions, current_possession)
  | event :: rest =>
      let current :=
        add_event (match current_possession with
                   | Some c => c
                   | None => start_possession possessions event
                   end) event in
      match ends_possession event (hd_error rest) with
      | Some reason =>
          identify_loop rest
                        (possessions ++ [close_possession current event reason])
                        None
      | None => identify_loop rest possessions (Some current)
      end
  end.

(** An open possession is left only after some row was processed, so
    [pbp_sorted.iloc[-1]] exists where it is read. *)
Definition _identify_possessions (pbp_df : list pbp_row) : list possession :=
  let pbp_sorted := sort_values event_order_leb pbp_df in
  let '(possessions, current_possession) :=
    identify_loop pbp_sorted [] None in
  match current_possession, rev pbp_sorted with
  | Some c, final_event :: _ =>
      possessions ++ [close_possession c final_event game_end]
  | _, _ => possessions
  end.

End Identify.

(** The value stored per player in [player_possession_counts]. *)
Record counts : Type := mk_counts {
  offensive : Z;
  defensive : Z
}.

(** [(start_wallClock + end_wallClock) / 2]. *)
Definition mid_wallClock (poss : possession) : Q :=
  (inject_Z (start_wallClock poss + end_wallClock poss) / 2)%Q.

(** A clock cell against the mid instant; a NaN cell compares false. *)
Definition clock_le_mid (c : option Z) (m : Q) : bool :=
  match c with
  | Some x => Qle_bool (inject_Z x) m
  | None => false
  end.

Definition clock_ge_mid (c : option Z) (m : Q) : bool :=
  match c with
  | Some x => Qle_bool m (inject_Z x)
  | None => false
  end.

(** The interval filter at the middle of the possession, in the
    possession's starting period. *)
Definition on_court_at_mid (poss : possession) (i : interval) : bool :=
  (period_start i <=? start_period poss)
  && (start_period poss <=? period_end i)
  && clock_le_mid (wallClock_start i) (mid_wallClock poss)
  && clock_ge_mid (wallClock_end i) (mid_wallClock poss).

(** The body of [for _, player_interval in players_on_court.iterrows()]. *)
Definition count_interval (offensive_team defensive_team : Z)
           (pc : dict (K := Z) (V := counts)) (player_interval : interval)
  : dict (K := Z) (V := counts) :=
  let player_id := i_playerId player_interval in
  let c := match dict_get Z.eqb pc player_id with
           | Some c => c
           | None => mk_counts 0 0
           end in
  dict_set Z.eqb pc player_id
    (if i_teamId player_interval =? offensive_team
     then mk_counts (offensive c + 1) (defensive c)
     else if i_teamId player_interval =? defensive_team
          then mk_counts (offensive c) (defensive c + 1)
          else c).

(** The body of [for _, possession in possessions_df.iterrows()]. *)
Definition count_possession (lineup_intervals : list interval)
           (pc : dict (K := Z) (V := counts)) (poss : possession)
  : dict (K := Z) (V := counts) :=
  match offensive_team poss, defensive_team poss with
  | Some off, Some def =>
      fold_left (count_interval off def)
                (filter (on_court_at_mid poss) lineup_intervals) pc
  | _, _ => pc
  end.

Record count_row : Type := mk_count_row {
  cr_playerId : Z;
  offensive_possessions : Z;
  defensive_possessions : Z;
  cr_total_possessions : Z
}.

(** [pd.isna] of neither team cell. *)
Definition teams_known (poss : possession) : bool :=
  match offensive_team poss, defensive_team poss with
  | Some _, Some _ => true
  | _, _ => false
  end.

(** [team_mapping] is passed and never read.  An interval frame without
    rows, as [pd.DataFrame(intervals)] builds it from no records, has no
    columns: reading [period_start] from it raises KeyError at the first
    possession with known teams. *)
Definition _count_player_possessions (possessions_df : list possession)
           (lineup_intervals : list interval)
           (team_mapping : dict (K := Z) (V := Z)) : result (list count_row) :=
  match lineup_intervals with
  | [] => if existsb teams_known possessions_df then Raise KeyError else Ok []
  | _ =>
      Ok (map (fun e : Z * counts =>
                 mk_count_row (fst e) (offensive (snd e)) (defensive (snd e))
                              (offensive (snd e) + defensive (snd e)))
              (fold_left (count_possession lineup_intervals) possessions_df []))
  end.

Definition analyze_possessions (flagrant : pbp_row -> bool)
           (box_score_df : list box_row) (pbp_df : list pbp_row)
           (lineup_intervals : list interval) : result (list count_row) :=
  let team_mapping := _get_team_mapping box_score_df in
  let possessions := _identify_possessions flagrant pbp_df in
  _count_player_possessions possessions lineup_intervals team_mapping.

End PlayerPossessions.

(* ================================================================== *)
(** * players/transformers/shot_distance.py                             *)
(* ================================================================== *)

Module ShotDistance.
Import Data PrimFloat.

(** A row of the input frame with its coordinates, in tenths of feet.
    The [is_rim_shot] field of [l_row] is the column that the function
    assigns; the value it has in the input is not read. *)
Record located_row : Type := mk_located {
  l_row : pbp_row;
  locX : float;
  locY : float
}.

(** A row of the enhanced frame. *)
Record enhanced_row : Type := mk_enhanced {
  e_row : pbp_row;
  shot_distance : float
}.

(** [pbp_df['msgType'].isin([1, 2])]. *)
Definition _is_shot_attempt (r : pbp_row) : bool :=
  existsb (Z.eqb (msgType r)) [1; 2].

(** The basket is at the origin; squaring an array is a multiplication. *)
Definition _calculate_distance_from_basket (loc_x loc_y : float) : float :=
  let basket_x := 0%float in
  let basket_y := 0%float in
  let x_feet := (loc_x / 10)%float in
  let y_feet := (loc_y / 10)%float in
  sqrt ((x_feet - basket_x) * (x_feet - basket_x)
        + (y_feet - basket_y) * (y_feet - basket_y))%float.

Definition with_rim_shot (r : pbp_row) (flag : bool) : pbp_row :=
  mk_pbp (gameId r) (period r) (gameClock r) (wallClockInt r) (pbpOrder r)
         (msgType r) (team r) (offTeamId r) (defTeamId r) (nbaTeamId r)
         (playerId1 r) (playerId2 r) (playerId3 r) (pts r) flag.

(** What the column assignments do to one row: the distance is NaN off
    the shot mask, a comparison with NaN is false, and [fillna(-1)]
    replaces every NaN distance. *)
Definition enhance (l : located_row) : enhanced_row :=
  let shot_mask := _is_shot_attempt (l_row l) in
  let distance :=
    if shot_mask then _calculate_distance_from_basket (locX l) (locY l)
    else nan in
  mk_enhanced (with_rim_shot (l_row l) (shot_mask && leb distance 4%float))
              (if is_nan distance then (-1)%float else distance).

Definition calculate_shot_distances (pbp_df : list located_row)
  : list enhanced_row :=
  map enhance pbp_df.

End ShotDistance.

(* ================================================================== *)
(** * Vocabulary of the further properties                              *)
(* ================================================================== *)

Module Terms.

Section PossessionTerms.
Import Data Possessions.


(** The event types that close a possession wherever they occur:
    rebounds, turnovers and period or game ends. *)
Definition always_closes (msg_type : Z) : option end_type :=
  if msg_type =? 4 then Some defensive_rebound
  else if msg_type =? 5 then Some turnover
  else if (msg_type =? 12) || (msg_type =? 13) then Some period_end
  else None.

(** What closes a possession: row index, end type, period, game clock. *)
Definition closing : Type := (nat * end_type * Z * Z)%type.

Definition possession_closing (x : possession) : closing :=
  (pbp_end_idx x, p_end_type x, p_period x, end_time_seconds x).

Definition ending_closing (e : ending) : closing :=
  (e_pbp_idx e, e_end_type e, e_period e, e_end_time_seconds e).

(** The cell of [offTeamId_clean] for an input row: the offensive team
    when it is positive, NaN otherwise. *)
Definition cleaned_off (r : pbp_row) : option Z :=
  if positive_cell (offTeamId r) then offTeamId r else None.


(** The positive cells of the offTeamId column. *)
Definition positive_off_teams (pbp_df : list pbp_row) : list Z :=
  cells (filter positive_cell (map offTeamId pbp_df)).

(** The clean team columns of a prepared row for the two teams [a] and
    [b]: both NaN, or one team on offense and the other on defense. *)
Definition cleaned_for (a b : Z) (c : prow) : Prop :=
  (offTeamId_clean c = None /\ defTeamId_clean c = None)
  \/ (offTeamId_clean c = Some a /\ defTeamId_clean c = Some b)
  \/ (offTeamId_clean c = Some b /\ defTeamId_clean c = Some a).

End PossessionTerms.

Section LineupTerms.
Import LineupStates LineupPossessions.

(** The lineup table has a row for team [t] in period [p]. *)
Definition has_lineup (lineups_df : list lineup_state) (p t : Z) : bool :=
  existsb (fun r => (ls_team_id r =? t) && (ls_period r =? p)) lineups_df.

(** The lineup table has a row for both teams of the possession in the
    possession's period. *)
Definition both_sides_known (lineups_df : list lineup_state)
           (poss : Possessions.possession) : bool :=
  has_lineup lineups_df (Possessions.p_period poss) (Possessions.off_team poss)
  && has_lineup lineups_df (Possessions.p_period poss)
                (Possessions.def_team poss).

(** The team id that the timeline builder writes for a team label. *)
Definition team_id_of (team_ids : dict (K := string) (V := Z)) (t : string) : Z :=
  match dict_get String.eqb team_ids t with
  | Some i => i
  | None => 0
  end.

(** The invariant of the timeline builder: the teams with an on-court set
    stay the teams [teams] of the starting lineups, and every row written
    so far is a row of one of them, with that team's id. *)
Definition builder_keeps_teams (team_ids : dict (K := string) (V := Z))
           (teams : list string) (st : builder_state) : Prop :=
  map fst (fst st) = teams
  /\ forall row, In row (snd st) ->
                 In (ls_team row) teams
                 /\ ls_team_id row = team_id_of team_ids (ls_team row).

(** The rows that the loop over the possessions appends. *)
Definition matched_rows (lineup_states_df : list lineup_state)
           (poss : Possessions.possession) : list lineup_possession :=
  match find_lineup_at_time lineup_states_df (Possessions.p_period poss)
          (Possessions.start_time_seconds poss) (Possessions.off_team poss),
        find_lineup_at_time lineup_states_df (Possessions.p_period poss)
          (Possessions.start_time_seconds poss) (Possessions.def_team poss) with
  | Some off_lineup, Some def_lineup =>
      [create_possession_record poss off_lineup def_lineup]
  | _, _ => []
  end.

(** The invariant of the timeline builder on the sizes of the units: every
    on-court set has no repeated member and a size that satisfies [P], and
    every row written so far lists its players in strictly ascending order
    and has such a size. *)
Definition court_sizes (P : nat -> Prop) (st : builder_state) : Prop :=
  (forall t s, In (t, s) (fst st) -> NoDup s /\ P (length s))
  /\ forall row, In row (snd st) ->
                 StronglySorted Z.lt (ls_players row)
                 /\ P (length (ls_players row)).

(** The ids of the starters of team [t], as the extraction lists them. *)
Definition starter_ids (box_score_df : list Data.box_row) (t : string) : list Z :=
  map Data.nbaId (team_rows t (filter has_start_pos box_score_df)).

End LineupTerms.

Section RimTerms.
Import CourtTime RimDefense.

(** Counters that a player's entry can hold: makes within attempts in
    both buckets, and at least one attempt in all. *)
Definition well_counted (s : stats) : Prop :=
  0 <= on_makes s <= on_attempts s
  /\ 0 <= off_makes s <= off_attempts s
  /\ 1 <= on_attempts s + off_attempts s.

Definition all_well_counted (ps : player_stats) : Prop :=
  forall pid s, dict_get Z.eqb ps pid = Some s -> well_counted s.

(** The team that the interval table gives a player and against which at
    least one rim shot with known teams was attempted. *)
Definition challenged (enhanced_pbp_df : list Data.pbp_row)
           (lineup_intervals : list interval) (pid : Z) : Prop :=
  exists t, dict_get Z.eqb (_get_player_team_mapping lineup_intervals) pid
            = Some t
            /\ 1 <= Vocabulary.rim_shots_against enhanced_pbp_df t.

(** A percentage cell that is empty or between 0 and 1. *)
Definition pct_cell_ok (c : option Q) : Prop :=
  match c with
  | Some q => (0 <= q /\ q <= 1)%Q
  | None => True
  end.

(** No entry has an attempt or a make in its on-court bucket. *)
Definition never_on_court (ps : player_stats) : Prop :=
  forall pid s, dict_get Z.eqb ps pid = Some s ->
                on_attempts s = 0 /\ on_makes s = 0.

End RimTerms.

Section CourtTerms.
Import Data CourtTime.

(** The row names no player in any of its three player columns. *)
Definition names_no_player (r : pbp_row) : Prop :=
  playerId1 r = None /\ playerId2 r = None /\ playerId3 r = None.

(** A substitution row that lacks one of its two players. *)
Definition incomplete_substitution (r : pbp_row) : Prop :=
  msgType r = 8 /\ (playerId1 r = None \/ playerId2 r = None).

(** The substitution event comes no later than the other event. *)
Definition no_later (a b : event) : Prop := event_leb a b = true.

(** An entry that the inference may add: an IN marked as inferred, for a
    player with a known team, who was taken out by a substitution event
    of [all_events] and has an activity event in [all_events], at the
    entry's period and wall clock, that comes no earlier than that
    substitution. *)
Definition inferred_after_exit (team_mapping : dict (K := Z) (V := Z))
           (all_events : list event) (c : status_change) : Prop :=
  sc_action c = IN
  /\ sc_source c = inferred_from_activity
  /\ known_team team_mapping (sc_playerId c) = Some (sc_teamId c)
  /\ exists p w player_in wa msg_type,
       In (Substitution p w (sc_playerId c) player_in) all_events
       /\ In (Activity (sc_period c) wa (sc_playerId c) msg_type) all_events
       /\ sc_wallClockInt c = Some wa
       /\ no_later (Substitution p w (sc_playerId c) player_in)
                   (Activity (sc_period c) wa (sc_playerId c) msg_type).

(** Every player marked OUT was taken out by a substitution event that
    comes no later than any of the events still to be processed. *)
Definition out_by_substitution (all_events events : list event)
           (player_status : dict (K := Z) (V := action)) : Prop :=
  forall k, dict_get Z.eqb player_status k = Some OUT ->
            exists p w player_in,
              In (Substitution p w k player_in) all_events
              /\ forall e, In e events ->
                           no_later (Substitution p w k player_in) e.

(** The change is the entry that the interval starts from. *)
Definition enters (c : status_change) (i : interval) : Prop :=
  sc_action c <> OUT
  /\ sc_playerId c = i_playerId i
  /\ sc_teamId c = i_teamId i
  /\ sc_period c = period_start i
  /\ sc_wallClockInt c = wallClock_start i.

(** The change is the exit that the interval ends with. *)
Definition leaves (c : status_change) (i : interval) : Prop :=
  sc_action c = OUT
  /\ sc_playerId c = i_playerId i
  /\ sc_period c = period_end i
  /\ sc_wallClockInt c = wallClock_end i.

(** No change of the list concerns the player. *)
Definition absent (pid : Z) (l : list status_change) : Prop :=
  forall c, In c l -> sc_playerId c <> pid.

(** The interval joins an entry of its player with the player's next
    change, which is an exit. *)
Definition closed_pair (changes : list status_change) (i : interval) : Prop :=
  exists l1 cin l2 cout l3,
    changes = l1 ++ cin :: l2 ++ cout :: l3
    /\ enters cin i /\ absent (i_playerId i) l2 /\ leaves cout i.

(** The interval starts from the last change of its player, which is an
    entry. *)
Definition open_pair (changes : list status_change) (i : interval) : Prop :=
  exists l1 cin l2,
    changes = l1 ++ cin :: l2
    /\ enters cin i /\ absent (i_playerId i) l2.

(** The entry stored for a player is the player's last change. *)
Definition open_entry (changes : list status_change) (pid : Z)
           (v : Z * option Z * Z) : Prop :=
  exists l1 cin l2,
    changes = l1 ++ cin :: l2
    /\ sc_action cin <> OUT /\ sc_playerId cin = pid
    /\ (sc_period cin, sc_wallClockInt cin, sc_teamId cin) = v
    /\ absent pid l2.

(** The invariant of the loop of [_build_intervals_from_status_changes]
    after the changes [done]. *)
Definition paired_so_far (game_id : string) (done : list status_change)
           (st : entry_times * list interval) : Prop :=
  NoDup (map fst (fst st))
  /\ (forall pid v, dict_get Z.eqb (fst st) pid = Some v ->
                    open_entry done pid v)
  /\ forall i, In i (snd st) -> i_gameId i = game_id /\ closed_pair done i.

End CourtTerms.

Section PlayerPossessionTerms.
Import Data CourtTime PlayerPossessions.

Variable flagrant : pbp_row -> bool.

(** None of the events [evs] ends a possession, each one tested against
    the row that follows it in [evs ++ following]. *)
Definition no_early_end (evs following : list pbp_row) : Prop :=
  forall b1 e b2,
    evs = b1 ++ e :: b2 ->
    ends_possession flagrant e (hd_error (b2 ++ following)) = None.

(** The possession holds the events [before ++ [final]]: it starts with
    the fields of its first event, ends with those of [final], and counts
    its events. *)
Definition spans (p : possession) (before : list pbp_row) (final : pbp_row)
  : Prop :=
  events p = before ++ [final]
  /\ event_count p = Z.of_nat (length (events p))
  /\ end_period p = period final
  /\ end_wallClock p = wallClockInt final
  /\ exists first,
       hd_error (events p) = Some first
       /\ start_period p = period first
       /\ start_wallClock p = wallClockInt first
       /\ offensive_team p = offTeamId first
       /\ defensive_team p = defTeamId first.

(** The possessions [ps], numbered from [k], cut the stream into
    consecutive non-empty runs: each run stops at the first event that
    ends a possession, and a run that no event ends can only be the last
    one, closed as game_end. *)
Fixpoint segmentation (k : Z) (stream : list pbp_row) (ps : list possession)
  : Prop :=
  match ps with
  | [] => stream = []
  | p :: rest =>
      possession_id p = k
      /\ exists before final following,
           stream = before ++ final :: following
           /\ spans p before final
           /\ no_early_end before (final :: following)
           /\ match end_reason_of p with
              | game_end =>
                  following = []
                  /\ ends_possession flagrant final None = None
              | reason =>
                  ends_possession flagrant final (hd_error following)
                  = Some reason
              end
           /\ segmentation (k + 1) following rest
  end.

(** The state of the loop before the rows [rows]: an open possession
    numbered after the closed ones, holding events none of which ended
    it. *)
Definition open_ok (closed : nat) (rows : list pbp_row)
           (cur : option open_possession) : Prop :=
  match cur with
  | None => True
  | Some c =>
      o_possession_id c = Z.of_nat closed + 1
      /\ no_early_end (o_events c) rows
      /\ exists first more,
           o_events c = first :: more
           /\ o_start_period c = period first
           /\ o_start_wallClock c = wallClockInt first
           /\ o_offensive_team c = offTeamId first
           /\ o_defensive_team c = defTeamId first
  end.

Definition open_events (cur : option open_possession) : list pbp_row :=
  match cur with
  | Some c => o_events c
  | None => []
  end.

(** What [_identify_possessions] returns from a loop state. *)
Definition finished (st : list possession * option open_possession)
           (final_event : option pbp_row) : list possession :=
  match snd st, final_event with
  | Some c, Some final => fst st ++ [close_possession c final game_end]
  | _, _ => fst st
  end.

End PlayerPossessionTerms.

Section CountTerms.
Import Data CourtTime PlayerPossessions.

(** The interval rows of player [pid] that are on court at the middle of
    the possession. *)
Definition rows_at_mid (lineup_intervals : list interval) (pid : Z)
           (poss : possession) : list interval :=
  filter (fun i => i_playerId i =? pid)
         (filter (on_court_at_mid poss) lineup_intervals).

Definition on_offense (poss : possession) (i : interval) : bool :=
  cell_eqb (Some (i_teamId i)) (offensive_team poss).

Definition on_defense (poss : possession) (i : interval) : bool :=
  negb (on_offense poss i) && cell_eqb (Some (i_teamId i)) (defensive_team poss).

(** The number of pairs of a possession with known teams and an interval
    row of the player on court at its middle that satisfy [side]. *)
Definition tally (side : possession -> interval -> bool)
           (lineup_intervals : list interval) (pid : Z)
           (possessions_df : list possession) : Z :=
  fold_right Z.add 0
    (map (fun poss =>
            if teams_known poss
            then Z.of_nat (length (filter (side poss)
                                          (rows_at_mid lineup_intervals pid poss)))
            else 0)
         possessions_df).

(** The player has an interval row on court at the middle of some
    possession with known teams. *)
Definition seen (lineup_intervals : list interval) (pid : Z)
           (possessions_df : list possession) : bool :=
  existsb (fun poss =>
             teams_known poss
             && negb (length (rows_at_mid lineup_intervals pid poss) =? 0)%nat)
          possessions_df.

(** The invariant of the loop of [_count_player_possessions] after the
    possessions [done]. *)
Definition counted_so_far (lineup_intervals : list interval)
           (done : list possession) (pc : dict (K := Z) (V := counts)) : Prop :=
  NoDup (map fst pc)
  /\ forall pid,
       dict_get Z.eqb pc pid
       = if seen lineup_intervals pid done
         then Some (mk_counts (tally on_offense lineup_intervals pid done)
                              (tally on_defense lineup_intervals pid done))
         else None.

End CountTerms.

Section ShotTerms.
Import PrimFloat ShotDistance.

(** The binary64 value of an integer coordinate; it is exact below 2^53. *)
Fixpoint float_of_positive (p : positive) : float :=
  match p with
  | xH => 1%float
  | xO q => (2 * float_of_positive q)%float
  | xI q => (2 * float_of_positive q + 1)%float
  end.

Definition float_of_Z (z : Z) : float :=
  match z with
  | Z0 => 0%float
  | Zpos p => float_of_positive p
  | Zneg p => (- float_of_positive p)%float
  end.

(** The point is within four feet of the basket, in exact arithmetic on
    tenths of feet. *)
Definition within_four_feet (x y : Z) : bool := x * x + y * y <=? 1600.

(** The integers [lo], [lo + 1], ..., [lo + n - 1]. *)
Definition zrange (lo : Z) (n : nat) : list Z :=
  map (fun i => lo + Z.of_nat i) (seq 0 n).

(** The binary64 test and the exact test agree at the point. *)
Definition agree_at (x y : Z) : bool :=
  Bool.eqb (leb (_calculate_distance_from_basket (float_of_Z x) (float_of_Z y))
                4%float)
           (within_four_feet x y).

(** They agree at every point at most ten feet from the basket on both
    axes. *)
Definition agree_near_basket : bool :=
  forallb (fun x => forallb (agree_at x) (zrange (-100) 201)) (zrange (-100) 201).

(** The distance that [fillna(-1)] writes. *)
Definition no_distance : float := (-1)%float.

(** The rows are the same but for the [is_rim_shot] column. *)
Definition same_but_flag (a b : Data.pbp_row) : Prop :=
  with_rim_shot a false = with_rim_shot b false.

End ShotTerms.

End Terms.

(* ================================================================== *)
(** * Further concrete games                                            *)
(* ================================================================== *)

Module MoreGames.
Import Data.
Open Scope string_scope.

(** A first period with team events, and a second period that holds
    nothing but its end row, which names no team. *)
Definition bare_second_period : list pbp_row :=
  Games.and_one_at_end
  ++ [ Games.play 2 0 3000 4 13 "" (Some 0) (Some 0) None None 0 false ].

(** One period in which DAL substitutes 206 for 205. *)
Definition dal_substitution : list pbp_row :=
  [ Games.play 1 720 1000 1 10 "HOU" (Some 1) (Some 2) (Some 101) (Some 201) 0 false;
    Games.play 1 600 1500 2 8 "DAL" (Some 2) (Some 1) (Some 206) (Some 205) 0 false ].

(** A stream that holds nothing but the end row of its period. *)
Definition only_period_end : list pbp_row :=
  [ Games.play 1 0 2000 1 13 "" None None None None 0 false ].

(** A missed shot, then a substitution row that names one player only. *)
Definition substitution_without_partner : list pbp_row :=
  [ Games.play 1 700 1100 1 2 "HOU" (Some 1) (Some 2) (Some 101) None 0 false;
    Games.play 1 600 1500 2 8 "HOU" (Some 1) (Some 2) (Some 105) None 0 false ].

(** Player 105 leaves for 106 at wall clock 1500 and misses a shot at
    wall clock 2000 without a substitution row bringing him back. *)
Definition unrecorded_reentry : list pbp_row :=
  [ Games.play 1 700 1100 1 2 "HOU" (Some 1) (Some 2) (Some 101) None 0 false;
    Games.play 1 600 1500 2 8 "HOU" (Some 1) (Some 2) (Some 105) (Some 106) 0 false;
    Games.play 1 500 2000 3 2 "HOU" (Some 1) (Some 2) (Some 105) None 0 false ].

(** A starter who is taken out once and does not come back. *)
Definition one_stint : list CourtTime.status_change :=
  [ CourtTime.mk_change 1 (Some 1000) 105 1 CourtTime.START CourtTime.starter;
    CourtTime.mk_change 1 (Some 1500) 105 1 CourtTime.OUT
                        CourtTime.from_substitution ].

(** No substitution row; DAL makes a rim shot in the second period. *)
Definition late_rim_shot : list pbp_row :=
  [ Games.play 1 700 1100 1 2 "HOU" (Some 1) (Some 2) (Some 101) None 0 false;
    Games.play 2 650 3200 2 1 "DAL" (Some 2) (Some 1) (Some 201) None 2 true ].

(** A missed shot taken exactly four feet from the basket, at 2.4 and
    3.2 feet along the axes. *)
Definition shot_at_four_feet : ShotDistance.located_row :=
  ShotDistance.mk_located
    (Games.play 1 700 1100 1 2 "HOU" (Some 1) (Some 2) (Some 101) None 0 false)
    (Terms.float_of_Z 24) (Terms.float_of_Z 32).

End MoreGames.

(* ================================================================== *)
(** * Properties                                                        *)
(* ================================================================== *)

(** ** Sorting and the frame helpers *)

Section SortFacts.
Context {A : Type} (leb : A -> A -> bool).

Lemma insert_sorted_perm (x : A) (l : list A) :
  Permutation (insert_sorted leb x l) (x :: l).
Proof.
  induction l as [|y r IH]; simpl.
  - apply Permutation_refl.
  - destruct (leb x y).
    + apply Permutation_refl.
    + eapply perm_trans; [apply perm_skip, IH | apply perm_swap].
Qed.

Lemma sort_values_perm (l : list A) : Permutation (sort_values leb l) l.
Proof.
  induction l as [|x r IH]; simpl.
  - apply perm_nil.
  - eapply perm_trans; [apply insert_sorted_perm | apply perm_skip, IH].
Qed.

Lemma sort_values_In (l : list A) (x : A) :
  In x (sort_values leb l) <-> In x l.
Proof.
  split; apply Permutation_in;
    [apply sort_values_perm | apply Permutation_sym, sort_values_perm].
Qed.

Lemma sort_values_length (l : list A) :
  length (sort_values leb l) = length l.
Proof. apply Permutation_length, sort_values_perm. Qed.

Hypothesis leb_total : forall a b, leb a b = true \/ leb b a = true.

Lemma insert_sorted_sorted (x : A) (l : list A) :
  Sorted (fun a b => leb a b = true) l ->
  Sorted (fun a b => leb a b = true) (insert_sorted leb x l).
Proof.
  induction l as [|y r IH]; simpl; intros Hs.
  - repeat constructor.
  - destruct (leb x y) eqn:E.
    + constructor; [assumption | constructor; assumption].
    + inversion Hs as [|? ? Hr Hhd]; subst.
      constructor; [apply IH, Hr|].
      destruct r as [|z r']; simpl.
      * constructor. destruct (leb_total x y); congruence.
      * destruct (leb x z); constructor.
        -- destruct (leb_total x y); congruence.
        -- inversion Hhd; assumption.
Qed.

Lemma sort_values_sorted (l : list A) :
  Sorted (fun a b => leb a b = true) (sort_values leb l).
Proof.
  induction l as [|x r IH]; simpl.
  - constructor.
  - apply insert_sorted_sorted, IH.
Qed.
End SortFacts.

Lemma Sorted_weaken {A : Type} (R S : A -> A -> Prop) (l : list A) :
  (forall a b, R a b -> S a b) -> Sorted R l -> Sorted S l.
Proof.
  intros HRS Hs. induction Hs as [|a l Hs IH Hhd]; constructor; auto.
  destruct Hhd; constructor; auto.
Qed.

Lemma StronglySorted_app {A : Type} (R : A -> A -> Prop) (l1 l2 : list A) :
  StronglySorted R l1 -> StronglySorted R l2 ->
  (forall a b, In a l1 -> In b l2 -> R a b) ->
  StronglySorted R (l1 ++ l2).
Proof.
  induction l1 as [|x r IH]; simpl; intros H1 H2 H12; [assumption|].
  inversion H1 as [|? ? Hr Hall]; subst.
  constructor.
  - apply IH; auto.
  - apply Forall_app; split; [assumption|].
    apply Forall_forall; intros b Hb. apply H12; auto.
Qed.

Lemma Sorted_app {A : Type} (R : A -> A -> Prop) (l1 l2 : list A) :
  Sorted R l1 -> Sorted R l2 ->
  (forall a b, In a l1 -> In b l2 -> R a b) ->
  Sorted R (l1 ++ l2).
Proof.
  induction l1 as [|x r IH]; simpl; intros H1 H2 H12; [assumption|].
  inversion H1 as [|? ? Hr Hhd]; subst.
  constructor.
  - apply IH; auto.
  - destruct r as [|y r']; simpl.
    + destruct l2; constructor. apply H12; simpl; auto.
    + constructor. inversion Hhd; assumption.
Qed.

(** Reading an adjacency property off a [Sorted] list. *)
Lemma Sorted_adjacent {A : Type} (R : A -> A -> Prop) (l1 l2 : list A) (a b : A) :
  Sorted R (l1 ++ a :: b :: l2) -> R a b.
Proof.
  induction l1 as [|x r IH]; simpl; intros Hs.
  - inversion Hs as [|? ? _ Hhd]; subst. inversion Hhd; assumption.
  - inversion Hs; subst. apply IH; assumption.
Qed.

Lemma unique_by_In {A : Type} (eqb : A -> A -> bool) (l : list A) (x : A) :
  In x (unique_by eqb l) -> In x l.
Proof.
  induction l as [|y r IH]; simpl; [tauto|].
  intros [->|H]; [auto|].
  apply filter_In in H. right. apply IH, H.
Qed.

Lemma unique_NoDup (l : list Z) : NoDup (unique l).
Proof.
  unfold unique. induction l as [|y r IH]; simpl; constructor.
  - intros H. apply filter_In in H. destruct H as [_ H].
    rewrite Z.eqb_refl in H. discriminate.
  - apply NoDup_filter, IH.
Qed.

Lemma unique_In (l : list Z) (x : Z) : In x (unique l) <-> In x l.
Proof.
  unfold unique. split; [apply unique_by_In|].
  induction l as [|y r IH]; simpl; [tauto|].
  intros [->|H]; [auto|].
  destruct (Z.eq_dec x y) as [->|Hne]; [auto|].
  right. apply filter_In. split; [auto|].
  apply negb_true_iff, Z.eqb_neq, Hne.
Qed.

Lemma sorted_unique_In (l : list Z) (x : Z) : In x (sorted_unique l) <-> In x l.
Proof.
  unfold sorted_unique. rewrite sort_values_In. apply unique_In.
Qed.

Lemma Zleb_total (a b : Z) : (a <=? b) = true \/ (b <=? a) = true.
Proof. destruct (Z.leb_spec a b); [auto|right; apply Z.leb_le; lia]. Qed.

Lemma sorted_unique_increasing (l : list Z) :
  StronglySorted Z.lt (sorted_unique l).
Proof.
  unfold sorted_unique.
  assert (Hnd : NoDup (sort_values Z.leb (unique l))).
  { eapply Permutation_NoDup;
      [apply Permutation_sym, sort_values_perm | apply unique_NoDup]. }
  assert (Hs : StronglySorted Z.le (sort_values Z.leb (unique l))).
  { apply Sorted_StronglySorted; [intros a b c; apply Z.le_trans|].
    eapply Sorted_weaken; [|apply sort_values_sorted, Zleb_total].
    intros a b; apply Z.leb_le. }
  induction Hs as [|a r Hs IH Hall]; constructor.
  - apply IH. inversion Hnd; assumption.
  - inversion Hnd as [|? ? Hnotin _]; subst.
    rewrite Forall_forall in *. intros b Hb.
    specialize (Hall b Hb).
    assert (a <> b) by (intros ->; contradiction). lia.
Qed.

Lemma fold_max_bounds (r : list Z) (y : Z) :
  y <= fold_left Z.max r y /\ Forall (fun x => x <= fold_left Z.max r y) r.
Proof.
  revert y. induction r as [|z r IH]; simpl; intros y.
  - split; [lia | constructor].
  - destruct (IH (Z.max y z)) as [H1 H2]. split; [lia|].
    constructor; [lia | exact H2].
Qed.

Lemma series_max_upper (l : list Z) (m x : Z) :
  series_max l = Some m -> In x l -> x <= m.
Proof.
  destruct l as [|y r]; simpl; [discriminate|].
  intros [= <-] [->|Hin].
  - apply fold_max_bounds.
  - destruct (fold_max_bounds r y) as [_ H].
    rewrite Forall_forall in H. apply H, Hin.
Qed.

Lemma mapM_Ok_Forall2 {A B : Type} (f : A -> result B) (l : list A) (out : list B) :
  mapM f l = Ok out -> Forall2 (fun x y => f x = Ok y) l out.
Proof.
  revert out. induction l as [|x r IH]; simpl; intros out H.
  - inversion H. constructor.
  - destruct (f x) as [y|] eqn:Ey; simpl in H; [|discriminate].
    destruct (mapM f r) as [ys|] eqn:Eys; simpl in H; [|discriminate].
    inversion H; subst. constructor; auto.
Qed.

Lemma Sorted_weaken_In {A : Type} (R S : A -> A -> Prop) (l : list A) :
  (forall a b, In a l -> In b l -> R a b -> S a b) -> Sorted R l -> Sorted S l.
Proof.
  intros HRS Hs. induction Hs as [|a l Hs IH Hhd]; constructor.
  - apply IH. intros x y Hx Hy. apply HRS; simpl; auto.
  - destruct Hhd; constructor. apply HRS; simpl; auto.
Qed.

Lemma Sorted_map {A B : Type} (R : A -> A -> Prop) (S : B -> B -> Prop)
      (f : A -> B) (l : list A) :
  (forall a b, R a b -> S (f a) (f b)) -> Sorted R l -> Sorted S (map f l).
Proof.
  intros HRS Hs. induction Hs as [|a l Hs IH Hhd]; simpl; constructor; auto.
  destruct Hhd; simpl; constructor; auto.
Qed.

Lemma Forall2_In_r {A B : Type} (R : A -> B -> Prop) (l : list A) (out : list B)
      (y : B) :
  Forall2 R l out -> In y out -> exists x, In x l /\ R x y.
Proof.
  induction 1 as [|x0 y0 l0 out0 HR _ IH]; simpl; [tauto|].
  intros [<-|Hin]; [eauto|].
  destruct (IH Hin) as [x [Hx Hxy]]. eauto.
Qed.

(** ** lineups/transformers/possessions.py *)

Module PossessionFacts.
Import Data Possessions Vocabulary.

Lemma prepared_rows_elapsed (pbp : list pbp_row) (clean : list prow) :
  _prepare_pbp_data pbp = Ok clean ->
  Forall (fun r => time_elapsed r
                   = max_period_time pbp (period (src r)) - gameClock (src r))
         clean.
Proof.
  unfold _prepare_pbp_data, _clean_team_ids.
  destruct pbp as [|r0 pbp0]; [discriminate|].
  set (pbp := r0 :: pbp0). intros H.
  apply mapM_Ok_Forall2 in H.
  apply Forall_forall. intros r Hr.
  destruct (Forall2_In_r _ _ _ _ H Hr) as [[r1 t] [Hin Hf]].
  destruct (other_team_of _ _); simpl in Hf; [|discriminate].
  inversion Hf; subst r; simpl.
  apply sort_values_In in Hin. apply in_map_iff in Hin.
  destruct Hin as [r2 [Heq _]]. inversion Heq; subst. reflexivity.
Qed.

Lemma endings_at_shape (pbp : list prow) (idx : nat) (play : prow) (e : ending) :
  In e (endings_at pbp idx play) ->
  exists et, e = _create_possession_ending play et idx.
Proof.
  unfold endings_at.
  destruct (possession_end_events (msgType (src play))) as [et|]; [|simpl; tauto].
  repeat match goal with
         | |- In _ (if ?c then _ else _) -> _ => destruct c
         end; simpl; intros H; try tauto;
    destruct H as [<-|[]]; eexists; reflexivity.
Qed.

Lemma enumerate_from_In {A : Type} (l : list A) (i j : nat) (x : A) :
  In (j, x) (enumerate_from i l) -> In x l.
Proof.
  revert i. induction l as [|y r IH]; simpl; intros i; [tauto|].
  intros [H|H]; [inversion H; auto | right; eapply IH, H].
Qed.

Lemma endings_from_rows (clean : list prow) (e : ending) :
  In e (_identify_possession_endings clean) ->
  exists r, In r clean
            /\ e_period e = period (src r)
            /\ e_end_time_seconds e = gameClock (src r)
            /\ e_time_elapsed e = time_elapsed r.
Proof.
  unfold _identify_possession_endings. intros H.
  apply in_flat_map in H. destruct H as [[i r] [Hin He]]. simpl in He.
  apply endings_at_shape in He. destruct He as [et ->].
  exists r. split; [eapply enumerate_from_In, Hin|]. simpl. auto.
Qed.

(** *** The loop over the endings of one period *)

Lemma ids_from_S (pid : Z) (n : nat) :
  ids_from pid (S n) = pid :: ids_from (pid + 1) n.
Proof.
  unfold ids_from. simpl. f_equal; [lia|].
  rewrite <- seq_shift, map_map. apply map_ext. intros; lia.
Qed.

Lemma ids_from_app (pid : Z) (n m : nat) :
  ids_from pid (n + m) = ids_from pid n ++ ids_from (pid + Z.of_nat n) m.
Proof.
  revert pid. induction n as [|n IH]; intros pid.
  - simpl. f_equal. lia.
  - change (S n + m)%nat with (S (n + m)).
    rewrite !ids_from_S. simpl. f_equal. rewrite IH. f_equal. f_equal. lia.
Qed.

Lemma period_loop_length p es pid st o d :
  length (period_loop p es pid st o d) = length es.
Proof.
  revert pid st o d. induction es as [|e r IH]; simpl; intros; [reflexivity|].
  destruct (changes_teams _); simpl; f_equal; apply IH.
Qed.

Lemma period_loop_ids p es pid st o d :
  map possession_id (period_loop p es pid st o d) = ids_from pid (length es).
Proof.
  revert pid st o d. induction es as [|e r IH]; simpl; intros; [reflexivity|].
  rewrite ids_from_S.
  destruct (changes_teams _); simpl; f_equal; apply IH.
Qed.

Lemma period_loop_period p es pid st o d :
  Forall (fun x => p_period x = p) (period_loop p es pid st o d).
Proof.
  revert pid st o d. induction es as [|e r IH]; simpl; intros; [constructor|].
  destruct (changes_teams _); constructor; simpl; auto.
Qed.

Lemma period_loop_period_In p es pid st o d x :
  In x (period_loop p es pid st o d) -> p_period x = p.
Proof.
  pose proof (period_loop_period p es pid st o d) as H.
  rewrite Forall_forall in H. apply H.
Qed.

Lemma period_loop_distinct p es pid st o d :
  o <> d -> Forall (fun x => off_team x <> def_team x) (period_loop p es pid st o d).
Proof.
  revert pid st o d. induction es as [|e r IH]; simpl; intros; [constructor|].
  destruct (changes_teams _); constructor; simpl; auto.
Qed.

Lemma period_loop_head p es pid st o d x rest :
  period_loop p es pid st o d = x :: rest ->
  p_period x = p /\ start_time_seconds x = st /\ off_team x = o /\ def_team x = d
  /\ exists e es', es = e :: es' /\ p_end_type x = e_end_type e
                   /\ end_time_seconds x = e_end_time_seconds e.
Proof.
  destruct es as [|e r]; simpl; [discriminate|].
  destruct (changes_teams _); intros [= <- _]; simpl; repeat split; eauto.
Qed.

Lemma period_loop_chron p es pid st o d :
  Sorted desc_end es ->
  (forall e es', es = e :: es' -> e_end_time_seconds e <= st) ->
  Sorted chron_le (period_loop p es pid st o d).
Proof.
  revert pid st o d. induction es as [|e r IH]; simpl; intros pid st o d Hs Hst;
    [constructor|].
  inversion Hs as [|? ? Hr Hhd]; subst.
  assert (Hnext : forall e' es', r = e' :: es' ->
                                 e_end_time_seconds e' <= e_end_time_seconds e).
  { intros e' es' ->. inversion Hhd; assumption. }
  assert (Hhead : forall o' d',
             HdRel chron_le
                   (mk_possession pid p st (e_end_time_seconds e) o d
                                  (e_end_type e) (e_pbp_idx e) 0 0)
                   (period_loop p r (pid + 1) (e_end_time_seconds e) o' d')).
  { intros o' d'.
    destruct (period_loop p r (pid + 1) (e_end_time_seconds e) o' d')
      as [|x rest] eqn:E; constructor.
    apply period_loop_head in E. destruct E as (Hp & Hstart & _).
    right. simpl. rewrite Hp, Hstart. split; [reflexivity|].
    apply (Hst e r eq_refl). }
  destruct (changes_teams _); constructor; auto.
Qed.

Lemma period_loop_handoff p es pid st o d :
  Sorted hands_over (period_loop p es pid st o d).
Proof.
  revert pid st o d. induction es as [|e r IH]; simpl; intros; [constructor|].
  destruct (changes_teams (e_end_type e)) eqn:Ec; constructor; auto;
    match goal with
    | |- HdRel _ _ ?l => destruct l as [|x rest] eqn:E; constructor
    end;
    apply period_loop_head in E; destruct E as (_ & _ & Ho & Hd & _);
    unfold hands_over, swapped, kept; simpl; rewrite Ec; auto.
Qed.

(** *** The loop over the periods *)

Lemma increasing_first_two (l : list Z) (v0 v1 : Z) :
  StronglySorted Z.lt l ->
  nth_error l 0 = Some v0 -> nth_error l 1 = Some v1 -> v0 < v1.
Proof.
  destruct l as [|a [|b r]]; simpl; try discriminate.
  intros Hs [= <-] [= <-]. inversion Hs as [|? ? _ Hall]; subst.
  inversion Hall; assumption.
Qed.

Lemma period_possessions_inv pbp endings p pid chunk :
  period_possessions pbp endings p pid = Ok chunk ->
  exists o d,
    o <> d
    /\ chunk = period_loop p
                 (sort_values elapsed_leb
                    (filter (fun e => e_period e =? p) endings))
                 pid (period_start_time pbp p) o d.
Proof.
  unfold period_possessions.
  destruct (cells (map offTeamId_clean (filter _ pbp))) as [|o _]; [discriminate|].
  destruct (nth_error _ 0) as [v0|] eqn:E0; [|discriminate].
  destruct (o =? v0) eqn:Eo.
  - destruct (nth_error _ 1) as [v1|] eqn:E1; simpl; [|discriminate].
    intros [= <-]. exists o, v1. split; [|reflexivity].
    apply Z.eqb_eq in Eo. subst o.
    pose proof (increasing_first_two _ _ _ (sorted_unique_increasing _) E0 E1).
    lia.
  - simpl. intros [= <-]. exists o, v0. split; [|reflexivity].
    apply Z.eqb_neq, Eo.
Qed.

Lemma periods_loop_ids pbp endings periods pid out :
  periods_loop pbp endings periods pid = Ok out ->
  map possession_id out = ids_from pid (length out).
Proof.
  revert pid out. induction periods as [|p rest IH]; simpl; intros pid out H.
  - inversion H. reflexivity.
  - destruct (period_possessions pbp endings p pid) as [chunk|] eqn:Ec;
      simpl in H; [|discriminate].
    destruct (periods_loop pbp endings rest _) as [more|] eqn:Em;
      simpl in H; [|discriminate].
    inversion H; subst out.
    rewrite map_app, length_app, ids_from_app. f_equal.
    + apply period_possessions_inv in Ec. destruct Ec as (o & d & _ & ->).
      rewrite period_loop_ids, period_loop_length. reflexivity.
    + apply IH, Em.
Qed.

Lemma periods_loop_periods pbp endings periods pid out :
  periods_loop pbp endings periods pid = Ok out ->
  Forall (fun x => In (p_period x) periods) out.
Proof.
  revert pid out. induction periods as [|p rest IH]; simpl; intros pid out H.
  - inversion H. constructor.
  - destruct (period_possessions pbp endings p pid) as [chunk|] eqn:Ec;
      simpl in H; [|discriminate].
    destruct (periods_loop pbp endings rest _) as [more|] eqn:Em;
      simpl in H; [|discriminate].
    inversion H; subst out. apply Forall_app. split.
    + apply period_possessions_inv in Ec. destruct Ec as (o & d & _ & ->).
      eapply Forall_impl; [|apply period_loop_period].
      simpl. intros x ->. auto.
    + eapply Forall_impl; [|eapply IH, Em]. simpl. auto.
Qed.

Lemma periods_loop_distinct pbp endings periods pid out :
  periods_loop pbp endings periods pid = Ok out ->
  Forall (fun x => off_team x <> def_team x) out.
Proof.
  revert pid out. induction periods as [|p rest IH]; simpl; intros pid out H.
  - inversion H. constructor.
  - destruct (period_possessions pbp endings p pid) as [chunk|] eqn:Ec;
      simpl in H; [|discriminate].
    destruct (periods_loop pbp endings rest _) as [more|] eqn:Em;
      simpl in H; [|discriminate].
    inversion H; subst out. apply Forall_app. split.
    + apply period_possessions_inv in Ec. destruct Ec as (o & d & Hod & ->).
      apply period_loop_distinct, Hod.
    + eapply IH, Em.
Qed.

Lemma periods_loop_handoff pbp endings periods pid out :
  StronglySorted Z.lt periods ->
  periods_loop pbp endings periods pid = Ok out ->
  Sorted same_period_hands_over out.
Proof.
  revert pid out. induction periods as [|p rest IH]; simpl; intros pid out Hp H.
  - inversion H. constructor.
  - destruct (period_possessions pbp endings p pid) as [chunk|] eqn:Ec;
      simpl in H; [|discriminate].
    destruct (periods_loop pbp endings rest _) as [more|] eqn:Em;
      simpl in H; [|discriminate].
    inversion H; subst out. inversion Hp as [|? ? Hrest Hall]; subst.
    apply period_possessions_inv in Ec. destruct Ec as (o & d & _ & ->).
    apply Sorted_app.
    + eapply Sorted_weaken; [|apply period_loop_handoff].
      intros a b Hab _. exact Hab.
    + eapply IH; eauto.
    + intros a b Ha Hb Heq. exfalso.
      apply period_loop_period_In in Ha.
      pose proof (periods_loop_periods _ _ _ _ _ Em) as Hin.
      rewrite Forall_forall in Hin, Hall. specialize (Hall _ (Hin b Hb)). lia.
Qed.

Lemma chron_le_trans (a b c : possession) :
  chron_le a b -> chron_le b c -> chron_le a c.
Proof. unfold chron_le. lia. Qed.

Section Chronology.
Variable pbp : list prow.
Variable endings : list ending.
Variable M : Z -> Z.
Hypothesis rows_elapsed :
  forall r, In r pbp -> time_elapsed r = M (period (src r)) - gameClock (src r).
Hypothesis endings_rows :
  forall e, In e endings ->
            exists r, In r pbp
                      /\ e_period e = period (src r)
                      /\ e_end_time_seconds e = gameClock (src r)
                      /\ e_time_elapsed e = time_elapsed r.

Lemma ending_elapsed (e : ending) :
  In e endings -> e_time_elapsed e = M (e_period e) - e_end_time_seconds e.
Proof.
  intros He. destruct (endings_rows e He) as (r & Hr & Hp & Ht & Hel).
  rewrite Hel, Hp, Ht. apply rows_elapsed, Hr.
Qed.

Lemma ending_before_period_start (e : ending) :
  In e endings -> e_end_time_seconds e <= period_start_time pbp (e_period e).
Proof.
  intros He. destruct (endings_rows e He) as (r & Hr & Hp & Ht & _).
  unfold period_start_time.
  assert (Hin : In (e_end_time_seconds e)
                   (map game_clock_seconds
                        (filter (fun r0 => period (src r0) =? e_period e) pbp))).
  { apply in_map_iff. exists r. split; [symmetry; exact Ht|].
    apply filter_In. split; [exact Hr|]. apply Z.eqb_eq. auto. }
  destruct (series_max _) as [m|] eqn:Em.
  - eapply series_max_upper; eauto.
  - destruct (map _ _); [destruct Hin | discriminate].
Qed.

Lemma period_endings_desc (p : Z) :
  Sorted desc_end
         (sort_values elapsed_leb (filter (fun e => e_period e =? p) endings)).
Proof.
  eapply Sorted_weaken_In;
    [|apply sort_values_sorted; intros a b; apply Zleb_total].
  intros a b Ha Hb Hab.
  apply sort_values_In, filter_In in Ha. apply sort_values_In, filter_In in Hb.
  destruct Ha as [Ha Hpa], Hb as [Hb Hpb].
  apply Z.eqb_eq in Hpa, Hpb.
  pose proof (ending_elapsed a Ha). pose proof (ending_elapsed b Hb).
  unfold elapsed_leb in Hab. apply Z.leb_le in Hab.
  unfold desc_end. rewrite Hpa in *. rewrite Hpb in *. lia.
Qed.

Lemma periods_loop_chron periods pid out :
  StronglySorted Z.lt periods ->
  periods_loop pbp endings periods pid = Ok out ->
  StronglySorted chron_le out.
Proof.
  revert pid out. induction periods as [|p rest IH]; simpl; intros pid out Hp H.
  - inversion H. constructor.
  - destruct (period_possessions pbp endings p pid) as [chunk|] eqn:Ec;
      simpl in H; [|discriminate].
    destruct (periods_loop pbp endings rest _) as [more|] eqn:Em;
      simpl in H; [|discriminate].
    inversion H; subst out. inversion Hp as [|? ? Hrest Hall]; subst.
    apply period_possessions_inv in Ec. destruct Ec as (o & d & _ & ->).
    apply StronglySorted_app.
    + apply Sorted_StronglySorted; [exact chron_le_trans|].
      apply period_loop_chron; [apply period_endings_desc|].
      intros e es' Hes.
      assert (He : In e (sort_values elapsed_leb
                           (filter (fun e0 => e_period e0 =? p) endings)))
        by (rewrite Hes; simpl; auto).
      apply sort_values_In, filter_In in He. destruct He as [He Hpe].
      apply Z.eqb_eq in Hpe. rewrite <- Hpe.
      apply ending_before_period_start, He.
    + eapply IH; eauto.
    + intros a b Ha Hb. left.
      apply period_loop_period_In in Ha. rewrite Ha.
      pose proof (periods_loop_periods _ _ _ _ _ Em) as Hin.
      rewrite Forall_forall in Hin, Hall. apply Hall, Hin, Hb.
Qed.
End Chronology.

End PossessionFacts.

Module PossessionPipeline.
Import Data Possessions Vocabulary PossessionFacts.

Lemma extract_possessions_inv (pbp_df : list pbp_row) (ps : list possession) :
  extract_possessions pbp_df = Ok ps ->
  exists clean raw,
    _prepare_pbp_data pbp_df = Ok clean
    /\ _build_possession_timeline clean (_identify_possession_endings clean)
       = Ok raw
    /\ ps = _calculate_possession_metrics raw clean.
Proof.
  unfold extract_possessions.
  destruct (_prepare_pbp_data pbp_df) as [clean|]; simpl; [|discriminate].
  destruct (_build_possession_timeline clean _) as [raw|] eqn:Eb; simpl;
    [|discriminate].
  intros [= <-]. exists clean, raw. auto.
Qed.

Lemma timeline_inv (clean : list prow) (endings : list ending)
      (raw : list possession) :
  _build_possession_timeline clean endings = Ok raw ->
  periods_loop clean endings (sorted_unique (map e_period endings)) 1 = Ok raw
  \/ raw = [].
Proof.
  unfold _build_possession_timeline. destruct endings; [|auto].
  intros [= <-]. auto.
Qed.

Lemma ids_from_one (n : nat) : ids_from 1 n = map Z.of_nat (seq 1 n).
Proof.
  unfold ids_from. rewrite <- seq_shift, map_map.
  apply map_ext. intros; lia.
Qed.

Lemma metrics_ids raw clean :
  map possession_id (_calculate_possession_metrics raw clean)
  = map possession_id raw.
Proof.
  unfold _calculate_possession_metrics. rewrite map_map. reflexivity.
Qed.

Lemma metrics_length raw clean :
  length (_calculate_possession_metrics raw clean) = length raw.
Proof. apply length_map. Qed.

Lemma StronglySorted_map {A B : Type} (R : A -> A -> Prop) (S : B -> B -> Prop)
      (f : A -> B) (l : list A) :
  (forall a b, R a b -> S (f a) (f b)) ->
  StronglySorted R l -> StronglySorted S (map f l).
Proof.
  intros HRS Hs. induction Hs as [|a l Hs IH Hall]; simpl; constructor; auto.
  apply Forall_map. eapply Forall_impl; [|exact Hall]. auto.
Qed.

(** A made shot that has two later rows, one of them a free throw by
    the shooter less than five seconds away, appends no ending. *)
Lemma and_one_defers_made_shot (pbp : list prow) (idx : nat) (shot : prow) :
  msgType (src shot) = 1 ->
  (idx + 2 < length pbp)%nat ->
  existsb (follow_up_free_throw 5 shot) (iloc pbp (idx + 1) (idx + 3)) = true ->
  endings_at pbp idx shot = [].
Proof.
  intros Hm Hlen Hft. unfold endings_at. rewrite Hm. simpl.
  unfold _is_and_one_freethrow, next_plays.
  replace (Z.of_nat idx <? Z.of_nat (length pbp) - 2) with true
    by (symmetry; apply Z.ltb_lt; lia).
  rewrite Hft. reflexivity.
Qed.

(** A made shot with fewer than two rows after it always appends a
    [made_shot] ending, whatever follows it. *)
Lemma made_shot_near_end_closes (pbp : list prow) (idx : nat) (shot : prow) :
  msgType (src shot) = 1 ->
  (length pbp <= idx + 2)%nat ->
  endings_at pbp idx shot = [_create_possession_ending shot made_shot idx].
Proof.
  intros Hm Hlen. unfold endings_at. rewrite Hm. simpl.
  unfold _is_and_one_freethrow, next_plays.
  replace (Z.of_nat idx <? Z.of_nat (length pbp) - 2) with false
    by (symmetry; apply Z.ltb_ge; lia).
  reflexivity.
Qed.
End PossessionPipeline.

Import Data Possessions Vocabulary.

(** C8. The possession_id values in the output of extract_possessions are
    exactly 1, 2, ..., N in output order, and the output is in
    chronological order of possession start: periods ascending, and within
    a period the game clock at the start never increasing (elapsed time
    never decreasing). *)
Theorem possession_ids_dense_and_chronological
        (pbp_df : list pbp_row) (ps : list possession) :
  extract_possessions pbp_df = Ok ps ->
  map possession_id ps = map Z.of_nat (seq 1 (length ps))
  /\ StronglySorted chron_le ps.
Proof.
  intros H.
  destruct (PossessionPipeline.extract_possessions_inv _ _ H)
    as (clean & raw & Hprep & Hbuild & ->).
  rewrite PossessionPipeline.metrics_ids, PossessionPipeline.metrics_length.
  destruct (PossessionPipeline.timeline_inv _ _ _ Hbuild) as [Hloop | ->].
  - split.
    + rewrite <- PossessionPipeline.ids_from_one.
      eapply PossessionFacts.periods_loop_ids, Hloop.
    + unfold _calculate_possession_metrics.
      eapply PossessionPipeline.StronglySorted_map
        with (R := chron_le);
        [unfold chron_le; simpl; auto|].
      pose proof (PossessionFacts.prepared_rows_elapsed _ _ Hprep) as Hrows.
      rewrite Forall_forall in Hrows.
      eapply PossessionFacts.periods_loop_chron
        with (M := max_period_time pbp_df);
        [exact Hrows | apply PossessionFacts.endings_from_rows
         | apply sorted_unique_increasing | exact Hloop].
  - split; [reflexivity | constructor].
Qed.

Lemma possession_ids_dense_and_chronological_witness :
  exists ps,
    extract_possessions Games.two_periods = Ok ps
    /\ map possession_id ps = [1; 2; 3; 4; 5]
    /\ StronglySorted chron_le ps.
Proof.
  destruct (extract_possessions Games.two_periods) as [ps|] eqn:E;
    [|vm_compute in E; discriminate].
  exists ps. split; [reflexivity|].
  pose proof (possession_ids_dense_and_chronological Games.two_periods ps E)
    as [Hids Hchron].
  split; [|exact Hchron].
  rewrite Hids. vm_compute in E. inversion E. reflexivity.
Defined.

Lemma changes_teams_spec (et : end_type) :
  changes_teams et = true <-> et = turnover \/ et = defensive_rebound.
Proof.
  destruct et; simpl; split; intros H; try discriminate; auto;
    destruct H as [H|H]; discriminate.
Qed.

(** C7. In every possession that extract_possessions produces the
    offensive team differs from the defensive team; and for two
    consecutive possessions of the same period, the second has the teams
    exchanged when the first ended in a turnover or a defensive rebound,
    and has the same teams for every other end type. *)
Theorem offense_differs_and_changes_hands
        (pbp_df : list pbp_row) (ps : list possession) :
  extract_possessions pbp_df = Ok ps ->
  (forall x, In x ps -> off_team x <> def_team x)
  /\ (forall l1 a b l2,
         ps = l1 ++ a :: b :: l2 ->
         p_period a = p_period b ->
         (p_end_type a = turnover \/ p_end_type a = defensive_rebound ->
          swapped a b)
         /\ (p_end_type a <> turnover ->
             p_end_type a <> defensive_rebound ->
             kept a b)).
Proof.
  intros H.
  destruct (PossessionPipeline.extract_possessions_inv _ _ H)
    as (clean & raw & Hprep & Hbuild & ->).
  assert (Hraw : Forall (fun x => off_team x <> def_team x) raw
                 /\ Sorted Vocabulary.same_period_hands_over raw).
  { destruct (PossessionPipeline.timeline_inv _ _ _ Hbuild) as [Hloop | ->].
    - split.
      + eapply PossessionFacts.periods_loop_distinct, Hloop.
      + eapply PossessionFacts.periods_loop_handoff;
          [apply sorted_unique_increasing | exact Hloop].
    - split; constructor. }
  destruct Hraw as [Hdist Hhand]. split.
  - intros x Hx. unfold _calculate_possession_metrics in Hx.
    apply in_map_iff in Hx. destruct Hx as [y [<- Hy]]. simpl.
    rewrite Forall_forall in Hdist. apply Hdist, Hy.
  - intros l1 a b l2 Hsplit Hper.
    assert (Hs : Sorted Vocabulary.same_period_hands_over
                        (_calculate_possession_metrics raw clean)).
    { unfold _calculate_possession_metrics.
      eapply Sorted_map; [|exact Hhand].
      unfold Vocabulary.same_period_hands_over, Vocabulary.hands_over,
        swapped, kept. simpl. auto. }
    rewrite Hsplit in Hs. apply Sorted_adjacent in Hs.
    specialize (Hs Hper). unfold Vocabulary.hands_over in Hs.
    destruct (changes_teams (p_end_type a)) eqn:Ec.
    + split; [auto|]. apply changes_teams_spec in Ec. intros; tauto.
    + split; [|auto]. intros Het. apply changes_teams_spec in Het. congruence.
Qed.

Lemma offense_differs_and_changes_hands_witness :
  exists a b c d e,
    extract_possessions Games.two_periods = Ok [a; b; c; d; e]
    /\ off_team a <> def_team a
    /\ p_end_type a = defensive_rebound /\ swapped a b
    /\ p_end_type b = made_shot /\ kept b c.
Proof.
  destruct (extract_possessions Games.two_periods) as [ps|] eqn:E;
    [|vm_compute in E; discriminate].
  pose proof (offense_differs_and_changes_hands Games.two_periods ps E)
    as [Hdist Hhand].
  vm_compute in E.
  destruct ps as [|a [|b [|c [|d [|e [|]]]]]]; try discriminate.
  exists a, b, c, d, e. split; [reflexivity|].
  assert (Ha : p_end_type a = defensive_rebound) by (inversion E; reflexivity).
  assert (Hb : p_end_type b = made_shot) by (inversion E; reflexivity).
  assert (Pab : p_period a = p_period b) by (inversion E; reflexivity).
  assert (Pbc : p_period b = p_period c) by (inversion E; reflexivity).
  split; [apply Hdist; simpl; auto|].
  split; [exact Ha|].
  split; [apply (Hhand [] a b [c; d; e] eq_refl Pab); auto|].
  split; [exact Hb|].
  apply (Hhand [a] b c [d; e] eq_refl Pbc); rewrite Hb; discriminate.
Defined.

(** Across a period boundary the offense is found afresh from the first
    team event of the new period: here the third possession ends the first
    period with team 2 on offense, and the fourth opens the second period
    with team 1 on offense. *)
Lemma period_boundary_finds_offense_afresh :
  exists a b c d e,
    extract_possessions Games.two_periods = Ok [a; b; c; d; e]
    /\ p_end_type c = period_end /\ p_period c = 1 /\ p_period d = 2
    /\ off_team c = 2 /\ off_team d = 1.
Proof.
  do 5 eexists. split; [vm_compute; reflexivity|]. repeat split.
Qed.

(** C3 (evaluation at the failing input).  When the made shot of an
    and-one is the last row but one of the stream, the look-ahead is
    skipped: the possession closes as made_shot at the shot (row 1), and
    the free throw (row 2) closes a further possession of its own. *)
Theorem and_one_at_stream_end_closes_at_made_shot :
  exists ps,
    extract_possessions Games.and_one_at_end = Ok ps
    /\ map (fun x => (p_end_type x, pbp_end_idx x)) ps
       = [(turnover, 0%nat); (made_shot, 1%nat); (free_throw, 2%nat)].
Proof.
  eexists. split; [vm_compute; reflexivity | reflexivity].
Qed.

(** The same and-one followed by one more row: the shot closes nothing
    and the possession closes at the free throw. *)
Lemma and_one_mid_stream_closes_at_free_throw :
  exists ps,
    extract_possessions Games.and_one_mid_stream = Ok ps
    /\ map (fun x => (p_end_type x, pbp_end_idx x)) ps
       = [(turnover, 0%nat); (free_throw, 2%nat); (period_end, 3%nat)].
Proof.
  eexists. split; [vm_compute; reflexivity | reflexivity].
Qed.

(** ** lineups/transformers/lineup_possessions.py *)

Module LineupPossessionFacts.
Import LineupStates LineupPossessions Vocabulary.

Lemma iloc_last_app {A : Type} (l : list A) (x : A) :
  iloc_last (l ++ [x]) = Some x.
Proof. unfold iloc_last. rewrite rev_app_distr. reflexivity. Qed.


Lemma iloc_last_some {A : Type} (l : list A) :
  l <> [] -> exists x, iloc_last l = Some x.
Proof.
  destruct l as [|a r] using rev_ind; [congruence|].
  intros _. exists a. apply iloc_last_app.
Qed.





(** What the function returns, branch by branch. *)
Lemma find_lineup_at_time_unfold lineups_df period time_seconds team_id :
  let team_lineups := filter (team_period period team_id) lineups_df in
  let sorted := sort_values clock_desc_leb team_lineups in
  let active :=
    filter (fun r => ls_game_clock_seconds r >=? time_seconds) sorted in
  find_lineup_at_time lineups_df period time_seconds team_id
  = match team_lineups with
    | [] => None
    | _ => match active with
           | [] => iloc_last sorted
           | _ => iloc_last active
           end
    end.
Proof. reflexivity. Qed.
End LineupPossessionFacts.

Import LineupStates LineupPossessions.




(** ** lineups/transformers/lineup_states.py *)

Module LineupStateFacts.
Import Data LineupStates Vocabulary.

Lemma pyset_mem_true (x : Z) (s : pyset) : pyset_mem x s = true <-> In x s.
Proof.
  unfold pyset_mem. split;
    [apply set_mem_correct1 | apply set_mem_correct2].
Qed.

Lemma pyset_mem_false (x : Z) (s : pyset) : pyset_mem x s = false <-> ~ In x s.
Proof.
  unfold pyset_mem. split;
    [apply set_mem_complete1 | apply set_mem_complete2].
Qed.

Lemma process_substitutions_app team_ids st before after :
  process_substitutions team_ids st (before ++ after)
  = (st' <- process_substitutions team_ids st before ;;
     process_substitutions team_ids st' after).
Proof.
  revert st. induction before as [|s r IH]; simpl; intros st; [reflexivity|].
  destruct (apply_substitution team_ids st s) as [st1|]; simpl; auto.
Qed.

Lemma apply_invalid_substitution team_ids st sub :
  fails_validation (fst st) sub -> apply_substitution team_ids st sub = Ok st.
Proof.
  destruct st as [current_lineups lineup_timeline]. simpl.
  intros (lineup & Hget & Hbad). rewrite Hget.
  destruct (pyset_mem (player_out sub) lineup) eqn:Eout; simpl; [|reflexivity].
  destruct (pyset_mem (player_in sub) lineup) eqn:Ein; [reflexivity|].
  apply pyset_mem_true in Eout. apply pyset_mem_false in Ein. tauto.
Qed.

(** *** The whole timeline builder *)

Lemma lineup_periods_loop_app team_ids subs st ps1 ps2 :
  lineup_periods_loop team_ids subs st (ps1 ++ ps2)
  = (st' <- lineup_periods_loop team_ids subs st ps1 ;;
     lineup_periods_loop team_ids subs st' ps2).
Proof.
  revert st. induction ps1 as [|p r IH]; intros [cur tl]; [reflexivity|].
  simpl.
  destruct (process_substitutions team_ids _ _) as [st2|]; simpl; auto.
Qed.

Lemma lineup_periods_loop_other_periods team_ids l1 s l2 st periods :
  ~ In (s_period s) periods ->
  lineup_periods_loop team_ids (l1 ++ s :: l2) st periods
  = lineup_periods_loop team_ids (l1 ++ l2) st periods.
Proof.
  revert st. induction periods as [|q r IH]; intros [cur tl] Hnotin;
    [reflexivity|].
  simpl. rewrite !filter_app. simpl.
  replace (s_period s =? q) with false
    by (symmetry; apply Z.eqb_neq; intros E; apply Hnotin; simpl; auto).
  destruct (process_substitutions team_ids _ _) as [st2|]; simpl; [|reflexivity].
  apply IH. intros Hin. apply Hnotin. simpl. auto.
Qed.

(** The builder ends as it does on the substitutions without [s] when
    [s] fails validation at the state in which the builder reaches it:
    after the periods before its own, the start rows of its period and the
    substitutions of that period listed before it. *)
Lemma timeline_ignores_invalid_substitution
      team_ids l1 s l2 st ps1 ps2 cur tl st' :
  ~ In (s_period s) ps1 ->
  ~ In (s_period s) ps2 ->
  lineup_periods_loop team_ids (l1 ++ s :: l2) st ps1 = Ok (cur, tl) ->
  process_substitutions team_ids
    (cur, tl ++ period_start_rows team_ids cur (s_period s))
    (filter (fun x => s_period x =? s_period s) l1) = Ok st' ->
  fails_validation (fst st') s ->
  lineup_periods_loop team_ids (l1 ++ s :: l2) st (ps1 ++ s_period s :: ps2)
  = lineup_periods_loop team_ids (l1 ++ l2) st (ps1 ++ s_period s :: ps2).
Proof.
  intros Hps1 Hps2 Hreach Hbefore Hbad.
  rewrite !lineup_periods_loop_app.
  rewrite <- (lineup_periods_loop_other_periods team_ids l1 s l2 st ps1 Hps1).
  rewrite Hreach. simpl.
  rewrite !filter_app. simpl. rewrite Z.eqb_refl.
  rewrite !process_substitutions_app, Hbefore. simpl.
  rewrite (apply_invalid_substitution team_ids st' s Hbad). simpl.
  destruct (process_substitutions team_ids st' _) as [st2|]; simpl;
    [|reflexivity].
  apply lineup_periods_loop_other_periods, Hps2.
Qed.

(** *** Starting lineups *)

Lemma mapM_raises {A B : Type} (f : A -> result B) (l : list A) (e : exn) :
  (forall x, In x l -> f x = Raise e \/ exists y, f x = Ok y) ->
  (exists x, In x l /\ f x = Raise e) ->
  mapM f l = Raise e.
Proof.
  induction l as [|a r IH]; simpl; intros Hall (x & Hx & Hfx); [tauto|].
  destruct (Hall a (or_introl eq_refl)) as [Ha | [y Ha]]; rewrite Ha; simpl;
    [reflexivity|].
  destruct Hx as [->|Hx]; [congruence|].
  rewrite IH; eauto.
Qed.

Lemma mapM_succeeds {A B : Type} (f : A -> result B) (l : list A) :
  (forall x, In x l -> exists y, f x = Ok y) -> exists ys, mapM f l = Ok ys.
Proof.
  induction l as [|a r IH]; simpl; intros Hall; [eauto|].
  destruct (Hall a (or_introl eq_refl)) as [y ->]. simpl.
  destruct IH as [ys ->]; [auto|]. simpl. eauto.
Qed.

Lemma unique_by_complete {A : Type} (eqb : A -> A -> bool) (l : list A) (x : A) :
  (forall a b, eqb a b = true <-> a = b) ->
  In x l -> In x (unique_by eqb l).
Proof.
  intros Heqb. induction l as [|y r IH]; simpl; [tauto|].
  intros [->|H]; [auto|].
  destruct (eqb x y) eqn:E.
  - left. symmetry. apply Heqb, E.
  - right. apply filter_In. split; [auto|]. rewrite E. reflexivity.
Qed.

Lemma filter_filter {A : Type} (f g : A -> bool) (l : list A) :
  filter f (filter g l) = filter (fun x => g x && f x) l.
Proof.
  induction l as [|x r IH]; simpl; [reflexivity|].
  destruct (g x); simpl; [destruct (f x)|]; rewrite IH; reflexivity.
Qed.

Lemma team_rows_designated (box_score_df : list box_row) (t : string) :
  team_rows t (filter has_start_pos box_score_df)
  = designated_starters box_score_df t.
Proof. unfold team_rows, designated_starters. apply filter_filter. Qed.

Lemma starting_lineup_cases (box_score_df : list box_row) (t : string) :
  In t (map b_team (filter has_start_pos box_score_df)) ->
  starting_lineup_of (filter has_start_pos box_score_df) t = Raise ValueError
  \/ exists y, starting_lineup_of (filter has_start_pos box_score_df) t = Ok y.
Proof.
  intros Hin. unfold starting_lineup_of.
  destruct (team_rows t _) as [|first rest] eqn:E.
  - exfalso. apply in_map_iff in Hin. destruct Hin as (r & Hr & Hin).
    assert (In r (team_rows t (filter has_start_pos box_score_df))).
    { apply filter_In. split; [exact Hin|]. rewrite Hr. apply String.eqb_refl. }
    rewrite E in H. destruct H.
  - destruct (negb _); eauto.
Qed.

Lemma malformed_team_raises (box_score_df : list box_row) (t : string) :
  designated_starters box_score_df t <> [] ->
  length (designated_starters box_score_df t) <> 5%nat ->
  _extract_starting_lineups box_score_df = Raise ValueError.
Proof.
  intros Hne Hlen. unfold _extract_starting_lineups.
  apply mapM_raises.
  - intros x Hx. apply starting_lineup_cases.
    eapply unique_by_In, Hx.
  - exists t. split.
    + apply unique_by_complete; [apply String.eqb_eq|].
      rewrite <- team_rows_designated in Hne.
      destruct (team_rows t _) as [|r rest] eqn:E; [congruence|].
      assert (Hr : In r (team_rows t (filter has_start_pos box_score_df)))
        by (rewrite E; simpl; auto).
      apply filter_In in Hr. destruct Hr as [Hr Ht].
      apply String.eqb_eq in Ht. apply in_map_iff. eauto.
    + unfold starting_lineup_of. rewrite team_rows_designated.
      destruct (designated_starters box_score_df t) as [|r rest]; [congruence|].
      rewrite length_map.
      replace (length (r :: rest) =? 5)%nat with false
        by (symmetry; apply Nat.eqb_neq, Hlen).
      reflexivity.
Qed.
End LineupStateFacts.

(** C9. A substitution that fails validation when the builder reaches it
    (its outgoing player is not in the team's on-court set, or its incoming
    player already is) leaves the builder state as it was: the on-court
    sets are unchanged, no row is added to the timeline and nothing is
    raised; and the loop over the period's substitutions ends as it does
    on the list without that substitution. *)
Theorem invalid_substitution_is_skipped
        (team_ids : dict (K := string) (V := Z))
        (st st' : builder_state) (before after : list substitution)
        (sub : substitution) :
  process_substitutions team_ids st before = Ok st' ->
  Vocabulary.fails_validation (fst st') sub ->
  apply_substitution team_ids st' sub = Ok st'
  /\ process_substitutions team_ids st (before ++ sub :: after)
     = process_substitutions team_ids st (before ++ after).
Proof.
  intros Hbefore Hbad.
  pose proof (LineupStateFacts.apply_invalid_substitution team_ids st' sub Hbad)
    as Hskip.
  split; [exact Hskip|].
  rewrite !LineupStateFacts.process_substitutions_app, Hbefore. simpl.
  rewrite Hskip. reflexivity.
Qed.

Lemma invalid_substitution_is_skipped_witness :
  apply_substitution [("HOU"%string, 1)] (Games.hou_on_court, [])
                     (mk_sub 1 600 "HOU" 106 999)
  = Ok (Games.hou_on_court, [])
  /\ process_substitutions [("HOU"%string, 1)] (Games.hou_on_court, [])
       ([] ++ mk_sub 1 600 "HOU" 106 999 :: [mk_sub 1 500 "HOU" 106 105])
     = process_substitutions [("HOU"%string, 1)] (Games.hou_on_court, [])
         ([] ++ [mk_sub 1 500 "HOU" 106 105]).
Proof.
  apply (invalid_substitution_is_skipped
           [("HOU"%string, 1)] (Games.hou_on_court, []) (Games.hou_on_court, []) []
           [mk_sub 1 500 "HOU" 106 105] (mk_sub 1 600 "HOU" 106 999)).
  - reflexivity.
  - exists [101; 102; 103; 104; 105]. split; [reflexivity|].
    left. simpl. intros H. repeat (destruct H as [H|H]; [discriminate|]). exact H.
Defined.

(** ** players/transformers/court_time.py *)

Module CourtTimeFacts.
Import Data CourtTime Vocabulary.

Lemma pyset_of_list_In (l : list Z) (x : Z) : In x (pyset_of_list l) <-> In x l.
Proof.
  unfold pyset_of_list.
  assert (H : forall s, In x (fold_left (fun s y => set_add Z.eq_dec y s) l s)
                        <-> In x l \/ In x s).
  { induction l as [|y r IH]; simpl; intros s; [tauto|].
    rewrite IH. pose proof (set_add_iff Z.eq_dec x y s) as Hadd.
    unfold set_In in Hadd. rewrite Hadd. intuition congruence. }
  rewrite H. simpl. tauto.
Qed.

(** The starters of a team are whoever the box score flags with gs = 1:
    no count is imposed on them. *)
Lemma starting_lineups_any_size (box_score_df : list box_row) (t : Z) :
  gs_starters box_score_df t <> [] ->
  exists s, dict_get Z.eqb (_get_starting_lineups box_score_df) t = Some s
            /\ forall x, In x s <-> In x (gs_starters box_score_df t).
Proof.
  unfold _get_starting_lineups, gs_starters. intros Hne.
  set (starters_df := filter (fun r => gs r =? 1) box_score_df).
  assert (Hrows : forall u,
             filter (fun r => b_nbaTeamId r =? u) starters_df
             = filter (fun r => (gs r =? 1) && (b_nbaTeamId r =? u)) box_score_df).
  { intros u. apply LineupStateFacts.filter_filter. }
  assert (Hin : In t (unique (map b_nbaTeamId starters_df))).
  { apply unique_In.
    destruct (filter (fun r => (gs r =? 1) && (b_nbaTeamId r =? t)) box_score_df)
      as [|r rest] eqn:E; [simpl in Hne; congruence|].
    assert (Hr : In r (filter (fun r => (gs r =? 1) && (b_nbaTeamId r =? t))
                              box_score_df)) by (rewrite E; simpl; auto).
    rewrite <- Hrows in Hr. apply filter_In in Hr. destruct Hr as [Hr Ht].
    apply Z.eqb_eq in Ht. apply in_map_iff. eauto. }
  pose proof (unique_NoDup (map b_nbaTeamId starters_df)) as Hnd.
  induction (unique (map b_nbaTeamId starters_df)) as [|u us IH];
    [destruct Hin|].
  simpl. destruct (u =? t) eqn:Eu.
  - apply Z.eqb_eq in Eu. subst u. eexists. split; [reflexivity|].
    intros x. rewrite pyset_of_list_In, Hrows. tauto.
  - apply IH.
    + destruct Hin as [->|Hin]; [rewrite Z.eqb_refl in Eu; discriminate | exact Hin].
    + inversion Hnd; assumption.
Qed.

Lemma starter_changes_nonempty (box_score_df : list box_row) (w : option Z) :
  (exists r, In r box_score_df /\ gs r = 1) ->
  starter_changes (_get_starting_lineups box_score_df) w <> [].
Proof.
  intros (r & Hr & Hgs).
  assert (Hne : gs_starters box_score_df (b_nbaTeamId r) <> []).
  { unfold gs_starters. intros Hnil.
    assert (Hin : In (nbaId r)
                     (map nbaId
                          (filter (fun r0 => (gs r0 =? 1)
                                             && (b_nbaTeamId r0 =? b_nbaTeamId r))
                                  box_score_df))).
    { apply in_map, filter_In. split; [exact Hr|].
      rewrite Hgs, !Z.eqb_refl. reflexivity. }
    rewrite Hnil in Hin. destruct Hin. }
  destruct (starting_lineups_any_size _ _ Hne) as (s & Hget & Hs).
  assert (Hx : In (nbaId r) s).
  { apply Hs. unfold gs_starters. apply in_map, filter_In.
    split; [exact Hr|]. rewrite Hgs, !Z.eqb_refl. reflexivity. }
  unfold starter_changes.
  induction (_get_starting_lineups box_score_df) as [|[u su] rest IH];
    simpl in *; [discriminate|].
  destruct (u =? b_nbaTeamId r).
  - inversion Hget; subst su. destruct s; [destruct Hx | simpl; discriminate].
  - intros Happ. apply app_eq_nil in Happ. destruct Happ as [_ Hrest].
    apply IH; assumption.
Qed.

Lemma substitution_events_complete (pbp_df : list pbp_row) (sub : sub_event) :
  substitutions_complete pbp_df ->
  In sub (_get_substitution_events pbp_df) ->
  exists oi, sub_players sub = Ok oi.
Proof.
  intros Hc Hin. unfold _get_substitution_events in Hin.
  apply sort_values_In, in_map_iff in Hin. destruct Hin as (r & <- & Hr).
  apply filter_In in Hr. destruct Hr as [Hr Hm]. apply Z.eqb_eq in Hm.
  destruct (Hc r Hr Hm) as [H1 H2]. unfold sub_players. simpl.
  destruct (playerId1 r); [|congruence].
  destruct (playerId2 r); [|congruence]. eauto.
Qed.

Lemma activities_exist (pbp_df : list pbp_row) :
  (exists r, In r pbp_df /\ is_activity r = true /\ playerId1 r <> None) ->
  exists acts, _get_player_activities pbp_df = Ok acts.
Proof.
  intros (r & Hr & Hact & Hp). unfold _get_player_activities.
  match goal with
  | |- exists _, match ?l with _ => _ end = _ =>
      assert (Hne : l <> []); [|destruct l; [congruence | eauto]]
  end.
  intros Hnil.
  destruct (playerId1 r) as [p|] eqn:Ep; [|congruence].
  assert (Hin : In (mk_activity (period r) (wallClockInt r) p (msgType r))
                   (@nil activity)); [|destruct Hin].
  rewrite <- Hnil. apply in_flat_map. exists r. split.
  - apply filter_In. auto.
  - rewrite Ep. simpl. auto.
Qed.

(** The hybrid builder succeeds on any box score that flags a starter,
    however many starters each team has. *)
Lemma track_lineup_states_succeeds (box_score_df : list box_row)
      (pbp_df : list pbp_row) :
  (exists r, In r box_score_df /\ gs r = 1) ->
  (exists r, In r pbp_df /\ is_activity r = true /\ playerId1 r <> None) ->
  substitutions_complete pbp_df ->
  exists intervals, track_lineup_states box_score_df pbp_df = Ok intervals.
Proof.
  intros Hbox Hact Hsubs. unfold track_lineup_states.
  destruct (activities_exist _ Hact) as [acts ->]. simpl.
  unfold _build_hybrid_intervals.
  destruct pbp_df as [|first rest] eqn:Epbp;
    [destruct Hact as (r & [] & _)|]. rewrite <- Epbp in *.
  destruct (LineupStateFacts.mapM_succeeds
              (substitution_changes (_get_team_mapping box_score_df))
              (_get_substitution_events pbp_df)) as [from_subs ->].
  { intros sub Hsub.
    destruct (substitution_events_complete _ _ Hsubs Hsub) as [[o i] Hoi].
    unfold substitution_changes. rewrite Hoi. simpl. eauto. }
  simpl. unfold _infer_reentries_from_activity.
  destruct (LineupStateFacts.mapM_succeeds
              (fun sub => oi <- sub_players sub ;;
                          Ok (Substitution (se_period sub) (se_wallClockInt sub)
                                           (fst oi) (snd oi)))
              (_get_substitution_events pbp_df)) as [evs ->].
  { intros sub Hsub.
    destruct (substitution_events_complete _ _ Hsubs Hsub) as [oi Hoi].
    rewrite Hoi. simpl. eauto. }
  simpl.
  match goal with
  | |- exists _, match ?l with _ => _ end = _ =>
      assert (Hne : l <> []); [|destruct l; [congruence | eauto]]
  end.
  intros Happ. apply app_eq_nil in Happ. destruct Happ as [Hst _].
  revert Hst. apply starter_changes_nonempty, Hbox.
Qed.
End CourtTimeFacts.

Import CourtTime RimDefense.

(** C4 (as amended).  In the lineups pipeline, whenever some team with at
    least one designated-starter row has a number of such rows other than
    five, extract_lineup_states raises ValueError instead of returning a
    timeline.  The hybrid court-time builder of the players pipeline has no
    such check: on any box score that flags a starter it returns intervals,
    provided the play-by-play has an activity row with a player and every
    substitution row names both players. *)
Theorem starter_count_checked_by_lineups_builder_only :
  (forall (box_score_df : list box_row) (pbp_df : list pbp_row) (t : string),
      Vocabulary.designated_starters box_score_df t <> [] ->
      length (Vocabulary.designated_starters box_score_df t) <> 5%nat ->
      extract_lineup_states box_score_df pbp_df = Raise ValueError)
  /\ (forall (box_score_df : list box_row) (pbp_df : list pbp_row),
         (exists r, In r box_score_df /\ gs r = 1) ->
         (exists r, In r pbp_df /\ is_activity r = true /\ playerId1 r <> None) ->
         Vocabulary.substitutions_complete pbp_df ->
         exists intervals, track_lineup_states box_score_df pbp_df = Ok intervals).
Proof.
  split.
  - intros box_score_df pbp_df t Hne Hlen. unfold extract_lineup_states.
    rewrite (LineupStateFacts.malformed_team_raises box_score_df t Hne Hlen).
    reflexivity.
  - exact CourtTimeFacts.track_lineup_states_succeeds.
Qed.

Lemma starter_count_checked_by_lineups_builder_only_witness :
  extract_lineup_states Games.box_three_starters Games.two_periods
  = Raise ValueError
  /\ exists intervals,
      track_lineup_states Games.box_three_starters Games.two_periods
      = Ok intervals.
Proof.
  destruct starter_count_checked_by_lineups_builder_only as [Hlineups Hplayers].
  split.
  - apply (Hlineups Games.box_three_starters Games.two_periods "HOU"%string).
    + vm_compute. discriminate.
    + vm_compute. discriminate.
  - apply (Hplayers Games.box_three_starters Games.two_periods).
    + exists (Games.starter 101 "HOU" 1). split; [simpl; auto | reflexivity].
    + exists (Games.play 1 705 1100 2 2 "HOU" (Some 1) (Some 2) (Some 101)
                         None 0 false).
      split; [simpl; auto|]. split; [reflexivity | discriminate].
    + intros r Hr Hm. simpl in Hr.
      repeat (destruct Hr as [<-|Hr]; [vm_compute in Hm; discriminate|]).
      destruct Hr.
Defined.

(** C4 (counterexample).  A team with three starters does not stop the
    hybrid court-time builder: it returns intervals for a three-player
    unit.  And a team without any designated starter does not stop the
    lineup-states builder: it returns a timeline for the other team only. *)
Lemma malformed_starting_unit_not_rejected :
  (Vocabulary.gs_starters Games.box_three_starters 1 = [101; 102; 103]
   /\ exists intervals,
       track_lineup_states Games.box_three_starters Games.two_periods
       = Ok intervals
       /\ map i_playerId (filter (fun i => i_teamId i =? 1) intervals)
          = [101; 102; 103])
  /\ (Vocabulary.designated_starters Games.box_no_dal_starter "DAL" = []
      /\ exists states,
          extract_lineup_states Games.box_no_dal_starter Games.two_periods
          = Ok states
          /\ map ls_team states = ["HOU"%string; "HOU"%string]).
Proof.
  split; (split; [reflexivity|]); eexists;
    (split; [vm_compute; reflexivity | reflexivity]).
Qed.

(** C10 (evaluation at the failing input).  One substitution row of team
    HOU with playerId1 = 105 and playerId2 = 106, both builders run on the
    same box score and play-by-play.  The lineups builder reads playerId1
    as the player coming in: 106 is not on court, the row is skipped and
    105 stays on.  The players builder reads playerId1 as the player going
    out: 105 leaves and 106 enters.  With the two fields exchanged the
    builders disagree the other way round. *)
Theorem substitution_fields_read_in_opposite_order :
  (exists states intervals,
      extract_lineup_states Games.box_score (Games.game_with_substitution 105 106)
      = Ok states
      /\ track_lineup_states Games.box_score (Games.game_with_substitution 105 106)
         = Ok intervals
      /\ option_map ls_players (find_lineup_at_time states 1 500 1)
         = Some [101; 102; 103; 104; 105]
      /\ defending_players intervals 1 2000 1 = [101; 102; 103; 104; 106])
  /\ (exists states intervals,
         extract_lineup_states Games.box_score (Games.game_with_substitution 106 105)
         = Ok states
         /\ track_lineup_states Games.box_score (Games.game_with_substitution 106 105)
            = Ok intervals
         /\ option_map ls_players (find_lineup_at_time states 1 500 1)
            = Some [101; 102; 103; 104; 106]
         /\ defending_players intervals 1 2000 1 = [101; 102; 103; 104; 105]).
Proof.
  split; do 2 eexists;
    (split; [vm_compute; reflexivity|]);
    (split; [vm_compute; reflexivity|]);
    split; vm_compute; reflexivity.
Qed.

(** ** players/transformers/rim_defense.py *)

Module DictFacts.

Lemma dict_get_set (V : Type) (d : dict (K := Z) (V := V)) (k k' : Z) (v : V) :
  dict_get Z.eqb (dict_set Z.eqb d k v) k'
  = if k =? k' then Some v else dict_get Z.eqb d k'.
Proof.
  induction d as [|[k0 v0] r IH]; simpl.
  - reflexivity.
  - destruct (k0 =? k) eqn:E0; simpl.
    + apply Z.eqb_eq in E0. subst k0. destruct (k =? k'); reflexivity.
    + destruct (k0 =? k') eqn:E1; [|exact IH].
      apply Z.eqb_eq in E1. subst k0.
      rewrite Z.eqb_sym, E0. reflexivity.
Qed.

Lemma dict_set_keys (V : Type) (d : dict (K := Z) (V := V)) (k : Z) (v : V) (x : Z) :
  In x (map fst (dict_set Z.eqb d k v)) <-> x = k \/ In x (map fst d).
Proof.
  induction d as [|[k0 v0] r IH]; simpl.
  - intuition.
  - destruct (k0 =? k) eqn:E0; simpl.
    + apply Z.eqb_eq in E0. subst k0. intuition.
    + rewrite IH. intuition.
Qed.

Lemma dict_set_NoDup (V : Type) (d : dict (K := Z) (V := V)) (k : Z) (v : V) :
  NoDup (map fst d) -> NoDup (map fst (dict_set Z.eqb d k v)).
Proof.
  induction d as [|[k0 v0] r IH]; simpl; intros Hnd.
  - constructor; [simpl; tauto | constructor].
  - inversion Hnd as [|? ? Hnotin Hr]; subst.
    destruct (k0 =? k) eqn:E0; simpl.
    + constructor; assumption.
    + constructor; [|auto].
      rewrite dict_set_keys. apply Z.eqb_neq in E0. intuition.
Qed.

Lemma dict_get_In (V : Type) (d : dict (K := Z) (V := V)) (k : Z) (v : V) :
  NoDup (map fst d) -> In (k, v) d -> dict_get Z.eqb d k = Some v.
Proof.
  induction d as [|[k0 v0] r IH]; simpl; intros Hnd Hin; [tauto|].
  inversion Hnd as [|? ? Hnotin Hr]; subst.
  destruct Hin as [Heq|Hin].
  - inversion Heq; subst. rewrite Z.eqb_refl. reflexivity.
  - destruct (k0 =? k) eqn:E0; [|auto].
    apply Z.eqb_eq in E0. subst k0. exfalso. apply Hnotin.
    apply in_map_iff. exists (k, v). auto.
Qed.

Lemma dict_get_Some_In (V : Type) (d : dict (K := Z) (V := V)) (k : Z) (v : V) :
  dict_get Z.eqb d k = Some v -> In (k, v) d.
Proof.
  induction d as [|[k0 v0] r IH]; simpl; [discriminate|].
  destruct (k0 =? k) eqn:E0; [|auto].
  apply Z.eqb_eq in E0. intros [= ->]. subst. auto.
Qed.

Lemma fold_dict_set_NoDup (A V : Type) (key : A -> Z) (val : A -> V)
      (l : list A) (d : dict (K := Z) (V := V)) :
  NoDup (map fst d) ->
  NoDup (map fst (fold_left (fun d x => dict_set Z.eqb d (key x) (val x)) l d)).
Proof.
  revert d. induction l as [|x r IH]; simpl; intros d Hnd; [exact Hnd|].
  apply IH, dict_set_NoDup, Hnd.
Qed.

End DictFacts.

Module RimDefenseFacts.
Import Data CourtTime RimDefense Vocabulary DictFacts.

Lemma count_player_get made defending D ps pid pid' :
  dict_get Z.eqb (count_player made defending D ps pid) pid'
  = if pid =? pid'
    then Some (counted made defending D (dict_get Z.eqb ps pid) pid)
    else dict_get Z.eqb ps pid'.
Proof.
  unfold count_player, counted.
  destruct (existsb (Z.eqb pid) defending); apply dict_get_set.
Qed.

Lemma count_player_NoDup made defending D ps pid :
  NoDup (map fst ps) -> NoDup (map fst (count_player made defending D ps pid)).
Proof.
  unfold count_player.
  destruct (existsb (Z.eqb pid) defending); apply dict_set_NoDup.
Qed.

Lemma existsb_eqb_In (x : Z) (l : list Z) :
  existsb (Z.eqb x) l = true <-> In x l.
Proof.
  rewrite existsb_exists. split.
  - intros (y & Hy & E). apply Z.eqb_eq in E. subst. exact Hy.
  - intros H. exists x. split; [exact H | apply Z.eqb_refl].
Qed.

Lemma fold_count_player_get made defending D (l : list Z) ps pid :
  NoDup l ->
  dict_get Z.eqb (fold_left (count_player made defending D) l ps) pid
  = if existsb (Z.eqb pid) l
    then Some (counted made defending D (dict_get Z.eqb ps pid) pid)
    else dict_get Z.eqb ps pid.
Proof.
  revert ps. induction l as [|a r IH]; simpl; intros ps Hnd; [reflexivity|].
  inversion Hnd as [|? ? Hnotin Hr]; subst.
  rewrite (IH _ Hr), count_player_get.
  destruct (pid =? a) eqn:Ea.
  - apply Z.eqb_eq in Ea. subst a. rewrite Z.eqb_refl. simpl.
    destruct (existsb (Z.eqb pid) r) eqn:Er; [|reflexivity].
    apply existsb_eqb_In in Er. contradiction.
  - rewrite Z.eqb_sym, Ea. simpl. reflexivity.
Qed.

Lemma fold_count_player_NoDup made defending D (l : list Z) ps :
  NoDup (map fst ps) ->
  NoDup (map fst (fold_left (count_player made defending D) l ps)).
Proof.
  revert ps. induction l as [|a r IH]; simpl; intros ps Hnd; [exact Hnd|].
  apply IH, count_player_NoDup, Hnd.
Qed.

Lemma filter_keys_NoDup (d : dict (K := Z) (V := Z)) (f : Z * Z -> bool) :
  NoDup (map fst d) -> NoDup (map fst (filter f d)).
Proof.
  induction d as [|[k v] r IH]; simpl; intros Hnd; [constructor|].
  inversion Hnd as [|? ? Hnotin Hr]; subst.
  destruct (f (k, v)); simpl; [|auto].
  constructor; [|auto].
  intros Hin. apply Hnotin. apply in_map_iff in Hin.
  destruct Hin as ([k' v'] & Hk & Hin). simpl in Hk. subst k'.
  apply filter_In in Hin. apply in_map_iff. exists (k, v'). tauto.
Qed.

Lemma defensive_team_players_In player_teams D pid :
  NoDup (map fst player_teams) ->
  (In pid (defensive_team_players player_teams D)
   <-> dict_get Z.eqb player_teams pid = Some D).
Proof.
  intros Hnd. unfold defensive_team_players. rewrite in_map_iff. split.
  - intros ([k v] & Hk & Hin). simpl in Hk. subst k.
    apply filter_In in Hin. destruct Hin as [Hin Hv]. simpl in Hv.
    apply Z.eqb_eq in Hv. subst v. apply dict_get_In; assumption.
  - intros Hget. exists (pid, D). split; [reflexivity|].
    apply filter_In. split; [apply dict_get_Some_In, Hget|].
    simpl. apply Z.eqb_refl.
Qed.

Lemma player_team_mapping_NoDup (lineup_intervals : list interval) :
  NoDup (map fst (_get_player_team_mapping lineup_intervals)).
Proof.
  unfold _get_player_team_mapping.
  apply (fold_dict_set_NoDup interval Z i_playerId i_teamId). constructor.
Qed.

(** What one shot does to one player's entry. *)
Lemma count_shot_get lineup_intervals player_teams ps shot pid :
  NoDup (map fst player_teams) ->
  dict_get Z.eqb (count_shot lineup_intervals player_teams ps shot) pid
  = match offTeamId shot, defTeamId shot with
    | Some _, Some D =>
        if existsb (Z.eqb pid) (defensive_team_players player_teams D)
        then Some (counted (msgType shot =? 1)
                           (defending_players lineup_intervals (period shot)
                                              (wallClockInt shot) D)
                           D (dict_get Z.eqb ps pid) pid)
        else dict_get Z.eqb ps pid
    | _, _ => dict_get Z.eqb ps pid
    end.
Proof.
  intros Hnd. unfold count_shot.
  destruct (offTeamId shot); [|reflexivity].
  destruct (defTeamId shot) as [D|]; [|reflexivity].
  apply fold_count_player_get.
  unfold defensive_team_players. apply filter_keys_NoDup, Hnd.
Qed.

Lemma count_shot_NoDup lineup_intervals player_teams ps shot :
  NoDup (map fst ps) ->
  NoDup (map fst (count_shot lineup_intervals player_teams ps shot)).
Proof.
  intros Hnd. unfold count_shot.
  destruct (offTeamId shot); [|exact Hnd].
  destruct (defTeamId shot); [|exact Hnd].
  apply fold_count_player_NoDup, Hnd.
Qed.

Lemma against_snoc t shots shot :
  against t (shots ++ [shot])
  = against t shots + (if counted_against t shot then 1 else 0).
Proof.
  unfold against. rewrite filter_app, length_app. simpl.
  destruct (counted_against t shot); simpl; lia.
Qed.

Lemma makes_against_snoc t shots shot :
  makes_against t (shots ++ [shot])
  = makes_against t shots
    + (if counted_against t shot && shot_made shot then 1 else 0).
Proof.
  unfold makes_against. rewrite filter_app, length_app. simpl.
  destruct (counted_against t shot && shot_made shot); simpl; lia.
Qed.

Lemma tallied_step lineup_intervals player_teams done ps shot :
  NoDup (map fst player_teams) ->
  tallied player_teams done ps ->
  tallied player_teams (done ++ [shot])
          (count_shot lineup_intervals player_teams ps shot).
Proof.
  intros Hpt (Hnd & Hsome & Hnone).
  split; [apply count_shot_NoDup, Hnd|].
  split.
  - intros pid s. rewrite (count_shot_get _ _ _ _ _ Hpt).
    rewrite against_snoc, makes_against_snoc.
    unfold counted_against, shot_made.
    destruct (offTeamId shot) as [o|];
      [|intros H; destruct (Hsome _ _ H) as (H1 & H2 & H3); simpl;
        repeat split; [exact H1 | lia | lia]].
    destruct (defTeamId shot) as [D|];
      [|intros H; destruct (Hsome _ _ H) as (H1 & H2 & H3); simpl;
        repeat split; [exact H1 | lia | lia]].
    destruct (existsb (Z.eqb pid) (defensive_team_players player_teams D))
             eqn:Emem.
    + apply existsb_eqb_In, defensive_team_players_In in Emem; [|exact Hpt].
      intros [= <-]. unfold counted.
      destruct (dict_get Z.eqb ps pid) as [s0|] eqn:Eget.
      * destruct (Hsome _ _ Eget) as (H1 & H2 & H3).
        assert (HD : st_teamId s0 = D) by congruence.
        destruct (existsb (Z.eqb pid) _); simpl; rewrite HD in *;
          rewrite Z.eqb_refl; simpl; unfold bump;
          destruct (msgType shot =? 1); repeat split; auto; lia.
      * destruct (Hnone _ _ Emem Eget) as [H2 H3].
        destruct (existsb (Z.eqb pid) _); simpl;
          rewrite Z.eqb_refl; simpl; unfold bump;
          destruct (msgType shot =? 1); repeat split; auto; lia.
    + intros H. destruct (Hsome _ _ H) as (H1 & H2 & H3).
      assert (Hne : (D =? st_teamId s) = false).
      { apply Z.eqb_neq. intros ->.
        assert (In pid (defensive_team_players player_teams (st_teamId s)))
          by (apply defensive_team_players_In; assumption).
        apply existsb_eqb_In in H0. congruence. }
      rewrite Hne. simpl. repeat split; [exact H1 | lia | lia].
  - intros pid t Hteam. rewrite (count_shot_get _ _ _ _ _ Hpt).
    rewrite against_snoc, makes_against_snoc.
    unfold counted_against, shot_made.
    destruct (offTeamId shot) as [o|];
      [|intros H; destruct (Hnone _ _ Hteam H); simpl; split; lia].
    destruct (defTeamId shot) as [D|];
      [|intros H; destruct (Hnone _ _ Hteam H); simpl; split; lia].
    destruct (existsb (Z.eqb pid) (defensive_team_players player_teams D))
             eqn:Emem; [discriminate|].
    intros H. destruct (Hnone _ _ Hteam H).
    assert (Hne : (D =? t) = false).
    { apply Z.eqb_neq. intros ->.
      assert (In pid (defensive_team_players player_teams t))
        by (apply defensive_team_players_In; assumption).
      apply existsb_eqb_In in H2. congruence. }
    rewrite Hne. simpl. split; lia.
Qed.

Lemma tallied_fold lineup_intervals player_teams shots done ps :
  NoDup (map fst player_teams) ->
  tallied player_teams done ps ->
  tallied player_teams (done ++ shots)
          (fold_left (count_shot lineup_intervals player_teams) shots ps).
Proof.
  intros Hpt. revert done ps.
  induction shots as [|shot rest IH]; simpl; intros done ps Hinv.
  - rewrite app_nil_r. exact Hinv.
  - replace (done ++ shot :: rest) with ((done ++ [shot]) ++ rest)
      by (rewrite <- app_assoc; reflexivity).
    apply IH, tallied_step; assumption.
Qed.

Lemma tallied_start player_teams : tallied player_teams [] [].
Proof.
  split; [constructor|]. split; [simpl; discriminate|].
  intros; split; reflexivity.
Qed.

Lemma against_rim_shots pbp_df t :
  against t (filter is_rim_shot pbp_df) = rim_shots_against pbp_df t.
Proof.
  unfold against, rim_shots_against.
  rewrite LineupStateFacts.filter_filter. reflexivity.
Qed.


Lemma track_rim_defense_rows enhanced_pbp_df lineup_intervals rows :
  track_rim_defense enhanced_pbp_df lineup_intervals = Ok rows ->
  rows = map result_row
             (fold_left
                (count_shot lineup_intervals
                            (_get_player_team_mapping lineup_intervals))
                (filter is_rim_shot enhanced_pbp_df) []).
Proof.
  unfold track_rim_defense, _calculate_rim_defense_stats.
  destruct (fold_left _ _ _); [discriminate|]. intros [= <-]. reflexivity.
Qed.
End RimDefenseFacts.



(** No cell of the differential column is ever blank, while a percentage
    cell is blank exactly when its bucket has no attempt. *)
Lemma rim_percentages_of_row (e : Z * stats) :
  (rim_fg_pct_on (result_row e) = None <-> rim_fga_on (result_row e) <= 0)
  /\ (rim_fg_pct_off (result_row e) = None <-> rim_fga_off (result_row e) <= 0)
  /\ rim_fg_pct_diff (result_row e)
     = Some (ratio (rim_fgm_on (result_row e)) (rim_fga_on (result_row e))
             - ratio (rim_fgm_off (result_row e)) (rim_fga_off (result_row e)))%Q.
Proof.
  destruct e as [pid s]. simpl. unfold where_positive.
  repeat split; try (destruct (Z.ltb_spec 0 (on_attempts s)));
    try (destruct (Z.ltb_spec 0 (off_attempts s)));
    intros; try discriminate; try reflexivity; lia.
Qed.

(** C1 (evaluation at the failing input).  Player 101 is on court for both
    rim shots against his team: zero off-court attempts.  His off-court
    percentage is blank, but his differential is not: it is his on-court
    percentage, 1/2, minus zero. *)
Theorem zero_off_court_attempts_keep_a_differential :
  exists rows r,
    track_rim_defense (Games.game_with_substitution 105 106) Games.court_intervals
    = Ok rows
    /\ In r rows
    /\ rr_playerId r = 101
    /\ rim_fga_on r = 2 /\ rim_fga_off r = 0
    /\ rim_fg_pct_off r = None
    /\ exists d, rim_fg_pct_diff r = Some d /\ (d == 1 # 2)%Q.
Proof.
  eexists. eexists. split; [vm_compute; reflexivity|].
  split; [right; left; reflexivity|].
  repeat split. eexists. split; reflexivity.
Qed.

(** ** lineups/transformers/lineup_ratings.py *)

Module LineupRatingFacts.
Import LineupPossessions LineupRatings Vocabulary.

Lemma string_compare_refl (s : string) : String.compare s s = Eq.
Proof.
  pose proof (String.compare_antisym s s) as H.
  destruct (String.compare s s); simpl in H; congruence.
Qed.

Lemma tuple_compare_eq (a b : list Z) : tuple_compare a b = Eq <-> a = b.
Proof.
  revert b. induction a as [|x a IH]; destruct b as [|y b]; simpl;
    try (split; [discriminate | congruence]); [tauto|].
  destruct (x ?= y) eqn:E.
  - apply Z.compare_eq_iff in E. subst y. rewrite IH.
    split; intros H; [subst; reflexivity | inversion H; reflexivity].
  - split; [discriminate|]. intros [= -> _]. rewrite Z.compare_refl in E.
    discriminate.
  - split; [discriminate|]. intros [= -> _]. rewrite Z.compare_refl in E.
    discriminate.
Qed.

Lemma key_eqb_eq (a b : unit_key) : key_eqb a b = true <-> a = b.
Proof.
  unfold key_eqb, key_compare. destruct a as [ta pa], b as [tb pb]. simpl.
  destruct (String.compare ta tb) eqn:E.
  - apply String.compare_eq_iff in E. subst tb.
    destruct (tuple_compare pa pb) eqn:Et.
    + apply tuple_compare_eq in Et. subst. tauto.
    + split; [discriminate|]. intros [= ->].
      rewrite (proj2 (tuple_compare_eq pb pb) eq_refl) in Et. discriminate.
    + split; [discriminate|]. intros [= ->].
      rewrite (proj2 (tuple_compare_eq pb pb) eq_refl) in Et. discriminate.
  - split; [discriminate|]. intros [= -> _].
    rewrite string_compare_refl in E. discriminate.
  - split; [discriminate|]. intros [= -> _].
    rewrite string_compare_refl in E. discriminate.
Qed.

Lemma key_eqb_refl (a : unit_key) : key_eqb a a = true.
Proof. apply key_eqb_eq. reflexivity. Qed.

Lemma key_eqb_neq (a b : unit_key) : key_eqb a b = false <-> a <> b.
Proof.
  rewrite <- key_eqb_eq. destruct (key_eqb a b); split; congruence.
Qed.

Lemma unique_keys_NoDup (l : list unit_key) : NoDup (unique_by key_eqb l).
Proof.
  induction l as [|y r IH]; simpl; constructor.
  - intros H. apply filter_In in H. destruct H as [_ H].
    rewrite key_eqb_refl in H. discriminate.
  - apply NoDup_filter, IH.
Qed.

Lemma unique_keys_In (l : list unit_key) (k : unit_key) :
  In k (unique_by key_eqb l) <-> In k l.
Proof.
  split; [apply unique_by_In|].
  apply LineupStateFacts.unique_by_complete, key_eqb_eq.
Qed.

Lemma group_keys_NoDup (l : list unit_key) : NoDup (group_keys l).
Proof.
  eapply Permutation_NoDup;
    [apply Permutation_sym, sort_values_perm | apply unique_keys_NoDup].
Qed.

Lemma group_keys_In (l : list unit_key) (k : unit_key) :
  In k (group_keys l) <-> In k l.
Proof. unfold group_keys. rewrite sort_values_In. apply unique_keys_In. Qed.

Lemma grouped_keys key_of df :
  map ss_key (grouped key_of df) = group_keys (map key_of df).
Proof. unfold grouped. rewrite map_map. simpl. apply map_id. Qed.

Lemma filter_key_absent (l : list unit_key) (k : unit_key) :
  ~ In k l -> filter (fun x => key_eqb x k) l = [].
Proof.
  induction l as [|y r IH]; simpl; intros Hnotin; [reflexivity|].
  destruct (key_eqb y k) eqn:E.
  - apply key_eqb_eq in E. subst. tauto.
  - apply IH. tauto.
Qed.

Lemma filter_key_present (l : list unit_key) (k : unit_key) :
  NoDup l -> In k l -> filter (fun x => key_eqb x k) l = [k].
Proof.
  induction l as [|y r IH]; simpl; intros Hnd Hin; [tauto|].
  inversion Hnd as [|? ? Hnotin Hr]; subst.
  destruct (key_eqb y k) eqn:E.
  - apply key_eqb_eq in E. subst y. f_equal.
    apply filter_key_absent, Hnotin.
  - apply key_eqb_neq in E. destruct Hin as [->|Hin]; [congruence|].
    apply IH; assumption.
Qed.

Lemma filter_map_swap {A B : Type} (p : B -> bool) (f : A -> B) (l : list A) :
  filter p (map f l) = map f (filter (fun x => p (f x)) l).
Proof.
  induction l as [|x r IH]; simpl; [reflexivity|].
  destruct (p (f x)); simpl; rewrite IH; reflexivity.
Qed.

Lemma rows_of_key_grouped key_of df k :
  rows_of_key k (grouped key_of df)
  = if existsb (fun p => key_eqb (key_of p) k) df
    then [stats_of key_of df k] else [].
Proof.
  unfold rows_of_key, grouped.
  rewrite filter_map_swap. simpl.
  fold (group_keys (map key_of df)).
  destruct (existsb (fun p => key_eqb (key_of p) k) df) eqn:E.
  - rewrite filter_key_present; [reflexivity | apply group_keys_NoDup |].
    apply group_keys_In. apply existsb_exists in E.
    destruct E as (p & Hp & Hk). apply key_eqb_eq in Hk. subst k.
    apply in_map, Hp.
  - rewrite filter_key_absent; [reflexivity|].
    intros Hin. apply group_keys_In, in_map_iff in Hin.
    destruct Hin as (p & Hk & Hp).
    assert (existsb (fun p => key_eqb (key_of p) k) df = true).
    { apply existsb_exists. exists p. split; [exact Hp|].
      apply key_eqb_eq, Hk. }
    congruence.
Qed.

Lemma unobserved_key_zero key_of df k :
  existsb (fun p => key_eqb (key_of p) k) df = false ->
  count_key key_of df k = 0 /\ sum_points key_of df k = 0.
Proof.
  intros E. unfold count_key, sum_points.
  assert (Hnil : filter (fun r => key_eqb (key_of r) k) df = []).
  { induction df as [|p r IH]; simpl in *; [reflexivity|].
    apply orb_false_iff in E. destruct E as [E1 E2].
    rewrite E1. apply IH, E2. }
  rewrite Hnil. split; reflexivity.
Qed.

Lemma all_keys_In df k :
  In k (all_keys df)
  <-> exists p, In p df /\ (off_key p = k \/ def_key p = k).
Proof.
  unfold all_keys, calculate_offensive_stats, calculate_defensive_stats.
  rewrite group_keys_In, in_app_iff, !grouped_keys, !group_keys_In,
    !in_map_iff.
  split.
  - intros [(p & Hk & Hp) | (p & Hk & Hp)]; exists p; auto.
  - intros (p & Hp & [Hk|Hk]); [left | right]; exists p; auto.
Qed.

Lemma flat_map_singleton {A B : Type} (f : A -> list B) (g : A -> B)
      (l : list A) :
  (forall x, In x l -> f x = [g x]) -> flat_map f l = map g l.
Proof.
  induction l as [|x r IH]; simpl; intros H; [reflexivity|].
  rewrite (H x (or_introl eq_refl)). simpl. f_equal. apply IH. auto.
Qed.

Lemma combine_is_merge (df : list lineup_possession) :
  combine_offensive_defensive_stats (calculate_offensive_stats df)
                                    (calculate_defensive_stats df)
  = map (merged df) (all_keys df).
Proof.
  unfold combine_offensive_defensive_stats. fold (all_keys df).
  apply flat_map_singleton. intros k Hk.
  unfold calculate_offensive_stats, calculate_defensive_stats.
  rewrite !rows_of_key_grouped.
  apply all_keys_In in Hk.
  destruct (existsb (fun p => key_eqb (off_key p) k) df) eqn:Eo;
    destruct (existsb (fun p => key_eqb (def_key p) k) df) eqn:Ed; simpl.
  - reflexivity.
  - destruct (unobserved_key_zero _ _ _ Ed) as [H1 H2].
    unfold merged. rewrite H1, H2. reflexivity.
  - destruct (unobserved_key_zero _ _ _ Eo) as [H1 H2].
    unfold merged. rewrite H1, H2. reflexivity.
  - exfalso. destruct Hk as (p & Hp & [Hk|Hk]).
    + assert (existsb (fun p => key_eqb (off_key p) k) df = true).
      { apply existsb_exists. exists p. split; [exact Hp|].
        apply key_eqb_eq, Hk. }
      congruence.
    + assert (existsb (fun p => key_eqb (def_key p) k) df = true).
      { apply existsb_exists. exists p. split; [exact Hp|].
        apply key_eqb_eq, Hk. }
      congruence.
Qed.

Lemma ratings_perm (df : list lineup_possession) :
  Permutation (calculate_lineup_ratings df)
              (map (fun k => rating_of (merged df k)) (all_keys df)).
Proof.
  unfold calculate_lineup_ratings.
  destruct df as [|p r] eqn:E; [apply perm_nil|]. rewrite <- E.
  unfold clean_final_output, calculate_final_ratings.
  rewrite combine_is_merge, map_map. apply sort_values_perm.
Qed.

Lemma ratings_keys (df : list lineup_possession) :
  Permutation (map row_key (calculate_lineup_ratings df)) (all_keys df).
Proof.
  eapply perm_trans; [apply Permutation_map, ratings_perm|].
  rewrite map_map.
  rewrite (map_ext _ (fun k => k)); [rewrite map_id; apply Permutation_refl|].
  intros [t ps]. reflexivity.
Qed.

Lemma ratings_row (df : list lineup_possession) (r : rating_row) :
  In r (calculate_lineup_ratings df) ->
  r = rating_of (merged df (row_key r)).
Proof.
  intros Hr. apply (Permutation_in _ (ratings_perm df)) in Hr.
  apply in_map_iff in Hr. destruct Hr as (k & <- & _).
  destruct k as [t ps]. reflexivity.
Qed.

(** *** Rounding *)



Lemma round1_zero : (round1 0 == 0)%Q.
Proof. reflexivity. Qed.

End LineupRatingFacts.

Import LineupRatings.


(** ** The lineups pipeline end to end *)

(** Substitution row (106 for 105, as the lineups builder reads it), then
    one possession: the four steps compose, the possession is matched to
    the two starting units (its start precedes the substitution), and each
    unit gets one rating row. *)
Lemma lineups_pipeline_on_a_game :
  exists states possessions,
    extract_lineup_states Games.box_score (Games.game_with_substitution 106 105)
    = Ok states
    /\ extract_possessions (Games.game_with_substitution 106 105)
       = Ok possessions
    /\ map (fun r => (r_team r, r_players r, r_off_poss r, r_def_poss r))
           (calculate_lineup_ratings
              (match_lineups_to_possessions states possessions))
       = [("DAL"%string, [201; 202; 203; 204; 205], 0, 1);
          ("HOU"%string, [101; 102; 103; 104; 105], 1, 0)].
Proof.
  do 2 eexists. split; [vm_compute; reflexivity|].
  split; [vm_compute; reflexivity|]. vm_compute. reflexivity.
Qed.

(* ================================================================== *)
(** * Further properties of the transformers                            *)
(* ================================================================== *)

(** ** Possessions: which rows close, and where possessions begin and end *)

Module PossessionClosings.
Import Data Possessions Vocabulary Terms PossessionFacts.

Lemma scan_for_miss_true (play : prow) (prev : list prow) :
  scan_for_miss play prev = true.
Proof.
  induction prev as [|q rest IH]; simpl; [reflexivity|].
  destruct (msgType (src q) =? 2); [|exact IH].
  destruct (_ && _); reflexivity.
Qed.

Lemma endings_at_always (pbp : list prow) (idx : nat) (play : prow) (et : end_type) :
  always_closes (msgType (src play)) = Some et ->
  endings_at pbp idx play = [_create_possession_ending play et idx].
Proof.
  unfold always_closes, endings_at, possession_end_events,
    _is_defensive_rebound.
  rewrite scan_for_miss_true.
  destruct (msgType (src play) =? 4) eqn:E4.
  - apply Z.eqb_eq in E4. rewrite E4. simpl. intros [= <-]. reflexivity.
  - destruct (msgType (src play) =? 5) eqn:E5.
    + apply Z.eqb_eq in E5. rewrite E5. simpl. intros [= <-]. reflexivity.
    + destruct (msgType (src play) =? 12) eqn:E12.
      * apply Z.eqb_eq in E12. rewrite E12. simpl. intros [= <-]. reflexivity.
      * destruct (msgType (src play) =? 13) eqn:E13; simpl; [|discriminate].
        apply Z.eqb_eq in E13. rewrite E13. simpl. intros [= <-]. reflexivity.
Qed.



Lemma enumerate_from_nth {A : Type} (l : list A) (i j : nat) (x : A) :
  In (j, x) (enumerate_from i l) <-> (i <= j)%nat /\ nth_error l (j - i) = Some x.
Proof.
  revert i. induction l as [|y r IH]; simpl; intros i.
  - split; [tauto|]. intros [_ H]. destruct (j - i)%nat; discriminate.
  - rewrite IH. split.
    + intros [H|[Hle Hn]].
      * inversion H; subst. rewrite Nat.sub_diag. simpl. auto.
      * split; [lia|]. replace (j - i)%nat with (S (j - S i)) by lia.
        exact Hn.
    + intros [Hle Hn]. destruct (Nat.eq_dec i j) as [->|Hne].
      * rewrite Nat.sub_diag in Hn. simpl in Hn. inversion Hn. auto.
      * right. split; [lia|].
        replace (j - i)%nat with (S (j - S i)) in Hn by lia. exact Hn.
Qed.



(** *** Possessions against endings *)

Lemma period_loop_closings p es pid st o d :
  Forall (fun e => e_period e = p) es ->
  map possession_closing (period_loop p es pid st o d) = map ending_closing es.
Proof.
  revert pid st o d. induction es as [|e r IH]; simpl; intros pid st o d Hall;
    [reflexivity|].
  inversion Hall as [|? ? Hp Hr]; subst.
  destruct (changes_teams _); simpl; rewrite IH by assumption;
    unfold possession_closing, ending_closing; simpl; reflexivity.
Qed.

Lemma filter_split_perm (l : list ending) (p : Z) (P : list Z) :
  ~ In p P ->
  Permutation
    (filter (fun e => e_period e =? p) l
     ++ filter (fun e => existsb (Z.eqb (e_period e)) P) l)
    (filter (fun e => existsb (Z.eqb (e_period e)) (p :: P)) l).
Proof.
  intros Hnotin. induction l as [|e r IH]; simpl; [constructor|].
  destruct (e_period e =? p) eqn:Ep.
  - apply Z.eqb_eq in Ep.
    assert (Hno : existsb (Z.eqb (e_period e)) P = false).
    { destruct (existsb _ P) eqn:E; [|reflexivity].
      apply RimDefenseFacts.existsb_eqb_In in E. congruence. }
    rewrite Hno. simpl. apply perm_skip, IH.
  - simpl. destruct (existsb (Z.eqb (e_period e)) P).
    + eapply perm_trans; [apply Permutation_sym, Permutation_middle|].
      apply perm_skip, IH.
    + exact IH.
Qed.

Lemma periods_loop_closings pbp endings P pid out :
  NoDup P ->
  periods_loop pbp endings P pid = Ok out ->
  Permutation (map possession_closing out)
              (map ending_closing
                   (filter (fun e => existsb (Z.eqb (e_period e)) P) endings)).
Proof.
  revert pid out. induction P as [|p rest IH]; simpl; intros pid out Hnd H.
  - inversion H. simpl.
    replace (filter (fun _ : ending => false) endings) with (@nil ending);
      [constructor|].
    induction endings; simpl; auto.
  - destruct (period_possessions pbp endings p pid) as [chunk|] eqn:Ec;
      simpl in H; [|discriminate].
    destruct (periods_loop pbp endings rest _) as [more|] eqn:Em;
      simpl in H; [|discriminate].
    inversion H; subst out. inversion Hnd as [|? ? Hnotin Hrest]; subst.
    apply period_possessions_inv in Ec. destruct Ec as (o & d & _ & ->).
    rewrite map_app, period_loop_closings.
    + eapply perm_trans;
        [|apply Permutation_map, (filter_split_perm endings p rest Hnotin)].
      rewrite map_app. apply Permutation_app; [|eapply IH; eauto].
      apply Permutation_map, sort_values_perm.
    + apply Forall_forall. intros e He.
      apply sort_values_In, filter_In in He. apply Z.eqb_eq, He.
Qed.

Lemma filter_all {A : Type} (f : A -> bool) (l : list A) :
  (forall x, In x l -> f x = true) -> filter f l = l.
Proof.
  induction l as [|x r IH]; simpl; intros H; [reflexivity|].
  rewrite (H x (or_introl eq_refl)). f_equal. apply IH. auto.
Qed.

Lemma timeline_closings (clean : list prow) (endings : list ending)
      (raw : list possession) :
  _build_possession_timeline clean endings = Ok raw ->
  Permutation (map possession_closing raw) (map ending_closing endings).
Proof.
  intros H. unfold _build_possession_timeline in H.
  destruct endings as [|e0 r0] eqn:E; [inversion H; constructor|].
  rewrite <- E in *.
  eapply perm_trans.
  - eapply periods_loop_closings; [|exact H].
    eapply Permutation_NoDup;
      [apply Permutation_sym, sort_values_perm | apply unique_NoDup].
  - rewrite filter_all; [apply Permutation_refl|].
    intros e He. apply RimDefenseFacts.existsb_eqb_In, sorted_unique_In.
    apply in_map, He.
Qed.

Lemma metrics_closings raw clean :
  map possession_closing (_calculate_possession_metrics raw clean)
  = map possession_closing raw.
Proof.
  unfold _calculate_possession_metrics. rewrite map_map. reflexivity.
Qed.

Lemma extract_closings (pbp_df : list pbp_row) (clean : list prow)
      (ps : list possession) :
  _prepare_pbp_data pbp_df = Ok clean ->
  extract_possessions pbp_df = Ok ps ->
  Permutation (map possession_closing ps)
              (map ending_closing (_identify_possession_endings clean)).
Proof.
  intros Hprep H.
  destruct (PossessionPipeline.extract_possessions_inv _ _ H)
    as (clean' & raw & Hprep' & Hbuild & ->).
  assert (clean' = clean) by congruence. subst clean'.
  rewrite metrics_closings. apply (timeline_closings clean), Hbuild.
Qed.

End PossessionClosings.

Module PossessionSpans.
Import Data Possessions Vocabulary Terms PossessionFacts.



Section Spans.
Variable pbp : list prow.
Variable endings : list ending.
Variable M : Z -> Z.
Hypothesis rows_elapsed :
  forall r, In r pbp -> time_elapsed r = M (period (src r)) - gameClock (src r).
Hypothesis endings_rows :
  forall e, In e endings ->
            exists r, In r pbp
                      /\ e_period e = period (src r)
                      /\ e_end_time_seconds e = gameClock (src r)
                      /\ e_time_elapsed e = time_elapsed r.


End Spans.


End PossessionSpans.

Import Terms.

(** X1. A rebound row always closes a possession as defensive_rebound,
    whatever the team of the rebounder and of the shooter who missed (the
    backward scan for the miss ends in True on every path), a turnover row
    always closes one as turnover, and a period or game end row as
    period_end: each such row of the prepared frame is the closing row of
    a possession of the output. *)
Theorem rebound_turnover_and_period_end_rows_always_close
        (pbp_df : list pbp_row) (clean : list prow) (ps : list possession)
        (i : nat) (play : prow) (et : end_type) :
  _prepare_pbp_data pbp_df = Ok clean ->
  extract_possessions pbp_df = Ok ps ->
  nth_error clean i = Some play ->
  always_closes (msgType (src play)) = Some et ->
  exists poss,
    In poss ps /\ pbp_end_idx poss = i /\ p_end_type poss = et
    /\ p_period poss = period (src play)
    /\ end_time_seconds poss = gameClock (src play).
Proof.
  intros Hprep Hex Hnth Hkind.
  pose proof (PossessionClosings.extract_closings _ _ _ Hprep Hex) as Hperm.
  assert (Hin : In (ending_closing (_create_possession_ending play et i))
                   (map ending_closing (_identify_possession_endings clean))).
  { apply in_map. unfold _identify_possession_endings.
    apply in_flat_map. exists (i, play). split.
    - apply PossessionClosings.enumerate_from_nth. split; [lia|].
      rewrite Nat.sub_0_r. exact Hnth.
    - simpl. rewrite (PossessionClosings.endings_at_always _ _ _ _ Hkind).
      simpl. auto. }
  apply (Permutation_in _ (Permutation_sym Hperm)) in Hin.
  apply in_map_iff in Hin. destruct Hin as (poss & Heq & Hposs).
  exists poss. split; [exact Hposs|].
  unfold possession_closing, ending_closing in Heq. simpl in Heq.
  inversion Heq. unfold game_clock_seconds. auto.
Qed.

Lemma rebound_turnover_and_period_end_rows_always_close_witness :
  exists clean ps play poss,
    _prepare_pbp_data Games.two_periods = Ok clean
    /\ extract_possessions Games.two_periods = Ok ps
    /\ nth_error clean 2 = Some play
    /\ msgType (src play) = 4
    /\ In poss ps /\ pbp_end_idx poss = 2%nat
    /\ p_end_type poss = defensive_rebound.
Proof.
  destruct (_prepare_pbp_data Games.two_periods) as [clean|] eqn:Ec;
    [|vm_compute in Ec; discriminate].
  destruct (extract_possessions Games.two_periods) as [ps|] eqn:Ep;
    [|vm_compute in Ep; discriminate].
  destruct (nth_error clean 2) as [play|] eqn:En;
    [|vm_compute in Ec; injection Ec as <-; discriminate].
  assert (Hm : msgType (src play) = 4).
  { vm_compute in Ec. injection Ec as <-. vm_compute in En.
    injection En as <-. reflexivity. }
  destruct (rebound_turnover_and_period_end_rows_always_close
              Games.two_periods clean ps 2 play defensive_rebound Ec Ep En)
    as (poss & H1 & H2 & H3 & _).
  { unfold always_closes. rewrite Hm. reflexivity. }
  exists clean, ps, play, poss. repeat split; assumption.
Defined.





Module PossessionErrors.
Import Data Possessions Vocabulary Terms PossessionFacts.

Lemma Forall2_In_l {A B : Type} (R : A -> B -> Prop) (l : list A) (out : list B)
      (x : A) :
  Forall2 R l out -> In x l -> exists y, In y out /\ R x y.
Proof.
  induction 1 as [|x0 y0 l0 out0 HR _ IH]; simpl; [tauto|].
  intros [<-|Hin]; [eauto|].
  destruct (IH Hin) as [y [Hy Hxy]]. eauto.
Qed.

(** The prepared frame has the rows of the input, each with its cleaned
    offensive team. *)
Lemma prepared_rows_src (pbp : list pbp_row) (clean : list prow) :
  _prepare_pbp_data pbp = Ok clean ->
  (forall c, In c clean ->
             In (src c) pbp /\ offTeamId_clean c = cleaned_off (src c))
  /\ (forall r, In r pbp -> exists c, In c clean /\ src c = r).
Proof.
  unfold _prepare_pbp_data, _clean_team_ids.
  destruct pbp as [|r0 pbp0]; [discriminate|].
  set (pbp := r0 :: pbp0). intros H.
  apply mapM_Ok_Forall2 in H. split.
  - intros c Hc.
    destruct (Forall2_In_r _ _ _ _ H Hc) as [[r1 t] [Hin Hf]].
    destruct (other_team_of _ _); simpl in Hf; [|discriminate].
    inversion Hf; subst c; simpl.
    apply sort_values_In, in_map_iff in Hin.
    destruct Hin as [r2 [Heq Hr2]]. inversion Heq; subst. auto.
  - intros r Hr.
    assert (Hin : In (r, max_period_time pbp (period r) - gameClock r)
                     (sort_values chrono_leb
                        (map (fun r => (r, max_period_time pbp (period r)
                                           - gameClock r)) pbp))).
    { apply sort_values_In, in_map_iff. eauto. }
    destruct (Forall2_In_l _ _ _ _ H Hin) as (c & Hc & Hf).
    destruct (other_team_of _ _); simpl in Hf; [|discriminate].
    inversion Hf; subst c. eauto.
Qed.

Lemma In_nth_error_enumerate {A : Type} (l : list A) (x : A) :
  In x l -> exists i, In (i, x) (enumerate_from 0 l).
Proof.
  intros Hin. apply In_nth_error in Hin. destruct Hin as [i Hi].
  exists i. apply PossessionClosings.enumerate_from_nth.
  split; [lia|]. rewrite Nat.sub_0_r. exact Hi.
Qed.

Lemma cells_none (l : list (option Z)) :
  (forall x, In x l -> x = None) -> cells l = [].
Proof.
  induction l as [|x r IH]; simpl; intros H; [reflexivity|].
  rewrite (H x (or_introl eq_refl)). simpl. apply IH. auto.
Qed.

Lemma period_possessions_outcome pbp endings p pid :
  period_possessions pbp endings p pid = Raise IndexError
  \/ exists chunk, period_possessions pbp endings p pid = Ok chunk.
Proof.
  unfold period_possessions.
  destruct (cells _) as [|o _]; [auto|].
  destruct (nth_error _ 0) as [v0|]; [|auto].
  destruct (o =? v0); [|simpl; eauto].
  match goal with
  | |- context [nth_error ?l 1] => destruct (nth_error l 1)
  end; simpl; eauto.
Qed.

Lemma periods_loop_raises pbp endings periods pid p :
  In p periods ->
  cells (map offTeamId_clean (filter (fun r => period (src r) =? p) pbp)) = [] ->
  periods_loop pbp endings periods pid = Raise IndexError.
Proof.
  intros Hin Hbad. revert pid.
  induction periods as [|q rest IH]; simpl; intros pid; [destruct Hin|].
  destruct (Z.eq_dec q p) as [->|Hne].
  - unfold period_possessions at 1. rewrite Hbad. reflexivity.
  - destruct (period_possessions_outcome pbp endings q pid) as [->|[chunk ->]];
      simpl; [reflexivity|].
    rewrite IH; [reflexivity|]. destruct Hin; [congruence | assumption].
Qed.

End PossessionErrors.

(** X4. When some period of the play-by-play has a row that always closes
    a possession (a rebound, a turnover or a period/game end) but no row
    with a positive offTeamId, extract_possessions raises IndexError: the
    first team event of that period is read from an empty selection. *)
Theorem period_without_team_event_raises
        (pbp_df : list pbp_row) (clean : list prow) (p : Z) :
  _prepare_pbp_data pbp_df = Ok clean ->
  (exists r, In r pbp_df /\ period r = p /\ always_closes (msgType r) <> None) ->
  (forall r, In r pbp_df -> period r = p -> positive_cell (offTeamId r) = false) ->
  extract_possessions pbp_df = Raise IndexError.
Proof.
  intros Hprep (r & Hr & Hp & Hkind) Hnone.
  destruct (PossessionErrors.prepared_rows_src _ _ Hprep) as [Hsrc Hall].
  destruct (Hall r Hr) as (c & Hc & Hcr).
  destruct (PossessionErrors.In_nth_error_enumerate _ _ Hc) as [i Hi].
  destruct (always_closes (msgType r)) as [et|] eqn:Eet; [|congruence].
  assert (He : In (_create_possession_ending c et i)
                  (_identify_possession_endings clean)).
  { unfold _identify_possession_endings. apply in_flat_map.
    exists (i, c). split; [exact Hi|]. simpl.
    rewrite (PossessionClosings.endings_at_always clean i c et);
      [simpl; auto | rewrite Hcr; exact Eet]. }
  unfold extract_possessions. rewrite Hprep. simpl.
  unfold _build_possession_timeline.
  destruct (_identify_possession_endings clean) as [|e0 es] eqn:Eend;
    [destruct He|]. rewrite <- Eend in *.
  rewrite (PossessionErrors.periods_loop_raises clean _ _ 1 p); [reflexivity| |].
  - apply sorted_unique_In, in_map_iff.
    exists (_create_possession_ending c et i). split; [|exact He].
    simpl. rewrite Hcr. exact Hp.
  - apply PossessionErrors.cells_none. intros x Hx.
    apply in_map_iff in Hx. destruct Hx as (c' & <- & Hc').
    apply filter_In in Hc'. destruct Hc' as [Hc' Hper].
    apply Z.eqb_eq in Hper. destruct (Hsrc c' Hc') as [Hin Hoff].
    rewrite Hoff. unfold cleaned_off.
    rewrite (Hnone _ Hin Hper). reflexivity.
Qed.

Lemma period_without_team_event_raises_witness :
  extract_possessions MoreGames.bare_second_period = Raise IndexError.
Proof.
  destruct (_prepare_pbp_data MoreGames.bare_second_period) as [clean|] eqn:Ec;
    [|vm_compute in Ec; discriminate].
  apply (period_without_team_event_raises
           MoreGames.bare_second_period clean 2 Ec).
  - exists (Games.play 2 0 3000 4 13 "" (Some 0) (Some 0) None None 0 false).
    split; [simpl; auto 10|]. split; [reflexivity | discriminate].
  - intros r Hr Hp. simpl in Hr.
    repeat (destruct Hr as [<-|Hr]; [try reflexivity; vm_compute in Hp;
                                     discriminate|]).
    destruct Hr.
Defined.

(** ** Matching lineups to possessions *)

Module MatchFacts.
Import Data LineupStates LineupPossessions Vocabulary Terms.

Lemma filter_nil_iff {A : Type} (f : A -> bool) (l : list A) :
  filter f l = [] <-> existsb f l = false.
Proof.
  induction l as [|x r IH]; simpl; [tauto|].
  destruct (f x); simpl; [split; discriminate | exact IH].
Qed.

Lemma find_lineup_none_iff lineups_df p time_seconds t :
  find_lineup_at_time lineups_df p time_seconds t = None
  <-> has_lineup lineups_df p t = false.
Proof.
  unfold has_lineup. rewrite <- filter_nil_iff.
  rewrite LineupPossessionFacts.find_lineup_at_time_unfold. cbv zeta.
  fold (team_period p t).
  destruct (filter (team_period p t) lineups_df) as [|r0 rest] eqn:E;
    [tauto|].
  split; [|discriminate]. intros H. exfalso.
  set (sorted := sort_values clock_desc_leb (r0 :: rest)) in *.
  assert (Hne : sorted <> []).
  { intros Hnil. assert (Hin : In r0 sorted)
      by (apply sort_values_In; simpl; auto).
    rewrite Hnil in Hin. destruct Hin. }
  destruct (filter _ sorted) as [|a0 al] eqn:Eact.
  - destruct (LineupPossessionFacts.iloc_last_some sorted Hne) as [l Hl].
    congruence.
  - destruct (LineupPossessionFacts.iloc_last_some (a0 :: al)) as [l Hl];
      [discriminate | congruence].
Qed.


Lemma matched_rows_ids lineup_states_df ps :
  map lp_possession_id (flat_map (matched_rows lineup_states_df) ps)
  = map Possessions.possession_id (filter (both_sides_known lineup_states_df) ps).
Proof.
  induction ps as [|poss r IH]; simpl; [reflexivity|].
  rewrite map_app, IH. unfold matched_rows at 1, both_sides_known at 2.
  destruct (find_lineup_at_time _ _ _ (Possessions.off_team poss)) as [ol|] eqn:Eo.
  - replace (has_lineup lineup_states_df (Possessions.p_period poss)
                        (Possessions.off_team poss)) with true.
    + destruct (find_lineup_at_time _ _ _ (Possessions.def_team poss))
        as [dl|] eqn:Ed.
      * replace (has_lineup lineup_states_df (Possessions.p_period poss)
                            (Possessions.def_team poss)) with true;
          [reflexivity|].
        symmetry. destruct (has_lineup _ _ (Possessions.def_team poss)) eqn:Eh;
          [reflexivity|].
        apply find_lineup_none_iff
          with (time_seconds := Possessions.start_time_seconds poss) in Eh.
        congruence.
      * apply find_lineup_none_iff in Ed. rewrite Ed. reflexivity.
    + symmetry. destruct (has_lineup _ _ (Possessions.off_team poss)) eqn:Eh;
        [reflexivity|].
      apply find_lineup_none_iff
        with (time_seconds := Possessions.start_time_seconds poss) in Eh.
      congruence.
  - apply find_lineup_none_iff in Eo. rewrite Eo. reflexivity.
Qed.

Lemma match_is_sorted_matched_rows lineup_states_df ps :
  match_lineups_to_possessions lineup_states_df ps
  = sort_values lp_leb (flat_map (matched_rows lineup_states_df) ps).
Proof. reflexivity. Qed.

End MatchFacts.


(** ** The lineup timeline covers every period *)

Module TimelineFacts.
Import Data LineupStates LineupPossessions Vocabulary Terms.

Section StringDict.
Context {V : Type}.

Lemma dict_get_key (d : dict (K := string) (V := V)) (k : string) (v : V) :
  dict_get String.eqb d k = Some v -> In k (map fst d).
Proof.
  induction d as [|[k0 v0] r IH]; simpl; [discriminate|].
  destruct (String.eqb k0 k) eqn:E; [|auto].
  apply String.eqb_eq in E. auto.
Qed.

Lemma dict_set_same_keys (d : dict (K := string) (V := V)) (k : string)
      (v0 v : V) :
  dict_get String.eqb d k = Some v0 ->
  map fst (dict_set String.eqb d k v) = map fst d.
Proof.
  induction d as [|[k1 v1] r IH]; simpl; [discriminate|].
  destruct (String.eqb k1 k) eqn:E; simpl; [reflexivity|].
  intros H. f_equal. apply IH, H.
Qed.
End StringDict.

Lemma apply_substitution_keeps team_ids teams st sub st' :
  builder_keeps_teams team_ids teams st ->
  apply_substitution team_ids st sub = Ok st' ->
  builder_keeps_teams team_ids teams st' /\ incl (snd st) (snd st').
Proof.
  destruct st as [cur tl]. unfold builder_keeps_teams. simpl.
  intros [Hkeys Hrows].
  destruct (dict_get String.eqb cur (s_team sub)) as [lineup|] eqn:Eget;
    [|discriminate].
  destruct (negb _); [intros [= <-]; simpl; auto using incl_refl|].
  destruct (pyset_mem (player_in sub) lineup);
    [intros [= <-]; simpl; auto using incl_refl|].
  unfold get_team_id.
  destruct (dict_get String.eqb team_ids (s_team sub)) as [i|] eqn:Eid;
    simpl; [|discriminate].
  intros [= <-]. simpl. split; [split|].
  - rewrite (dict_set_same_keys _ _ _ _ Eget). exact Hkeys.
  - intros row Hrow. apply in_app_or in Hrow. destruct Hrow as [Hrow|[<-|[]]];
      [auto|]. simpl. split.
    + rewrite <- Hkeys. eapply dict_get_key, Eget.
    + unfold team_id_of. rewrite Eid. reflexivity.
  - apply incl_appl, incl_refl.
Qed.

Lemma process_substitutions_keeps team_ids teams subs st st' :
  builder_keeps_teams team_ids teams st ->
  process_substitutions team_ids st subs = Ok st' ->
  builder_keeps_teams team_ids teams st' /\ incl (snd st) (snd st').
Proof.
  revert st. induction subs as [|sub rest IH]; simpl; intros st Hinv H.
  - inversion H; subst. auto using incl_refl.
  - destruct (apply_substitution team_ids st sub) as [st1|] eqn:E1;
      simpl in H; [|discriminate].
    destruct (apply_substitution_keeps _ _ _ _ _ Hinv E1) as [Hinv1 Hincl1].
    destruct (IH _ Hinv1 H) as [Hinv' Hincl'].
    split; [exact Hinv'|]. eapply incl_tran; eauto.
Qed.

Lemma lineup_periods_loop_covers team_ids teams subs periods st st' :
  builder_keeps_teams team_ids teams st ->
  lineup_periods_loop team_ids subs st periods = Ok st' ->
  builder_keeps_teams team_ids teams st'
  /\ incl (snd st) (snd st')
  /\ forall p t, In p periods -> In t teams ->
                 exists row, In row (snd st')
                             /\ ls_period row = p /\ ls_team row = t
                             /\ ls_team_id row = team_id_of team_ids t.
Proof.
  revert st. induction periods as [|q rest IH]; intros [cur tl] Hinv H.
  - simpl in H. inversion H; subst. split; [exact Hinv|].
    split; [apply incl_refl|]. intros p t [].
  - simpl in H.
    set (st1 := (cur, tl ++ period_start_rows team_ids cur q)) in *.
    assert (Hinv1 : builder_keeps_teams team_ids teams st1).
    { destruct Hinv as [Hkeys Hrows]. split; [exact Hkeys|].
      intros row Hrow. simpl in Hrow. apply in_app_or in Hrow.
      destruct Hrow as [Hrow|Hrow]; [auto|].
      unfold period_start_rows in Hrow. apply in_map_iff in Hrow.
      destruct Hrow as ([t s] & <- & Hts). simpl. split; [|reflexivity].
      simpl in Hkeys. rewrite <- Hkeys. apply in_map_iff. exists (t, s). auto. }
    destruct (process_substitutions team_ids st1 _) as [st2|] eqn:E2;
      simpl in H; [|discriminate].
    destruct (process_substitutions_keeps _ _ _ _ _ Hinv1 E2) as [Hinv2 Hincl2].
    destruct (IH _ Hinv2 H) as (Hinv' & Hincl' & Hcov).
    split; [exact Hinv'|]. split.
    + intros row Hrow. apply Hincl', Hincl2. simpl. apply in_or_app. auto.
    + intros p t [->|Hp] Ht; [|apply Hcov; assumption].
      destruct Hinv as [Hkeys _]. simpl in Hkeys.
      rewrite <- Hkeys in Ht. apply in_map_iff in Ht.
      destruct Ht as ([t0 s] & Ht0 & Hts). simpl in Ht0. subst t0.
      exists (mk_state p (if p <=? 4 then 720 else 300) t
                       (team_id_of team_ids t) (_lineup_to_dict s)).
      split; [|simpl; auto].
      apply Hincl', Hincl2. simpl. apply in_or_app. right.
      unfold period_start_rows. apply in_map_iff. exists (t, s). auto.
Qed.

Lemma extract_lineup_states_inv box_score_df pbp_df states :
  extract_lineup_states box_score_df pbp_df = Ok states ->
  exists starting st',
    _extract_starting_lineups box_score_df = Ok starting
    /\ lineup_periods_loop
         (map (fun ts : string * starting_lineup => (fst ts, team_id (snd ts)))
              starting)
         (_parse_substitutions pbp_df)
         (map (fun ts : string * starting_lineup => (fst ts, players (snd ts)))
              starting, [])
         (sorted_unique (map period pbp_df)) = Ok st'
    /\ (forall row, In row states <-> In row (snd st')).
Proof.
  unfold extract_lineup_states, _build_lineup_timeline.
  destruct (_extract_starting_lineups box_score_df) as [starting|]; simpl;
    [|discriminate].
  destruct (lineup_periods_loop _ _ _ _) as [st'|] eqn:El; simpl;
    [|discriminate].
  destruct (snd st') as [|r0 rest] eqn:Et; [discriminate|].
  destruct (forallb _ _); [discriminate|]. intros [= <-].
  exists starting, st'. split; [reflexivity|]. split; [exact El|].
  intros row. rewrite Et.
  change (insert_sorted state_leb r0 (sort_values state_leb rest))
    with (sort_values state_leb (r0 :: rest)).
  apply sort_values_In.
Qed.

(** Every team of the lineup table has a row in every period of the
    play-by-play. *)
Lemma timeline_covers_periods box_score_df pbp_df states r p :
  extract_lineup_states box_score_df pbp_df = Ok states ->
  In r states -> In p (map period pbp_df) ->
  has_lineup states p (ls_team_id r) = true.
Proof.
  intros H Hr Hp.
  destruct (extract_lineup_states_inv _ _ _ H) as (starting & st' & _ & Hl & Hmem).
  set (team_ids := map (fun ts : string * starting_lineup =>
                          (fst ts, team_id (snd ts))) starting) in *.
  set (teams := map fst starting).
  assert (Hinv0 : builder_keeps_teams
                    team_ids teams
                    (map (fun ts : string * starting_lineup =>
                            (fst ts, players (snd ts))) starting, [])).
  { split; [|intros row []]. simpl. rewrite map_map. reflexivity. }
  destruct (lineup_periods_loop_covers _ _ _ _ _ _ Hinv0 Hl)
    as ((_ & Hrows) & _ & Hcov).
  apply Hmem in Hr. destruct (Hrows r Hr) as [Hteam Hid].
  destruct (Hcov p (ls_team r)) as (row & Hrow & Hper & _ & Hrid);
    [apply sorted_unique_In, Hp | exact Hteam |].
  unfold has_lineup. apply existsb_exists. exists row.
  split; [apply Hmem, Hrow|].
  rewrite Hrid, Hid, Hper, !Z.eqb_refl. reflexivity.
Qed.

Lemma sort_values_sorted_id {A : Type} (leb : A -> A -> bool) (l : list A) :
  Sorted (fun a b => leb a b = true) l -> sort_values leb l = l.
Proof.
  induction 1 as [|a l Hs IH Hhd]; simpl; [reflexivity|].
  rewrite IH. destruct Hhd as [|b l' Hab]; simpl; [reflexivity|].
  rewrite Hab. reflexivity.
Qed.

End TimelineFacts.

Module PipelineFacts.
Import Data Possessions LineupStates LineupPossessions Vocabulary Terms.

Lemma extract_ids_from (pbp_df : list pbp_row) (ps : list possession) :
  extract_possessions pbp_df = Ok ps ->
  map possession_id ps = ids_from 1 (length ps).
Proof.
  intros H.
  destruct (PossessionPipeline.extract_possessions_inv _ _ H)
    as (clean & raw & _ & Hbuild & ->).
  rewrite PossessionPipeline.metrics_ids, PossessionPipeline.metrics_length.
  destruct (PossessionPipeline.timeline_inv _ _ _ Hbuild) as [Hloop | ->];
    [|reflexivity].
  eapply PossessionFacts.periods_loop_ids, Hloop.
Qed.

Lemma ids_from_ascending (pid : Z) (n : nat) : Sorted Z.le (ids_from pid n).
Proof.
  revert pid. induction n as [|n IH]; intros pid.
  - constructor.
  - rewrite PossessionFacts.ids_from_S. constructor; [apply IH|].
    destruct n; [constructor|].
    rewrite PossessionFacts.ids_from_S. constructor. lia.
Qed.

Lemma Sorted_by_key {A : Type} (f : A -> Z) (l : list A) :
  Sorted Z.le (map f l) ->
  Sorted (fun a b => (f a <=? f b) = true) l.
Proof.
  induction l as [|a r IH]; simpl; intros H; [constructor|].
  inversion H as [|? ? Hs Hhd]; subst. constructor; [auto|].
  destruct r; simpl in *; constructor.
  inversion Hhd; subst. apply Z.leb_le. assumption.
Qed.

(** The period of every possession is the period of an input row. *)
Lemma possession_period_in_pbp (pbp_df : list pbp_row) (ps : list possession)
      (poss : possession) :
  extract_possessions pbp_df = Ok ps -> In poss ps ->
  In (p_period poss) (map period pbp_df).
Proof.
  intros H Hin.
  destruct (PossessionPipeline.extract_possessions_inv _ _ H)
    as (clean & raw & Hprep & _ & _).
  pose proof (PossessionClosings.extract_closings _ _ _ Hprep H) as Hperm.
  assert (Hc : In (possession_closing poss)
                  (map ending_closing (_identify_possession_endings clean))).
  { eapply Permutation_in; [exact Hperm|]. apply in_map, Hin. }
  apply in_map_iff in Hc. destruct Hc as (e & He & Hein).
  destruct (PossessionFacts.endings_from_rows _ _ Hein) as (r & Hr & Hper & _).
  destruct (PossessionErrors.prepared_rows_src _ _ Hprep) as [Hsrc _].
  destruct (Hsrc r Hr) as [Hrin _].
  unfold possession_closing, ending_closing in He.
  assert (Hp : e_period e = p_period poss) by congruence.
  rewrite <- Hp, Hper. apply in_map, Hrin.
Qed.

End PipelineFacts.

(** X6. Composition of the lineups pipeline on one game: when
    extract_lineup_states and extract_possessions both succeed on the same
    play-by-play, and the offensive and defensive team ids of every
    possession are team ids of the lineup table, match_lineups_to_possessions
    drops no possession: its rows carry the possession ids of the
    possession table, in the same order. *)
Theorem known_teams_lose_no_possession
        (box_score_df : list box_row) (pbp_df : list pbp_row)
        (lineup_states_df : list lineup_state) (possessions_df : list possession) :
  extract_lineup_states box_score_df pbp_df = Ok lineup_states_df ->
  extract_possessions pbp_df = Ok possessions_df ->
  (forall poss, In poss possessions_df ->
                In (off_team poss) (map ls_team_id lineup_states_df)
                /\ In (def_team poss) (map ls_team_id lineup_states_df)) ->
  map lp_possession_id
      (match_lineups_to_possessions lineup_states_df possessions_df)
  = map possession_id possessions_df.
Proof.
  intros Hstates Hposs Hteams.
  assert (Hall : filter (both_sides_known lineup_states_df) possessions_df
                 = possessions_df).
  { apply PossessionClosings.filter_all. intros poss Hin.
    destruct (Hteams poss Hin) as [Hoff Hdef].
    apply in_map_iff in Hoff. destruct Hoff as (ro & Hro & Hroin).
    apply in_map_iff in Hdef. destruct Hdef as (rd & Hrd & Hrdin).
    pose proof (PipelineFacts.possession_period_in_pbp _ _ _ Hposs Hin) as Hp.
    unfold both_sides_known. rewrite <- Hro, <- Hrd.
    rewrite (TimelineFacts.timeline_covers_periods _ _ _ ro _ Hstates Hroin Hp).
    rewrite (TimelineFacts.timeline_covers_periods _ _ _ rd _ Hstates Hrdin Hp).
    reflexivity. }
  rewrite MatchFacts.match_is_sorted_matched_rows.
  rewrite TimelineFacts.sort_values_sorted_id.
  - rewrite MatchFacts.matched_rows_ids, Hall. reflexivity.
  - apply (PipelineFacts.Sorted_by_key lp_possession_id).
    rewrite MatchFacts.matched_rows_ids, Hall.
    rewrite (PipelineFacts.extract_ids_from _ _ Hposs).
    apply PipelineFacts.ids_from_ascending.
Qed.

Lemma known_teams_lose_no_possession_witness :
  exists lineup_states_df possessions_df,
    extract_lineup_states Games.box_score Games.two_periods = Ok lineup_states_df
    /\ extract_possessions Games.two_periods = Ok possessions_df
    /\ map lp_possession_id
           (match_lineups_to_possessions lineup_states_df possessions_df)
       = map possession_id possessions_df.
Proof.
  destruct (extract_lineup_states Games.box_score Games.two_periods)
    as [states|] eqn:Es; [|vm_compute in Es; discriminate].
  destruct (extract_possessions Games.two_periods) as [ps|] eqn:Ep;
    [|vm_compute in Ep; discriminate].
  exists states, ps. split; [reflexivity|]. split; [reflexivity|].
  apply (known_teams_lose_no_possession Games.box_score Games.two_periods
                                        states ps Es Ep).
  vm_compute in Es. inversion Es; subst states.
  vm_compute in Ep. inversion Ep; subst ps.
  intros poss Hin. simpl in Hin.
  repeat (destruct Hin as [<-|Hin]; [simpl; auto 12|]). destruct Hin.
Defined.

(** ** The size of the units on the timeline *)

Module UnitSizeFacts.
Import Data LineupStates Vocabulary Terms.

Lemma set_add_length_new (x : Z) (s : pyset) :
  ~ In x s -> length (set_add Z.eq_dec x s) = S (length s).
Proof.
  induction s as [|y r IH]; simpl; intros Hn; [reflexivity|].
  destruct (Z.eq_dec x y) as [->|Hne]; [exfalso; auto|].
  simpl. rewrite IH; auto.
Qed.

Lemma set_add_length_le (x : Z) (s : pyset) :
  (length (set_add Z.eq_dec x s) <= S (length s))%nat.
Proof.
  induction s as [|y r IH]; simpl; [lia|].
  destruct (Z.eq_dec x y); simpl; lia.
Qed.

Lemma set_remove_length (x : Z) (s : pyset) :
  In x s -> S (length (set_remove Z.eq_dec x s)) = length s.
Proof.
  induction s as [|y r IH]; simpl; intros Hin; [destruct Hin|].
  destruct (Z.eq_dec x y) as [->|Hne]; [reflexivity|].
  simpl. rewrite IH; [reflexivity|]. destruct Hin; [congruence|assumption].
Qed.

Lemma fold_add_NoDup (l : list Z) (s : pyset) :
  NoDup s -> NoDup (fold_left (fun s x => set_add Z.eq_dec x s) l s).
Proof.
  revert s. induction l as [|x r IH]; simpl; intros s Hs; [exact Hs|].
  apply IH, set_add_nodup, Hs.
Qed.

Lemma fold_add_length_le (l : list Z) (s : pyset) :
  (length (fold_left (fun s x => set_add Z.eq_dec x s) l s)
   <= length s + length l)%nat.
Proof.
  revert s. induction l as [|x r IH]; simpl; intros s; [lia|].
  specialize (IH (set_add Z.eq_dec x s)).
  pose proof (set_add_length_le x s). lia.
Qed.

Lemma fold_add_length (l : list Z) (s : pyset) :
  NoDup l -> (forall x, In x l -> ~ In x s) ->
  length (fold_left (fun s x => set_add Z.eq_dec x s) l s)
  = (length s + length l)%nat.
Proof.
  revert s. induction l as [|x r IH]; simpl; intros s Hnd Hdis; [lia|].
  inversion Hnd as [|? ? Hx Hr]; subst.
  rewrite IH; [rewrite set_add_length_new; [lia | auto] | exact Hr |].
  intros y Hy Hin. apply set_add_elim in Hin. destruct Hin as [->|Hin].
  - contradiction.
  - apply (Hdis y); auto.
Qed.

Lemma pyset_of_list_NoDup (l : list Z) : NoDup (pyset_of_list l).
Proof. apply fold_add_NoDup. constructor. Qed.

Lemma pyset_of_list_length_le (l : list Z) :
  (length (pyset_of_list l) <= length l)%nat.
Proof. apply (fold_add_length_le l (empty_set Z)). Qed.

Lemma pyset_of_list_length (l : list Z) :
  NoDup l -> length (pyset_of_list l) = length l.
Proof.
  intros H. unfold pyset_of_list. rewrite fold_add_length; auto.
Qed.

Lemma lineup_to_dict_ascending (s : pyset) :
  NoDup s -> StronglySorted Z.lt (_lineup_to_dict s).
Proof.
  intros Hnd0. unfold _lineup_to_dict.
  assert (Hnd : NoDup (sort_values Z.leb s)).
  { eapply Permutation_NoDup;
      [apply Permutation_sym, sort_values_perm | exact Hnd0]. }
  assert (Hs : StronglySorted Z.le (sort_values Z.leb s)).
  { apply Sorted_StronglySorted; [intros a b c; apply Z.le_trans|].
    eapply Sorted_weaken; [|apply sort_values_sorted, Zleb_total].
    intros a b; apply Z.leb_le. }
  induction Hs as [|a r Hs IH Hall]; constructor.
  - apply IH. inversion Hnd; assumption.
  - inversion Hnd as [|? ? Hnotin _]; subst.
    rewrite Forall_forall in *. intros b Hb.
    specialize (Hall b Hb).
    assert (a <> b) by (intros ->; contradiction). lia.
Qed.

Lemma lineup_to_dict_length (s : pyset) :
  length (_lineup_to_dict s) = length s.
Proof. apply sort_values_length. Qed.

Lemma lineups_get_In {V : Type} (d : dict (K := string) (V := V)) (k : string) (v : V) :
  dict_get String.eqb d k = Some v -> In (k, v) d.
Proof.
  induction d as [|[k0 v0] r IH]; simpl; [discriminate|].
  destruct (String.eqb k0 k) eqn:E; [|auto].
  apply String.eqb_eq in E. intros [= ->]. subst. auto.
Qed.

Lemma lineups_set_In {V : Type} (d : dict (K := string) (V := V)) (k : string)
      (v : V) (k' : string) (v' : V) :
  In (k', v') (dict_set String.eqb d k v) -> In (k', v') d \/ v' = v.
Proof.
  induction d as [|[k0 v0] r IH]; simpl.
  - intros [[= <- <-]|[]]. auto.
  - destruct (String.eqb k0 k); simpl.
    + intros [[= <- <-]|H]; auto.
    + intros [H|H]; [auto|]. destruct (IH H); auto.
Qed.

Lemma NoDup_map_filter {A : Type} (f : A -> Z) (g : A -> bool) (l : list A) :
  NoDup (map f l) -> NoDup (map f (filter g l)).
Proof.
  induction l as [|a r IH]; simpl; intros H; [constructor|].
  inversion H as [|? ? Hn Hr]; subst.
  destruct (g a); simpl; [|auto]. constructor; [|auto].
  intros Hin. apply Hn. apply in_map_iff in Hin.
  destruct Hin as (b & Hb & Hbin). apply filter_In in Hbin.
  apply in_map_iff. exists b. tauto.
Qed.

(** Starters with pairwise distinct ids are distinct within each team. *)
Lemma distinct_starters_per_team (box_score_df : list box_row) :
  NoDup (map nbaId (filter has_start_pos box_score_df)) ->
  forall t, NoDup (starter_ids box_score_df t).
Proof. intros H t. apply NoDup_map_filter, H. Qed.

Section Sizes.
Variable P : nat -> Prop.

Lemma apply_substitution_sizes team_ids st sub st' :
  court_sizes P st ->
  apply_substitution team_ids st sub = Ok st' ->
  court_sizes P st'.
Proof.
  destruct st as [cur tl]. unfold court_sizes. simpl.
  intros [Hsets Hrows].
  destruct (dict_get String.eqb cur (s_team sub)) as [lineup|] eqn:Eget;
    [|discriminate].
  destruct (pyset_mem (player_out sub) lineup) eqn:Eout; simpl;
    [|intros [= <-]; simpl; auto].
  destruct (pyset_mem (player_in sub) lineup) eqn:Ein;
    [intros [= <-]; simpl; auto|].
  destruct (get_team_id team_ids (s_team sub)) as [i|]; simpl; [|discriminate].
  intros [= <-]. simpl.
  apply LineupStateFacts.pyset_mem_true in Eout.
  apply LineupStateFacts.pyset_mem_false in Ein.
  destruct (Hsets _ _ (lineups_get_In _ _ _ Eget)) as [Hnd Hsize].
  set (lineup' := set_add Z.eq_dec (player_in sub)
                          (set_remove Z.eq_dec (player_out sub) lineup)).
  assert (Hnd' : NoDup lineup')
    by (apply set_add_nodup, set_remove_nodup, Hnd).
  assert (Hlen : length lineup' = length lineup).
  { unfold lineup'. rewrite set_add_length_new.
    - apply set_remove_length, Eout.
    - intros Hin. apply set_remove_1 in Hin. contradiction. }
  split.
  - intros t s Hin. apply lineups_set_In in Hin. destruct Hin as [Hin| ->].
    + eapply Hsets, Hin.
    + rewrite Hlen. auto.
  - intros row Hrow. apply in_app_or in Hrow.
    destruct Hrow as [Hrow|[<-|[]]]; [auto|]. simpl.
    split; [apply lineup_to_dict_ascending, Hnd'|].
    rewrite lineup_to_dict_length, Hlen. exact Hsize.
Qed.

Lemma process_substitutions_sizes team_ids subs st st' :
  court_sizes P st ->
  process_substitutions team_ids st subs = Ok st' ->
  court_sizes P st'.
Proof.
  revert st. induction subs as [|sub rest IH]; simpl; intros st Hinv H.
  - inversion H; subst. exact Hinv.
  - destruct (apply_substitution team_ids st sub) as [st1|] eqn:E1;
      simpl in H; [|discriminate].
    eapply IH; [|exact H]. eapply apply_substitution_sizes; eauto.
Qed.

Lemma lineup_periods_loop_sizes team_ids subs periods st st' :
  court_sizes P st ->
  lineup_periods_loop team_ids subs st periods = Ok st' ->
  court_sizes P st'.
Proof.
  revert st. induction periods as [|q rest IH]; intros [cur tl] Hinv H.
  - simpl in H. inversion H; subst. exact Hinv.
  - simpl in H.
    destruct (process_substitutions team_ids _ _) as [st2|] eqn:E2;
      simpl in H; [|discriminate].
    eapply IH; [|exact H].
    eapply process_substitutions_sizes; [|exact E2].
    destruct Hinv as [Hsets Hrows]. split; [exact Hsets|].
    simpl in *. intros row Hrow. apply in_app_or in Hrow.
    destruct Hrow as [Hrow|Hrow]; [auto|].
    unfold period_start_rows in Hrow. apply in_map_iff in Hrow.
    destruct Hrow as ([t s] & <- & Hts). simpl.
    destruct (Hsets t s Hts) as [Hnd Hsize].
    split; [apply lineup_to_dict_ascending, Hnd|].
    rewrite lineup_to_dict_length. exact Hsize.
Qed.

(** The sizes of the starting sets carry over to every row. *)
Lemma timeline_sizes box_score_df pbp_df states :
  (forall t, length (starter_ids box_score_df t) = 5%nat ->
             P (length (pyset_of_list (starter_ids box_score_df t)))) ->
  extract_lineup_states box_score_df pbp_df = Ok states ->
  forall row, In row states ->
              StronglySorted Z.lt (ls_players row)
              /\ P (length (ls_players row)).
Proof.
  intros HP H row Hrow.
  destruct (TimelineFacts.extract_lineup_states_inv _ _ _ H)
    as (starting & st' & Hstart & Hl & Hmem).
  apply Hmem in Hrow.
  eapply lineup_periods_loop_sizes in Hl; [apply Hl, Hrow|].
  split; [|intros r []]. simpl. intros t s Hin.
  apply in_map_iff in Hin. destruct Hin as ([t0 sl] & [= -> <-] & Hin).
  unfold _extract_starting_lineups in Hstart.
  apply mapM_Ok_Forall2 in Hstart.
  destruct (Forall2_In_r _ _ _ _ Hstart Hin) as (t1 & _ & Hof).
  unfold starting_lineup_of in Hof.
  destruct (team_rows t1 _) as [|first more] eqn:Erows; [discriminate|].
  rewrite <- Erows in Hof.
  destruct (length (map nbaId (team_rows t1 _)) =? 5)%nat eqn:Elen;
    simpl in Hof; [|discriminate].
  inversion Hof; subst. simpl.
  split; [apply pyset_of_list_NoDup|].
  apply HP. apply Nat.eqb_eq in Elen. exact Elen.
Qed.

End Sizes.
End UnitSizeFacts.

(** X7. Every row of the lineup timeline lists its players in strictly
    ascending order and has at most five of them; a substitution that is
    applied keeps the size of the unit.  When the starter ids of each team
    in the box score are pairwise distinct, every row has exactly five
    players. *)
Theorem timeline_rows_are_sorted_units
        (box_score_df : list box_row) (pbp_df : list pbp_row)
        (lineup_states_df : list lineup_state) :
  extract_lineup_states box_score_df pbp_df = Ok lineup_states_df ->
  forall row, In row lineup_states_df ->
    StronglySorted Z.lt (ls_players row)
    /\ (length (ls_players row) <= 5)%nat
    /\ ((forall t, NoDup (starter_ids box_score_df t)) ->
        length (ls_players row) = 5%nat).
Proof.
  intros H row Hrow. split; [|split].
  - eapply (UnitSizeFacts.timeline_sizes (fun _ => True)); eauto.
  - eapply (UnitSizeFacts.timeline_sizes (fun n => (n <= 5)%nat)); eauto.
    intros t Hlen. rewrite <- Hlen.
    apply UnitSizeFacts.pyset_of_list_length_le.
  - intros Hnd.
    eapply (UnitSizeFacts.timeline_sizes (fun n => n = 5%nat)); eauto.
    intros t Hlen. rewrite UnitSizeFacts.pyset_of_list_length; auto.
Qed.

Lemma timeline_rows_are_sorted_units_witness :
  StronglySorted Z.lt [101; 102; 103; 104; 106]
  /\ (length [101; 102; 103; 104; 106] <= 5)%nat
  /\ length [101; 102; 103; 104; 106] = 5%nat.
Proof.
  destruct (extract_lineup_states
              Games.box_score (Games.game_with_substitution 106 105))
    as [states|] eqn:E; [|vm_compute in E; discriminate].
  destruct (timeline_rows_are_sorted_units
              Games.box_score (Games.game_with_substitution 106 105) states E
              (mk_state 1 600 "HOU" 1 [101; 102; 103; 104; 106]))
    as (Hasc & Hle & Hfive).
  - vm_compute in E. inversion E. simpl. auto 10.
  - split; [exact Hasc|]. split; [exact Hle|]. apply Hfive.
    apply UnitSizeFacts.distinct_starters_per_team.
    vm_compute. repeat constructor; simpl; intuition discriminate.
Defined.

(** ** Substitutions of a team without starters *)

Module UnknownTeamFacts.
Import Data LineupStates Vocabulary Terms.

Lemma dict_get_absent {V : Type} (d : dict (K := string) (V := V)) (k : string) :
  ~ In k (map fst d) -> dict_get String.eqb d k = None.
Proof.
  induction d as [|[k0 v0] r IH]; simpl; intros Hn; [reflexivity|].
  destruct (String.eqb k0 k) eqn:E.
  - apply String.eqb_eq in E. exfalso. auto.
  - apply IH. auto.
Qed.

Lemma apply_substitution_raises team_ids st sub e :
  apply_substitution team_ids st sub = Raise e -> e = KeyError.
Proof.
  destruct st as [cur tl]. simpl.
  destruct (dict_get String.eqb cur (s_team sub)); [|congruence].
  destruct (negb _); [discriminate|].
  destruct (pyset_mem _ _); [discriminate|].
  unfold get_team_id. destruct (dict_get String.eqb team_ids _); simpl;
    congruence.
Qed.

Lemma process_substitutions_raises team_ids subs st e :
  process_substitutions team_ids st subs = Raise e -> e = KeyError.
Proof.
  revert st. induction subs as [|sub rest IH]; simpl; intros st H;
    [discriminate|].
  destruct (apply_substitution team_ids st sub) as [st1|e1] eqn:E1; simpl in H.
  - eapply IH, H.
  - inversion H; subst. eapply apply_substitution_raises, E1.
Qed.

Lemma lineup_periods_loop_raises team_ids subs periods st e :
  lineup_periods_loop team_ids subs st periods = Raise e -> e = KeyError.
Proof.
  revert st. induction periods as [|q rest IH]; intros [cur tl] H;
    simpl in H; [discriminate|].
  destruct (process_substitutions team_ids _ _) as [st2|e2] eqn:E2;
    simpl in H.
  - eapply IH, H.
  - inversion H; subst. eapply process_substitutions_raises, E2.
Qed.

Lemma process_substitutions_unknown_team team_ids teams subs st sub :
  builder_keeps_teams team_ids teams st ->
  In sub subs -> ~ In (s_team sub) teams ->
  process_substitutions team_ids st subs = Raise KeyError.
Proof.
  revert st. induction subs as [|s0 rest IH]; simpl; intros st Hinv Hin Hn;
    [destruct Hin|].
  destruct (apply_substitution team_ids st s0) as [st1|e1] eqn:E1; simpl.
  - destruct Hin as [->|Hin].
    + exfalso. destruct st as [cur tl]. simpl in E1.
      destruct Hinv as [Hkeys _]. simpl in Hkeys.
      rewrite dict_get_absent in E1; [discriminate|].
      rewrite Hkeys. exact Hn.
    + eapply IH; eauto.
      eapply TimelineFacts.apply_substitution_keeps; eauto.
  - f_equal. eapply apply_substitution_raises, E1.
Qed.

Lemma lineup_periods_loop_unknown_team team_ids teams subs periods st sub :
  builder_keeps_teams team_ids teams st ->
  In sub subs -> In (s_period sub) periods -> ~ In (s_team sub) teams ->
  lineup_periods_loop team_ids subs st periods = Raise KeyError.
Proof.
  revert st. induction periods as [|q rest IH]; intros [cur tl] Hinv Hin Hp Hn;
    [destruct Hp|].
  simpl.
  set (st1 := (cur, tl ++ period_start_rows team_ids cur q)).
  assert (Hinv1 : builder_keeps_teams team_ids teams st1).
  { destruct Hinv as [Hkeys Hrows]. split; [exact Hkeys|].
    intros row Hrow. simpl in Hrow. apply in_app_or in Hrow.
    destruct Hrow as [Hrow|Hrow]; [auto|].
    unfold period_start_rows in Hrow. apply in_map_iff in Hrow.
    destruct Hrow as ([t s] & <- & Hts). simpl. split; [|reflexivity].
    simpl in Hkeys. rewrite <- Hkeys. apply in_map_iff. exists (t, s). auto. }
  destruct (Z.eq_dec (s_period sub) q) as [Heq|Hne].
  - rewrite (process_substitutions_unknown_team team_ids teams _ st1 sub);
      [reflexivity | exact Hinv1 | | exact Hn].
    apply filter_In. split; [exact Hin|]. apply Z.eqb_eq, Heq.
  - destruct (process_substitutions team_ids st1 _) as [st2|e2] eqn:E2; simpl.
    + apply IH; auto.
      * eapply TimelineFacts.process_substitutions_keeps; eauto.
      * destruct Hp; [congruence|assumption].
    + f_equal. eapply process_substitutions_raises, E2.
Qed.

Lemma parsed_substitution (pbp_df : list pbp_row) (r : pbp_row) (p1 p2 : Z) :
  In r pbp_df -> msgType r = 8 ->
  playerId1 r = Some p1 -> playerId2 r = Some p2 ->
  In (mk_sub (period r) (gameClock r) (team r) p1 p2)
     (_parse_substitutions pbp_df).
Proof.
  intros Hin Hm H1 H2. unfold _parse_substitutions.
  apply sort_values_In, in_flat_map. exists r. split.
  - apply filter_In. split; [exact Hin|]. rewrite Hm. reflexivity.
  - rewrite H1, H2. simpl. auto.
Qed.

Lemma starting_teams (box_score_df : list box_row)
      (starting : dict (K := string) (V := starting_lineup)) :
  _extract_starting_lineups box_score_df = Ok starting ->
  forall t, In t (map fst starting) ->
            In t (map b_team (filter has_start_pos box_score_df)).
Proof.
  unfold _extract_starting_lineups. intros H t Ht.
  apply mapM_Ok_Forall2 in H.
  apply in_map_iff in Ht. destruct Ht as ([t0 sl] & <- & Hin).
  destruct (Forall2_In_r _ _ _ _ H Hin) as (t1 & Ht1 & Hof).
  apply unique_by_In in Ht1.
  unfold starting_lineup_of in Hof.
  destruct (team_rows t1 _); [discriminate|].
  destruct (negb _); [discriminate|].
  inversion Hof; subst. exact Ht1.
Qed.

End UnknownTeamFacts.

(** X8. When the starting lineups can be extracted and the play-by-play
    has a substitution row (msgType 8 with both player ids) whose team
    label is the team of no starter row of the box score,
    extract_lineup_states raises KeyError: the timeline builder looks the
    team up among the on-court sets before it validates the substitution. *)
Theorem substitution_of_team_without_starters_raises
        (box_score_df : list box_row) (pbp_df : list pbp_row)
        (starting : dict (K := string) (V := starting_lineup))
        (r : pbp_row) (p1 p2 : Z) :
  _extract_starting_lineups box_score_df = Ok starting ->
  In r pbp_df -> msgType r = 8 ->
  playerId1 r = Some p1 -> playerId2 r = Some p2 ->
  ~ In (team r) (map b_team (filter has_start_pos box_score_df)) ->
  extract_lineup_states box_score_df pbp_df = Raise KeyError.
Proof.
  intros Hstart Hin Hm H1 H2 Hteam.
  unfold extract_lineup_states, _build_lineup_timeline.
  rewrite Hstart. simpl.
  rewrite (UnknownTeamFacts.lineup_periods_loop_unknown_team
             _ (map fst starting) _ _ _
             (mk_sub (period r) (gameClock r) (team r) p1 p2)).
  - reflexivity.
  - split; [|intros row []]. simpl. rewrite map_map. reflexivity.
  - apply UnknownTeamFacts.parsed_substitution; assumption.
  - simpl. apply sorted_unique_In, in_map, Hin.
  - simpl. intros Hk. apply Hteam.
    eapply UnknownTeamFacts.starting_teams; eauto.
Qed.

Lemma substitution_of_team_without_starters_raises_witness :
  extract_lineup_states Games.box_no_dal_starter MoreGames.dal_substitution
  = Raise KeyError.
Proof.
  destruct (_extract_starting_lineups Games.box_no_dal_starter)
    as [starting|] eqn:E; [|vm_compute in E; discriminate].
  apply (substitution_of_team_without_starters_raises
           Games.box_no_dal_starter MoreGames.dal_substitution starting
           (Games.play 1 600 1500 2 8 "DAL" (Some 2) (Some 1)
                       (Some 206) (Some 205) 0 false)
           206 205 E).
  - simpl. auto.
  - reflexivity.
  - reflexivity.
  - reflexivity.
  - vm_compute. intuition discriminate.
Defined.

(** ** Sums over the ratings table *)

Module RatingSums.
Import LineupPossessions LineupRatings Vocabulary.

Lemma series_sum_perm (l1 l2 : list Z) :
  Permutation l1 l2 -> series_sum l1 = series_sum l2.
Proof.
  unfold series_sum. induction 1; simpl; lia.
Qed.

Lemma indicator_sum_absent (x : unit_key) (keys : list unit_key) :
  ~ In x keys ->
  series_sum (map (fun k => if key_eqb x k then 1 else 0) keys) = 0.
Proof.
  induction keys as [|k r IH]; simpl; intros Hn; [reflexivity|].
  destruct (key_eqb x k) eqn:E.
  - apply LineupRatingFacts.key_eqb_eq in E. subst k.
    exfalso. apply Hn. auto.
  - rewrite IH; [reflexivity|]. intros H. apply Hn. auto.
Qed.

Lemma indicator_sum_present (x : unit_key) (keys : list unit_key) :
  NoDup keys -> In x keys ->
  series_sum (map (fun k => if key_eqb x k then 1 else 0) keys) = 1.
Proof.
  induction 1 as [|k r Hk Hr IH]; intros Hin; [destruct Hin|]. simpl.
  destruct (key_eqb x k) eqn:E.
  - apply LineupRatingFacts.key_eqb_eq in E. subst k.
    fold (series_sum (map (fun k => if key_eqb x k then 1 else 0) r)).
    rewrite indicator_sum_absent; [reflexivity | exact Hk].
  - destruct Hin as [->|Hin];
      [rewrite LineupRatingFacts.key_eqb_refl in E; discriminate|].
    fold (series_sum (map (fun k => if key_eqb x k then 1 else 0) r)).
    rewrite (IH Hin). reflexivity.
Qed.

Lemma series_sum_add {A : Type} (f g : A -> Z) (l : list A) :
  series_sum (map (fun k => f k + g k) l)
  = series_sum (map f l) + series_sum (map g l).
Proof.
  unfold series_sum. induction l as [|x r IH]; simpl; lia.
Qed.

(** Every row is counted under exactly one of the keys. *)
Lemma counts_partition (key_of : lineup_possession -> unit_key)
      (df : list lineup_possession) (keys : list unit_key) :
  NoDup keys -> (forall p, In p df -> In (key_of p) keys) ->
  series_sum (map (count_key key_of df) keys) = Z.of_nat (length df).
Proof.
  intros Hnd. induction df as [|p r IH]; intros Hcov.
  - unfold count_key, series_sum. simpl. clear Hnd Hcov.
    induction keys as [|k r IH]; simpl; [reflexivity | exact IH].
  - rewrite (map_ext _ (fun k => (if key_eqb (key_of p) k then 1 else 0)
                                 + count_key key_of r k)).
    + rewrite series_sum_add, IH, (indicator_sum_present _ _ Hnd);
        [simpl length; lia | apply Hcov; simpl; auto
         | intros q Hq; apply Hcov; simpl; auto].
    + intros k. unfold count_key. simpl.
      destruct (key_eqb (key_of p) k); simpl length; lia.
Qed.

Lemma all_keys_NoDup (df : list lineup_possession) : NoDup (all_keys df).
Proof. apply LineupRatingFacts.group_keys_NoDup. Qed.

Lemma ratings_off_sum (df : list lineup_possession) :
  series_sum (map r_off_poss (calculate_lineup_ratings df))
  = Z.of_nat (length df).
Proof.
  rewrite (series_sum_perm _ _
             (Permutation_map r_off_poss (LineupRatingFacts.ratings_perm df))).
  rewrite map_map. simpl.
  apply (counts_partition off_key); [apply all_keys_NoDup|].
  intros p Hp. apply LineupRatingFacts.all_keys_In. eauto.
Qed.

Lemma ratings_def_sum (df : list lineup_possession) :
  series_sum (map r_def_poss (calculate_lineup_ratings df))
  = Z.of_nat (length df).
Proof.
  rewrite (series_sum_perm _ _
             (Permutation_map r_def_poss (LineupRatingFacts.ratings_perm df))).
  rewrite map_map. simpl.
  apply (counts_partition def_key); [apply all_keys_NoDup|].
  intros p Hp. apply LineupRatingFacts.all_keys_In. eauto.
Qed.

Lemma ratings_nonempty (df : list lineup_possession) :
  df <> [] -> calculate_lineup_ratings df <> [].
Proof.
  intros Hne Hnil. pose proof (ratings_off_sum df) as H.
  rewrite Hnil in H. simpl in H. destruct df; [auto|]. simpl in H. lia.
Qed.

Lemma count_key_positive (key_of : lineup_possession -> unit_key)
      (df : list lineup_possession) (p : lineup_possession) :
  In p df -> 1 <= count_key key_of df (key_of p).
Proof.
  intros Hin. unfold count_key.
  assert (Hf : In p (filter (fun r => key_eqb (key_of r) (key_of p)) df)).
  { apply filter_In. split; [exact Hin|]. apply LineupRatingFacts.key_eqb_refl. }
  destruct (filter _ df); [destruct Hf|]. simpl length. lia.
Qed.

(** Every row of the ratings table has a possession on some side. *)
Lemma rating_row_observed (df : list lineup_possession) (r : rating_row) :
  In r (calculate_lineup_ratings df) ->
  1 <= r_off_poss r \/ 1 <= r_def_poss r.
Proof.
  intros Hr. pose proof (LineupRatingFacts.ratings_row df r Hr) as Hrow.
  assert (Hk : In (row_key r) (all_keys df)).
  { eapply Permutation_in; [apply LineupRatingFacts.ratings_keys|].
    apply in_map, Hr. }
  apply LineupRatingFacts.all_keys_In in Hk.
  destruct Hk as (p & Hp & [Hk|Hk]); rewrite Hrow; simpl; rewrite <- Hk;
    [left | right]; apply count_key_positive, Hp.
Qed.

Lemma filter_lineups_filter (ratings_df : list rating_row) (m : Z) :
  filter_lineups ratings_df m
  = filter (fun r => (m <=? r_off_poss r) || (m <=? r_def_poss r)) ratings_df.
Proof. destruct ratings_df; reflexivity. Qed.

End RatingSums.

Import LineupRatings.

(** X9. The summary of a ratings table computed from a non-empty
    possession table exists, and its total_possessions, the sum of the
    off_poss column, is the number of input possession rows: every
    possession is counted on offense for exactly one unit.  The def_poss
    column sums to the same number, and lineups_with_both_stats never
    exceeds total_lineups. *)
Theorem summary_counts_every_possession_once (df : list lineup_possession) :
  df <> [] ->
  exists s,
    get_lineup_summary (calculate_lineup_ratings df) = Some s
    /\ total_possessions s = Z.of_nat (length df)
    /\ series_sum (map r_def_poss (calculate_lineup_ratings df))
       = Z.of_nat (length df)
    /\ total_lineups s = Z.of_nat (length (calculate_lineup_ratings df))
    /\ 0 <= lineups_with_both_stats s <= total_lineups s.
Proof.
  intros Hne. pose proof (RatingSums.ratings_nonempty df Hne) as Hrows.
  pose proof (RatingSums.ratings_off_sum df) as Hoff.
  pose proof (RatingSums.ratings_def_sum df) as Hdef.
  destruct (calculate_lineup_ratings df) as [|first rest] eqn:E;
    [congruence|].
  eexists. split; [reflexivity|]. cbn [total_possessions total_lineups
                                        lineups_with_both_stats].
  split; [exact Hoff|]. split; [exact Hdef|]. split; [reflexivity|].
  split; [lia|]. apply inj_le, filter_length_le.
Qed.

Lemma summary_counts_every_possession_once_witness :
  exists s,
    get_lineup_summary
      (calculate_lineup_ratings
         (match_lineups_to_possessions
            Games.lineup_table
            (match Possessions.extract_possessions Games.two_periods with
             | Ok ps => ps
             | Raise _ => []
             end))) = Some s
    /\ total_possessions s = 3.
Proof.
  set (df := match_lineups_to_possessions
               Games.lineup_table
               (match Possessions.extract_possessions Games.two_periods with
                | Ok ps => ps
                | Raise _ => []
                end)).
  destruct (summary_counts_every_possession_once df) as (s & Hs & Htot & _).
  - vm_compute. discriminate.
  - exists s. split; [exact Hs|]. rewrite Htot. vm_compute. reflexivity.
Defined.

(** X10. filter_lineups with a threshold of at most one possession keeps
    the whole ratings table of calculate_lineup_ratings: every unit of the
    table was observed on at least one side. *)
Theorem threshold_of_one_keeps_every_unit
        (df : list lineup_possession) (min_possessions : Z) :
  min_possessions <= 1 ->
  filter_lineups (calculate_lineup_ratings df) min_possessions
  = calculate_lineup_ratings df.
Proof.
  intros Hm. rewrite RatingSums.filter_lineups_filter.
  apply PossessionClosings.filter_all. intros r Hr.
  destruct (RatingSums.rating_row_observed df r Hr) as [H|H];
    apply Bool.orb_true_iff; [left | right]; apply Z.leb_le; lia.
Qed.

Lemma threshold_of_one_keeps_every_unit_witness :
  filter_lineups
    (calculate_lineup_ratings
       (match_lineups_to_possessions
          Games.lineup_table
          (match Possessions.extract_possessions Games.two_periods with
           | Ok ps => ps
           | Raise _ => []
           end))) 1
  = calculate_lineup_ratings
      (match_lineups_to_possessions
         Games.lineup_table
         (match Possessions.extract_possessions Games.two_periods with
          | Ok ps => ps
          | Raise _ => []
          end)).
Proof.
  apply (threshold_of_one_keeps_every_unit _ 1). lia.
Defined.

(** X11. Filtering twice with filter_lineups is filtering once with the
    larger threshold, and the rows that remain are rows of the input in
    their input order, each with at least the threshold on one side. *)
Theorem filter_lineups_thresholds_compose
        (ratings_df : list rating_row) (a b : Z) :
  filter_lineups (filter_lineups ratings_df a) b
  = filter_lineups ratings_df (Z.max a b)
  /\ (forall r, In r (filter_lineups ratings_df a) <->
                In r ratings_df /\ (a <= r_off_poss r \/ a <= r_def_poss r))
  /\ exists dropped,
       Permutation ratings_df (filter_lineups ratings_df a ++ dropped)
       /\ Forall (fun r => r_off_poss r < a /\ r_def_poss r < a) dropped.
Proof.
  rewrite !RatingSums.filter_lineups_filter. split; [|split].
  - induction ratings_df as [|r rest IH]; simpl; [reflexivity|].
    destruct (Z.leb_spec a (r_off_poss r)), (Z.leb_spec a (r_def_poss r));
      simpl; rewrite IH;
      destruct (Z.leb_spec b (r_off_poss r)), (Z.leb_spec b (r_def_poss r));
      destruct (Z.leb_spec (Z.max a b) (r_off_poss r)),
               (Z.leb_spec (Z.max a b) (r_def_poss r));
      simpl; try reflexivity; lia.
  - intros r. rewrite filter_In, Bool.orb_true_iff, !Z.leb_le. reflexivity.
  - exists (filter (fun r => negb ((a <=? r_off_poss r) || (a <=? r_def_poss r)))
                   ratings_df).
    split.
    + induction ratings_df as [|r rest IH]; simpl; [constructor|].
      destruct ((a <=? r_off_poss r) || (a <=? r_def_poss r)); simpl.
      * constructor. exact IH.
      * apply Permutation_cons_app. exact IH.
    + apply Forall_forall. intros r Hr. apply filter_In in Hr.
      destruct Hr as [_ Hr]. apply Bool.negb_true_iff, Bool.orb_false_iff in Hr.
      rewrite !Z.leb_gt in Hr. exact Hr.
Qed.

(** ** Bounds of the rim defense table *)

Module RimBounds.
Import Data CourtTime RimDefense Vocabulary Terms.

Lemma counted_well made defending D before pid :
  (forall s, before = Some s -> well_counted s) ->
  well_counted (counted made defending D before pid).
Proof.
  intros Hb. unfold counted.
  assert (Hs : forall s, (before = Some s /\ well_counted s)
                         \/ s = mk_stats 0 0 0 0 D ->
                         0 <= on_makes s <= on_attempts s
                         /\ 0 <= off_makes s <= off_attempts s).
  { intros s [[_ (H1 & H2 & _)]| ->]; simpl; [auto | lia]. }
  set (s := match before with Some s => s | None => mk_stats 0 0 0 0 D end).
  destruct (Hs s) as [Hon Hoff].
  { unfold s. destruct before as [s0|]; [left; auto | right; reflexivity]. }
  unfold well_counted, bump.
  destruct (existsb (Z.eqb pid) defending), made; simpl; lia.
Qed.

Lemma count_shot_well lineup_intervals player_teams ps shot :
  NoDup (map fst player_teams) ->
  all_well_counted ps ->
  all_well_counted (count_shot lineup_intervals player_teams ps shot).
Proof.
  intros Hpt Hps pid s.
  rewrite (RimDefenseFacts.count_shot_get _ _ _ _ _ Hpt).
  destruct (offTeamId shot); [|apply Hps].
  destruct (defTeamId shot) as [D|]; [|apply Hps].
  destruct (existsb _ _); [|apply Hps].
  intros [= <-]. apply counted_well. intros s0 H0. eapply Hps, H0.
Qed.

Lemma fold_count_shot_well lineup_intervals player_teams shots ps :
  NoDup (map fst player_teams) ->
  all_well_counted ps ->
  all_well_counted (fold_left (count_shot lineup_intervals player_teams) shots ps).
Proof.
  intros Hpt. revert ps. induction shots as [|shot rest IH]; simpl; intros ps H;
    [exact H|].
  apply IH, count_shot_well; assumption.
Qed.

(** The counters after all rim shots. *)
Lemma final_stats enhanced_pbp_df lineup_intervals :
  let ps := fold_left (count_shot lineup_intervals
                                  (_get_player_team_mapping lineup_intervals))
                      (filter is_rim_shot enhanced_pbp_df) [] in
  tallied (_get_player_team_mapping lineup_intervals)
          (filter is_rim_shot enhanced_pbp_df) ps
  /\ all_well_counted ps.
Proof.
  split.
  - apply (RimDefenseFacts.tallied_fold lineup_intervals _ _ [] []);
      [apply RimDefenseFacts.player_team_mapping_NoDup
      | apply RimDefenseFacts.tallied_start].
  - apply fold_count_shot_well;
      [apply RimDefenseFacts.player_team_mapping_NoDup|].
    intros pid s. simpl. discriminate.
Qed.

Lemma ratio_unit (makes attempts : Z) :
  0 <= makes <= attempts -> (0 <= ratio makes attempts /\ ratio makes attempts <= 1)%Q.
Proof.
  intros H. unfold ratio.
  set (d := if attempts =? 0 then 1 else attempts).
  assert (Hd : 0 < d /\ makes <= d).
  { unfold d. destruct (Z.eqb_spec attempts 0); lia. }
  assert (Hq : (0 < inject_Z d)%Q).
  { change 0%Q with (inject_Z 0). rewrite <- Zlt_Qlt. lia. }
  split.
  - apply Qle_shift_div_l; [exact Hq|]. rewrite Qmult_0_l.
    change 0%Q with (inject_Z 0). rewrite <- Zle_Qle. lia.
  - apply Qle_shift_div_r; [exact Hq|]. rewrite Qmult_1_l.
    rewrite <- Zle_Qle. lia.
Qed.

Lemma rows_keys (ps : player_stats) :
  map rr_playerId (map result_row ps) = map fst ps.
Proof.
  rewrite map_map. apply map_ext. intros [pid s]. reflexivity.
Qed.

Lemma keys_get {V : Type} (d : dict (K := Z) (V := V)) (k : Z) :
  In k (map fst d) <-> exists v, dict_get Z.eqb d k = Some v.
Proof.
  induction d as [|[k0 v0] r IH]; simpl.
  - split; [tauto | intros [v Hv]; discriminate].
  - destruct (k0 =? k) eqn:E.
    + apply Z.eqb_eq in E. split; eauto.
    + apply Z.eqb_neq in E. rewrite <- IH. tauto.
Qed.

End RimBounds.

Import CourtTime RimDefense.

(** X12. In every row of the output of track_rim_defense the makes lie
    between zero and the attempts in both buckets, the player has at least
    one attempt in all, the on-court and off-court percentages are empty or
    between 0 and 1, and the differential is a number between -1 and 1. *)
Theorem rim_rows_within_bounds
        (enhanced_pbp_df : list pbp_row) (lineup_intervals : list interval)
        (rows : list rim_row) (r : rim_row) :
  track_rim_defense enhanced_pbp_df lineup_intervals = Ok rows ->
  In r rows ->
  0 <= rim_fgm_on r <= rim_fga_on r
  /\ 0 <= rim_fgm_off r <= rim_fga_off r
  /\ 1 <= rim_fga_on r + rim_fga_off r
  /\ pct_cell_ok (rim_fg_pct_on r)
  /\ pct_cell_ok (rim_fg_pct_off r)
  /\ exists d, rim_fg_pct_diff r = Some d /\ (-(1) <= d /\ d <= 1)%Q.
Proof.
  intros H Hr. apply RimDefenseFacts.track_rim_defense_rows in H. subst rows.
  destruct (RimBounds.final_stats enhanced_pbp_df lineup_intervals)
    as [(Hnd & _ & _) Hwell].
  cbv zeta in Hnd, Hwell.
  apply in_map_iff in Hr. destruct Hr as ([pid s] & <- & Hin).
  apply (DictFacts.dict_get_In _ _ _ _ Hnd) in Hin.
  destruct (Hwell pid s Hin) as (Hon & Hoff & Hsum). simpl.
  destruct (RimBounds.ratio_unit _ _ Hon) as [Hon0 Hon1].
  destruct (RimBounds.ratio_unit _ _ Hoff) as [Hoff0 Hoff1].
  repeat split; try lia.
  - unfold where_positive. destruct (0 <? on_attempts s); simpl; auto.
  - unfold where_positive. destruct (0 <? off_attempts s); simpl; auto.
  - eexists. split; [reflexivity|]. split; lra.
Qed.

Lemma rim_rows_within_bounds_witness :
  exists r,
    track_rim_defense (Games.game_with_substitution 105 106) Games.court_intervals
    <> Raise KeyError
    /\ rr_playerId r = 105
    /\ 0 <= rim_fgm_on r <= rim_fga_on r
    /\ 1 <= rim_fga_on r + rim_fga_off r
    /\ pct_cell_ok (rim_fg_pct_on r).
Proof.
  destruct (track_rim_defense (Games.game_with_substitution 105 106)
                              Games.court_intervals) as [rows|] eqn:E;
    [|vm_compute in E; discriminate].
  destruct rows as [|r rest]; [vm_compute in E; discriminate|].
  exists r. split; [discriminate|].
  destruct (rim_rows_within_bounds _ _ _ r E (or_introl eq_refl))
    as (Hon & _ & Hsum & Hpct & _).
  split; [vm_compute in E; inversion E; reflexivity|].
  split; [exact Hon|]. split; [exact Hsum | exact Hpct].
Defined.

(** X13. track_rim_defense raises KeyError exactly when no player of the
    interval table belongs to a team against which a rim shot with known
    teams was attempted; otherwise its rows are, without repetition, the
    players of the interval table whose team faced at least one such
    shot. *)
Theorem rim_rows_are_the_challenged_players
        (enhanced_pbp_df : list pbp_row) (lineup_intervals : list interval) :
  (track_rim_defense enhanced_pbp_df lineup_intervals = Raise KeyError
   <-> forall pid, ~ challenged enhanced_pbp_df lineup_intervals pid)
  /\ forall rows,
       track_rim_defense enhanced_pbp_df lineup_intervals = Ok rows ->
       NoDup (map rr_playerId rows)
       /\ forall pid, In pid (map rr_playerId rows)
                      <-> challenged enhanced_pbp_df lineup_intervals pid.
Proof.
  destruct (RimBounds.final_stats enhanced_pbp_df lineup_intervals)
    as [(Hnd & Hsome & Hnone) Hwell].
  cbv zeta in Hnd, Hsome, Hnone, Hwell.
  set (ps := fold_left (count_shot lineup_intervals
                                   (_get_player_team_mapping lineup_intervals))
                       (filter is_rim_shot enhanced_pbp_df) []) in *.
  assert (Hmem : forall pid, In pid (map fst ps)
                             <-> challenged enhanced_pbp_df lineup_intervals pid).
  { intros pid. rewrite RimBounds.keys_get. split.
    - intros [s Hs]. destruct (Hsome pid s Hs) as (Hteam & Hsum & _).
      destruct (Hwell pid s Hs) as (_ & _ & Hone).
      exists (st_teamId s). split; [exact Hteam|].
      rewrite <- RimDefenseFacts.against_rim_shots. lia.
    - intros (t & Hteam & Hone).
      destruct (dict_get Z.eqb ps pid) as [s|] eqn:Es; [eauto|].
      destruct (Hnone pid t Hteam Es) as [Hzero _].
      rewrite RimDefenseFacts.against_rim_shots in Hzero. lia. }
  unfold track_rim_defense, _calculate_rim_defense_stats. fold ps.
  split.
  - destruct ps as [|e rest] eqn:Eps.
    + split; [|reflexivity]. intros _ pid Hc. apply Hmem in Hc. destruct Hc.
    + split; [discriminate|]. intros Hno. exfalso.
      apply (Hno (fst e)), Hmem. simpl. auto.
  - intros rows Hrows.
    assert (Hr : rows = map result_row ps)
      by (destruct ps; [discriminate | congruence]).
    subst rows. rewrite RimBounds.rows_keys. split; [exact Hnd | exact Hmem].
Qed.

Lemma rim_rows_are_the_challenged_players_witness :
  track_rim_defense Games.two_periods Games.court_intervals = Raise KeyError
  /\ ~ challenged Games.two_periods Games.court_intervals 101.
Proof.
  destruct (rim_rows_are_the_challenged_players
              Games.two_periods Games.court_intervals) as [[Hraise _] _].
  assert (E : track_rim_defense Games.two_periods Games.court_intervals
              = Raise KeyError) by (vm_compute; reflexivity).
  split; [exact E | exact (Hraise E 101)].
Defined.

(** ** Failures of the court-time tracker *)

Module CourtTimeErrors.
Import Data CourtTime Vocabulary Terms.

Lemma no_activity_raises (pbp_df : list pbp_row) :
  (forall r, In r pbp_df -> is_activity r = true -> names_no_player r) ->
  _get_player_activities pbp_df = Raise KeyError.
Proof.
  intros H. unfold _get_player_activities.
  match goal with
  | |- match ?l with _ => _ end = _ =>
      assert (Hnil : l = []); [|rewrite Hnil; reflexivity]
  end.
  induction pbp_df as [|r rest IH]; simpl; [reflexivity|].
  destruct (is_activity r) eqn:Ea.
  - simpl. destruct (H r (or_introl eq_refl) Ea) as (-> & -> & ->). simpl.
    apply IH. intros r' Hr'. apply H. simpl. auto.
  - apply IH. intros r' Hr'. apply H. simpl. auto.
Qed.

Lemma some_activity_succeeds (pbp_df : list pbp_row) :
  (exists r, In r pbp_df /\ is_activity r = true /\ ~ names_no_player r) ->
  exists acts, _get_player_activities pbp_df = Ok acts.
Proof.
  intros (r & Hr & Hact & Hp). unfold _get_player_activities.
  match goal with
  | |- exists _, match ?l with _ => _ end = _ =>
      assert (Hne : l <> []); [|destruct l; [congruence | eauto]]
  end.
  intros Hnil.
  assert (Hnone : forall a : activity, ~ In a
            (flat_map
               (fun r0 =>
                  flat_map
                    (fun c => match c with
                              | Some p =>
                                  [mk_activity (period r0) (wallClockInt r0) p
                                               (msgType r0)]
                              | None => []
                              end)
                    [playerId1 r0; playerId2 r0; playerId3 r0])
               (filter is_activity pbp_df))).
  { intros a. rewrite Hnil. simpl. tauto. }
  apply Hp. unfold names_no_player.
  assert (Hcell : forall c, In c [playerId1 r; playerId2 r; playerId3 r] ->
                            c = None).
  { intros [p|] Hc; [|reflexivity]. exfalso.
    apply (Hnone (mk_activity (period r) (wallClockInt r) p (msgType r))).
    apply in_flat_map. exists r. split; [apply filter_In; auto|].
    apply in_flat_map. exists (Some p). simpl. auto. }
  repeat split; apply Hcell; simpl; auto.
Qed.

Lemma sub_players_outcome (sub : sub_event) :
  sub_players sub = Raise ValueError \/ exists oi, sub_players sub = Ok oi.
Proof.
  unfold sub_players.
  destruct (se_playerId1 sub), (se_playerId2 sub); eauto.
Qed.

Lemma incomplete_event (pbp_df : list pbp_row) (r : pbp_row) :
  In r pbp_df -> incomplete_substitution r ->
  exists sub, In sub (_get_substitution_events pbp_df)
              /\ sub_players sub = Raise ValueError.
Proof.
  intros Hr [Hm Hp].
  exists (mk_sub_event (period r) (wallClockInt r) (playerId1 r) (playerId2 r)).
  split.
  - unfold _get_substitution_events. apply sort_values_In, in_map_iff.
    exists r. split; [reflexivity|].
    apply filter_In. split; [exact Hr|]. rewrite Hm. reflexivity.
  - unfold sub_players. simpl.
    destruct Hp as [-> | ->]; [reflexivity|].
    destruct (playerId1 r); reflexivity.
Qed.

End CourtTimeErrors.

(** X14. track_lineup_states raises KeyError when no activity row (msgType
    1 to 7) of the play-by-play names a player, whatever the box score; and
    when some activity row names a player but a substitution row lacks one
    of its two players, it raises ValueError. *)
Theorem court_tracker_failures
        (box_score_df : list box_row) (pbp_df : list pbp_row) :
  ((forall r, In r pbp_df -> is_activity r = true -> names_no_player r) ->
   track_lineup_states box_score_df pbp_df = Raise KeyError)
  /\ ((exists r, In r pbp_df /\ is_activity r = true /\ ~ names_no_player r) ->
      (exists r, In r pbp_df /\ incomplete_substitution r) ->
      track_lineup_states box_score_df pbp_df = Raise ValueError).
Proof.
  split.
  - intros H. unfold track_lineup_states.
    rewrite (CourtTimeErrors.no_activity_raises _ H). reflexivity.
  - intros Hact (r & Hr & Hinc). unfold track_lineup_states.
    destruct (CourtTimeErrors.some_activity_succeeds _ Hact) as [acts ->].
    simpl. unfold _build_hybrid_intervals.
    destruct pbp_df as [|first rest] eqn:Epbp; [destruct Hr|].
    rewrite <- Epbp in *.
    destruct (CourtTimeErrors.incomplete_event _ _ Hr Hinc) as (sub & Hsub & Hraise).
    rewrite (LineupStateFacts.mapM_raises
               (substitution_changes (_get_team_mapping box_score_df))
               (_get_substitution_events pbp_df) ValueError); [reflexivity| |].
    + intros x _. unfold substitution_changes.
      destruct (CourtTimeErrors.sub_players_outcome x) as [-> | [[o i] ->]];
        simpl; eauto.
    + exists sub. split; [exact Hsub|]. unfold substitution_changes.
      rewrite Hraise. reflexivity.
Qed.

Lemma court_tracker_failures_witness :
  track_lineup_states Games.box_score MoreGames.only_period_end = Raise KeyError
  /\ track_lineup_states Games.box_score MoreGames.substitution_without_partner
     = Raise ValueError.
Proof.
  split.
  - apply (court_tracker_failures Games.box_score MoreGames.only_period_end).
    intros r [<-|[]] Hact. vm_compute in Hact. discriminate.
  - apply (court_tracker_failures Games.box_score
                                  MoreGames.substitution_without_partner).
    + exists (Games.play 1 700 1100 1 2 "HOU" (Some 1) (Some 2) (Some 101)
                         None 0 false).
      split; [simpl; auto|]. split; [reflexivity|].
      intros (H & _). discriminate.
    + exists (Games.play 1 600 1500 2 8 "HOU" (Some 1) (Some 2) (Some 105)
                         None 0 false).
      split; [simpl; auto|]. split; [reflexivity | right; reflexivity].
Defined.

(** ** The court-time intervals of a game without substitution rows *)

Module NoSubstitutions.
Import Data CourtTime Vocabulary Terms.

Lemma no_substitution_events (pbp_df : list pbp_row) :
  (forall r, In r pbp_df -> msgType r <> 8) ->
  _get_substitution_events pbp_df = [].
Proof.
  intros H. unfold _get_substitution_events.
  replace (filter (fun r => msgType r =? 8) pbp_df) with (@nil pbp_row);
    [reflexivity|].
  symmetry. induction pbp_df as [|r rest IH]; simpl; [reflexivity|].
  destruct (Z.eqb_spec (msgType r) 8) as [E|_].
  - exfalso. apply (H r); simpl; auto.
  - apply IH. intros r' Hr'. apply H. simpl. auto.
Qed.

Lemma infer_loop_activities tm (events : list event) acc :
  Forall (fun e => match e with
                   | Activity _ _ _ _ => True
                   | Substitution _ _ _ _ => False
                   end) events ->
  infer_loop tm events [] acc = acc.
Proof.
  induction 1 as [|e rest He _ IH]; simpl; [reflexivity|].
  destruct e; [destruct He | exact IH].
Qed.

Lemma entries_set_In {V : Type} (d : dict (K := Z) (V := V)) (k : Z) (v : V)
      (k' : Z) (v' : V) :
  In (k', v') (dict_set Z.eqb d k v) -> In (k', v') d \/ (k' = k /\ v' = v).
Proof.
  induction d as [|[k0 v0] r IH]; simpl.
  - intros [[= <- <-]|[]]. auto.
  - destruct (Z.eqb_spec k0 k) as [->|_]; simpl.
    + intros [[= <- <-]|H]; auto.
    + intros [H|H]; [auto|]. destruct (IH H); auto.
Qed.

Lemma intervals_loop_starts (P : Z -> Z * option Z * Z -> Prop) game_id
      (changes : list status_change) (et : entry_times) (ivs : list interval) :
  Forall (fun c => sc_action c = START
                   /\ P (sc_playerId c)
                        (sc_period c, sc_wallClockInt c, sc_teamId c)) changes ->
  (forall k v, In (k, v) et -> P k v) ->
  snd (intervals_loop game_id changes et ivs) = ivs
  /\ forall k v, In (k, v) (fst (intervals_loop game_id changes et ivs)) -> P k v.
Proof.
  intros Hall. revert et. induction Hall as [|c rest [Hact Hc] _ IH];
    intros et Het; simpl; [auto|].
  rewrite Hact. apply IH. intros k v Hin.
  apply entries_set_In in Hin. destruct Hin as [Hin|[-> ->]]; auto.
Qed.

Lemma series_max_ones (l : list Z) :
  l <> [] -> Forall (fun x => x = 1) l -> series_max l = Some 1.
Proof.
  destruct l as [|x r]; [congruence|]. intros _ Hall.
  inversion Hall as [|? ? Hx Hr]; subst. simpl. f_equal. clear Hall.
  induction Hr as [|y r Hy _ IH]; simpl; [reflexivity|].
  subst y. exact IH.
Qed.

Lemma starter_changes_shape starters w c :
  In c (starter_changes starters w) ->
  sc_action c = START /\ sc_period c = 1
  /\ exists s, In (sc_teamId c, s) starters /\ In (sc_playerId c) s.
Proof.
  unfold starter_changes. intros H. apply in_flat_map in H.
  destruct H as ([t s] & Hts & Hc). apply in_map_iff in Hc.
  destruct Hc as (pid & <- & Hpid). simpl. eauto.
Qed.

(** The intervals of a game without substitution rows. *)
Lemma intervals_shape
        (box_score_df : list box_row) (pbp_df : list pbp_row)
        (intervals : list interval) (i : interval) :
  (forall r, In r pbp_df -> msgType r <> 8) ->
  track_lineup_states box_score_df pbp_df = Ok intervals ->
  In i intervals ->
  period_start i = 1 /\ period_end i = 1
  /\ exists s, In (i_teamId i, s) (_get_starting_lineups box_score_df)
               /\ In (i_playerId i) s.
Proof.
  intros Hno H Hi. unfold track_lineup_states in H.
  destruct (_get_player_activities pbp_df) as [acts|]; simpl in H;
    [|discriminate].
  rewrite (no_substitution_events _ Hno) in H.
  unfold _build_hybrid_intervals in H.
  destruct pbp_df as [|first rest] eqn:Epbp; [discriminate|].
  rewrite <- Epbp in *. simpl in H.
  rewrite infer_loop_activities in H.
  2:{ apply Forall_forall. intros e He. apply sort_values_In in He.
      apply in_map_iff in He. destruct He as (a & <- & _). exact I. }
  rewrite app_nil_r in H.
  set (w0 := series_min (wallClocks_of_period pbp_df 1)) in *.
  set (starters := _get_starting_lineups box_score_df) in *.
  destruct (starter_changes starters w0) as [|c0 cs] eqn:Ec; [discriminate|].
  rewrite <- Ec in H. inversion H as [Hiv]. clear H.
  set (sorted := sort_values change_leb (starter_changes starters w0)) in *.
  assert (Hshape : forall c, In c sorted ->
                             sc_action c = START /\ sc_period c = 1
                             /\ exists s, In (sc_teamId c, s) starters
                                          /\ In (sc_playerId c) s).
  { intros c Hc. apply sort_values_In in Hc.
    eapply starter_changes_shape, Hc. }
  assert (Hne : sorted <> []).
  { intros Hnil. assert (Hin : In c0 sorted).
    { apply sort_values_In. rewrite Ec. simpl. auto. }
    rewrite Hnil in Hin. destruct Hin. }
  unfold _build_intervals_from_status_changes in Hiv.
  destruct (intervals_loop_starts
              (fun k v => fst (fst v) = 1
                          /\ exists s, In (snd v, s) starters /\ In k s)
              (gameId first) sorted [] []) as [Hivs Hentries].
  { apply Forall_forall. intros c Hc.
    destruct (Hshape c Hc) as (Ha & Hp & Hs). simpl. auto. }
  { intros k v []. }
  destruct (intervals_loop (gameId first) sorted [] []) as [et ivs].
  simpl in Hivs, Hentries. subst ivs.
  rewrite (series_max_ones (map sc_period sorted)) in Hiv.
  2:{ destruct sorted; [congruence | discriminate]. }
  2:{ apply Forall_forall. intros x Hx. apply in_map_iff in Hx.
      destruct Hx as (c & <- & Hc). apply (Hshape c Hc). }
  subst intervals. simpl in Hi. apply in_map_iff in Hi.
  destruct Hi as ([k [[ep ew] tid]] & <- & He).
  destruct (Hentries _ _ He) as [Hep Hs]. simpl in *.
  split; [exact Hep|]. split; [reflexivity | exact Hs].
Qed.

Lemma ended_interval_covers_nothing_later (i : interval) (p w : Z) :
  period_end i = 1 -> 2 <= p -> covers p w i = false.
Proof.
  intros He Hp. unfold covers. rewrite He.
  replace (p <=? 1) with false by (symmetry; apply Z.leb_gt; lia).
  rewrite Bool.andb_false_r. reflexivity.
Qed.

End NoSubstitutions.

(** X15. On a play-by-play without substitution rows, every interval that
    track_lineup_states returns belongs to a starter, begins in period 1
    and also ends in period 1: the closing period of the players still on
    court is the largest period among the status changes, not among the
    rows of the game.  No such interval covers an instant of a later
    period. *)
Theorem without_substitutions_intervals_end_in_period_one
        (box_score_df : list box_row) (pbp_df : list pbp_row)
        (intervals : list interval) (i : interval) :
  (forall r, In r pbp_df -> msgType r <> 8) ->
  track_lineup_states box_score_df pbp_df = Ok intervals ->
  In i intervals ->
  period_start i = 1 /\ period_end i = 1
  /\ (exists s, In (i_teamId i, s) (_get_starting_lineups box_score_df)
                /\ In (i_playerId i) s)
  /\ forall p w, 2 <= p -> covers p w i = false.
Proof.
  intros Hno H Hi.
  destruct (NoSubstitutions.intervals_shape _ _ _ _ Hno H Hi)
    as (Hstart & Hend & Hstarter).
  split; [exact Hstart|]. split; [exact Hend|]. split; [exact Hstarter|].
  intros p w Hp.
  apply NoSubstitutions.ended_interval_covers_nothing_later; assumption.
Qed.

Lemma without_substitutions_intervals_end_in_period_one_witness :
  exists intervals,
    track_lineup_states Games.box_score Games.two_periods = Ok intervals
    /\ forall i, In i intervals ->
                 period_end i = 1 /\ covers 2 3000 i = false.
Proof.
  destruct (track_lineup_states Games.box_score Games.two_periods)
    as [intervals|] eqn:E; [|vm_compute in E; discriminate].
  exists intervals. split; [reflexivity|]. intros i Hi.
  destruct (without_substitutions_intervals_end_in_period_one
              Games.box_score Games.two_periods intervals i)
    as (_ & Hend & _ & Hcov); [| exact E | exact Hi |].
  - intros r Hr. simpl in Hr.
    repeat (destruct Hr as [<-|Hr]; [simpl; discriminate|]). destruct Hr.
  - split; [exact Hend | apply Hcov; lia].
Defined.

(** ** Re-entries inferred from activity *)

Module InferenceFacts.
Import Data CourtTime Vocabulary Terms.

Lemma event_leb_trans (a b c : event) :
  no_later a b -> no_later b c -> no_later a c.
Proof.
  unfold no_later, event_leb.
  destruct (Z.ltb_spec (event_period a) (event_period b));
    destruct (Z.ltb_spec (event_period b) (event_period a));
    destruct (Z.ltb_spec (event_period b) (event_period c));
    destruct (Z.ltb_spec (event_period c) (event_period b));
    destruct (Z.ltb_spec (event_period a) (event_period c));
    destruct (Z.ltb_spec (event_period c) (event_period a));
    try reflexivity; try discriminate; try lia;
    rewrite !Z.leb_le; lia.
Qed.

Lemma event_leb_total (a b : event) :
  event_leb a b = true \/ event_leb b a = true.
Proof.
  unfold event_leb.
  destruct (Z.ltb_spec (event_period a) (event_period b));
    destruct (Z.ltb_spec (event_period b) (event_period a));
    auto; lia.
Qed.

Lemma sorted_events (l : list event) :
  StronglySorted no_later (sort_values event_leb l).
Proof.
  apply Sorted_StronglySorted; [exact event_leb_trans|].
  apply sort_values_sorted, event_leb_total.
Qed.

Lemma infer_loop_sound tm (all_events events : list event) status acc :
  StronglySorted no_later events ->
  incl events all_events ->
  out_by_substitution all_events events status ->
  (forall c, In c acc -> inferred_after_exit tm all_events c) ->
  forall c, In c (infer_loop tm events status acc) ->
            inferred_after_exit tm all_events c.
Proof.
  intros Hs. revert status acc.
  induction Hs as [|e rest Hs IH Hhd]; intros status acc Hincl Hout Hacc;
    simpl; [exact Hacc|].
  assert (Hincl' : incl rest all_events)
    by (intros x Hx; apply Hincl; simpl; auto).
  assert (Hkeep : out_by_substitution all_events rest status).
  { intros k Hk. destruct (Hout k Hk) as (p & w & i & Hin & Hle).
    exists p, w, i. split; [exact Hin|]. intros x Hx. apply Hle. simpl. auto. }
  rewrite Forall_forall in Hhd.
  destruct e as [p w player_out player_in | p w player_id msg_type].
  - apply IH; [exact Hincl' | | exact Hacc].
    intros k Hk. rewrite !DictFacts.dict_get_set in Hk.
    destruct (player_in =? k); [discriminate|].
    destruct (Z.eqb_spec player_out k) as [->|_]; [|apply Hkeep, Hk].
    exists p, w, player_in. split; [apply Hincl; simpl; auto | exact Hhd].
  - destruct (dict_get Z.eqb status player_id) as [[| |]|] eqn:Est;
      try (apply IH; assumption).
    destruct (known_team tm player_id) as [t|] eqn:Et;
      [|apply IH; assumption].
    apply IH; [exact Hincl' | |].
    + intros k Hk. rewrite DictFacts.dict_get_set in Hk.
      destruct (player_id =? k); [discriminate | apply Hkeep, Hk].
    + intros c Hc. apply in_app_or in Hc. destruct Hc as [Hc|[<-|[]]];
        [apply Hacc, Hc|].
      destruct (Hout player_id Est) as (p0 & w0 & i0 & Hin & Hle).
      unfold inferred_after_exit. simpl.
      repeat split; [exact Et|].
      exists p0, w0, i0, w, msg_type.
      repeat split; [exact Hin | apply Hincl; simpl; auto
                     | apply Hle; simpl; auto].
Qed.

Lemma substitution_event_source (substitutions : list sub_event)
      (sub_events : list event) p w player_out player_in :
  mapM (fun sub =>
          oi <- sub_players sub ;;
          Ok (Substitution (se_period sub) (se_wallClockInt sub)
                           (fst oi) (snd oi)))
       substitutions = Ok sub_events ->
  In (Substitution p w player_out player_in) sub_events ->
  exists sub, In sub substitutions
              /\ se_period sub = p /\ se_wallClockInt sub = w
              /\ se_playerId1 sub = Some player_out
              /\ se_playerId2 sub = Some player_in.
Proof.
  intros H Hin. apply mapM_Ok_Forall2 in H.
  destruct (Forall2_In_r _ _ _ _ H Hin) as (sub & Hsub & Hf).
  exists sub. split; [exact Hsub|]. unfold sub_players in Hf.
  destruct (se_playerId1 sub), (se_playerId2 sub); simpl in Hf;
    try discriminate.
  inversion Hf; subst. auto.
Qed.

End InferenceFacts.

(** X16. Every entry that _infer_reentries_from_activity returns is an IN
    marked inferred_from_activity for a player with a known team, placed
    at the period and wall clock of one of that player's activity rows,
    and that player was taken out (playerId1, as this module reads it) by
    a substitution that comes no later than that activity: a player never
    substituted out gets no inferred entry. *)
Theorem inferred_entry_follows_an_exit
        (activities : list activity) (substitutions : list sub_event)
        (team_mapping : dict (K := Z) (V := Z))
        (entries : list status_change) (c : status_change) :
  _infer_reentries_from_activity activities substitutions team_mapping
  = Ok entries ->
  In c entries ->
  sc_action c = IN
  /\ sc_source c = inferred_from_activity
  /\ known_team team_mapping (sc_playerId c) = Some (sc_teamId c)
  /\ exists sub a,
       In sub substitutions /\ In a activities
       /\ se_playerId1 sub = Some (sc_playerId c)
       /\ a_playerId a = sc_playerId c
       /\ a_period a = sc_period c
       /\ sc_wallClockInt c = Some (a_wallClockInt a)
       /\ (se_period sub < a_period a
           \/ (se_period sub = a_period a
               /\ se_wallClockInt sub <= a_wallClockInt a)).
Proof.
  unfold _infer_reentries_from_activity. intros H Hc.
  destruct (mapM _ substitutions) as [sub_events|] eqn:Em; simpl in H;
    [|discriminate].
  inversion H as [Hentries]. clear H. subst entries.
  set (all_events := sort_values event_leb
                       (sub_events
                        ++ map (fun a => Activity (a_period a) (a_wallClockInt a)
                                                  (a_playerId a) (a_msgType a))
                               activities)) in *.
  pose proof (InferenceFacts.infer_loop_sound
                team_mapping all_events all_events [] []
                (InferenceFacts.sorted_events _) (incl_refl _)) as Hsound.
  destruct (Hsound) with (c := c)
    as (Hact & Hsrc & Hteam & p & w & i & wa & m & Hsub & Ha & Hw & Hle);
    [intros k Hk; discriminate | intros x [] | exact Hc |].
  split; [exact Hact|]. split; [exact Hsrc|]. split; [exact Hteam|].
  apply sort_values_In, in_app_or in Hsub.
  destruct Hsub as [Hsub|Hsub];
    [|apply in_map_iff in Hsub; destruct Hsub as (? & ? & _); discriminate].
  destruct (InferenceFacts.substitution_event_source _ _ _ _ _ _ Em Hsub)
    as (sub & Hin & Hp & Hwall & H1 & _).
  apply sort_values_In, in_app_or in Ha.
  destruct Ha as [Ha|Ha].
  { apply mapM_Ok_Forall2 in Em.
    destruct (Forall2_In_r _ _ _ _ Em Ha) as (s0 & _ & Hf).
    destruct (sub_players s0); simpl in Hf; discriminate. }
  apply in_map_iff in Ha. destruct Ha as (a & Ha & Hain).
  injection Ha as Hper Hwa Hpid Hmsg. subst p w wa.
  unfold no_later, event_leb in Hle. simpl in Hle. rewrite <- Hper in Hle.
  exists sub, a.
  split; [exact Hin|]. split; [exact Hain|]. split; [exact H1|].
  split; [exact Hpid|]. split; [exact Hper|]. split; [exact Hw|].
  destruct (Z.ltb_spec (se_period sub) (a_period a)); [left; assumption|].
  destruct (Z.ltb_spec (a_period a) (se_period sub)); [discriminate|].
  apply Z.leb_le in Hle. right. lia.
Qed.

Lemma inferred_entry_follows_an_exit_witness :
  exists acts entries,
    _get_player_activities MoreGames.unrecorded_reentry = Ok acts
    /\ _infer_reentries_from_activity
         acts (_get_substitution_events MoreGames.unrecorded_reentry)
         (_get_team_mapping Games.box_score) = Ok entries
    /\ exists sub,
         In sub (_get_substitution_events MoreGames.unrecorded_reentry)
         /\ se_playerId1 sub = Some 105
         /\ se_period sub <= 1.
Proof.
  destruct (_get_player_activities MoreGames.unrecorded_reentry)
    as [acts|] eqn:Ea; [|vm_compute in Ea; discriminate].
  destruct (_infer_reentries_from_activity
              acts (_get_substitution_events MoreGames.unrecorded_reentry)
              (_get_team_mapping Games.box_score)) as [entries|] eqn:Ee;
    [|vm_compute in Ea; inversion Ea; subst acts; vm_compute in Ee;
      discriminate].
  exists acts, entries. split; [reflexivity|]. split; [exact Ee|].
  destruct (inferred_entry_follows_an_exit
              acts (_get_substitution_events MoreGames.unrecorded_reentry)
              (_get_team_mapping Games.box_score) entries
              (mk_change 1 (Some 2000) 105 1 IN inferred_from_activity) Ee)
    as (_ & _ & _ & sub & a & Hsub & Ha & H1 & Hpid & Hper & Hw & Hord).
  - vm_compute in Ea. inversion Ea; subst acts.
    vm_compute in Ee. inversion Ee. simpl. auto.
  - exists sub. split; [exact Hsub|]. split; [exact H1|].
    simpl in Hper. lia.
Defined.

(** ** players/transformers/possessions.py: possession boundaries *)

Module SegmentFacts.
Import Data CourtTime PlayerPossessions Vocabulary Terms.

Section Segments.
Variable flagrant : pbp_row -> bool.

Lemma ends_never_game_end (e : pbp_row) (next : option pbp_row) :
  ends_possession flagrant e next <> Some game_end.
Proof.
  unfold ends_possession.
  repeat match goal with
         | |- context [if ?c then _ else _] => destruct c
         | |- context [match ?o with Some _ => _ | None => _ end] => destruct o
         end; discriminate.
Qed.

Lemma last_of_suffix {A : Type} (l rest : list A) :
  rest <> [] -> hd_error (rev (l ++ rest)) = hd_error (rev rest).
Proof.
  intros Hne. rewrite rev_app_distr.
  destruct (rev rest) as [|x r] eqn:E; [|reflexivity].
  exfalso. apply Hne. rewrite <- (rev_involutive rest), E. reflexivity.
Qed.

Lemma no_early_end_nil (following : list pbp_row) :
  no_early_end flagrant [] following.
Proof. intros b1 e b2 H. destruct b1; discriminate. Qed.

Lemma no_early_end_snoc (evs : list pbp_row) (e : pbp_row)
      (rest : list pbp_row) :
  no_early_end flagrant evs (e :: rest) ->
  ends_possession flagrant e (hd_error rest) = None ->
  no_early_end flagrant (evs ++ [e]) rest.
Proof.
  intros Hevs He b1 x b2 Hsplit.
  destruct (exists_last (l := x :: b2)) as (b2' & y & Hb2); [discriminate|].
  destruct b2 as [|z b2z].
  - assert (Hx : evs = b1 /\ e = x).
    { apply app_inj_tail. rewrite Hsplit. reflexivity. }
    destruct Hx as [_ <-]. exact He.
  - destruct (exists_last (l := z :: b2z)) as (b2'' & y' & Hb2'');
      [discriminate|].
    rewrite Hb2'' in *.
    assert (Hx : evs = b1 ++ x :: b2'' /\ e = y').
    { apply app_inj_tail. rewrite Hsplit, <- app_assoc. reflexivity. }
    destruct Hx as [Hevs' <-].
    rewrite <- app_assoc. simpl. apply (Hevs b1 x b2'' Hevs').
Qed.

Lemma open_ok_first (n : nat) (rows : list pbp_row) (c : open_possession) :
  open_ok flagrant n rows (Some c) -> o_events c <> [].
Proof. intros (_ & _ & first & more & -> & _). discriminate. Qed.

(** The possessions that the loop and the closing step add cut the
    stream that is still to be attributed. *)
Lemma identify_loop_segments (rows : list pbp_row) :
  forall (ps : list possession) (cur : option open_possession)
         (final : option pbp_row),
    open_ok flagrant (length ps) rows cur ->
    (open_events cur ++ rows <> [] ->
     final = hd_error (rev (open_events cur ++ rows))) ->
    exists new,
      finished (identify_loop flagrant rows ps cur) final = ps ++ new
      /\ segmentation flagrant (Z.of_nat (length ps) + 1)
                      (open_events cur ++ rows) new.
Proof.
  induction rows as [|e rest IH]; intros ps cur final Hok Hfinal.
  - simpl. unfold finished. simpl. destruct cur as [c|]; simpl in *.
    + destruct Hok as (Hid & Hno & first & more & Hev & Hstart).
      destruct (exists_last (l := o_events c)) as (before & last & Hlast);
        [rewrite Hev; discriminate|].
      rewrite app_nil_r in *.
      rewrite Hfinal by (rewrite Hev; discriminate).
      replace (hd_error (rev (o_events c))) with (Some last)
        by (rewrite Hlast, rev_app_distr; reflexivity).
      eexists. split; [reflexivity|]. simpl.
      split; [exact Hid|].
      exists before, last, []. split; [exact Hlast|].
      split; [|split; [|split; [|reflexivity]]].
      * unfold spans. simpl. repeat split; try assumption.
        exists first. rewrite Hev. simpl. tauto.
      * intros b1 x b2 Hsplit.
        specialize (Hno b1 x (b2 ++ [last])).
        rewrite app_nil_r in Hno. apply Hno.
        rewrite Hlast, Hsplit, <- app_assoc. reflexivity.
      * split; [reflexivity|].
        apply (Hno before last []). exact Hlast.
    + exists []. rewrite app_nil_r. split; reflexivity.
  - simpl identify_loop.
    set (c1 := add_event (match cur with
                          | Some c => c
                          | None => start_possession ps e
                          end) e).
    assert (Hc1 : o_possession_id c1 = Z.of_nat (length ps) + 1
                  /\ o_events c1 = open_events cur ++ [e]
                  /\ no_early_end flagrant (open_events cur) (e :: rest)
                  /\ exists first more,
                       o_events c1 = first :: more
                       /\ o_start_period c1 = period first
                       /\ o_start_wallClock c1 = wallClockInt first
                       /\ o_offensive_team c1 = offTeamId first
                       /\ o_defensive_team c1 = defTeamId first).
    { unfold c1. destruct cur as [c|]; simpl in *.
      - destruct Hok as (Hid & Hno & first & more & Hev & Hstart).
        repeat split; try assumption.
        exists first, (more ++ [e]). rewrite Hev. simpl. tauto.
      - repeat split; [apply no_early_end_nil|].
        exists e, []. simpl. tauto. }
    destruct Hc1 as (Hid & Hev & Hno & first & more & Hfirst & Hstart).
    destruct (ends_possession flagrant e (hd_error rest)) as [reason|] eqn:Eend.
    + set (p := close_possession c1 e reason).
      destruct (IH (ps ++ [p]) None final I) as (new & Hout & Hseg).
      { simpl. intros Hne. rewrite Hfinal by (destruct (open_events cur); discriminate).
        apply last_of_suffix with (l := open_events cur ++ [e]) in Hne.
        rewrite <- app_assoc in Hne. exact Hne. }
      exists (p :: new). split; [rewrite Hout, <- app_assoc; reflexivity|].
      simpl. split; [exact Hid|].
      exists (open_events cur), e, rest. split; [reflexivity|].
      split; [|split; [exact Hno|split]].
      * unfold spans, p.
        cbn [close_possession events event_count end_period end_wallClock
             start_period start_wallClock offensive_team defensive_team].
        split; [exact Hev|]. repeat (split; [reflexivity|]).
        exists first. rewrite Hfirst. split; [reflexivity | exact Hstart].
      * destruct reason; try exact Eend.
        exfalso. eapply ends_never_game_end, Eend.
      * simpl in Hseg. rewrite length_app in Hseg. simpl in Hseg.
        replace (Z.of_nat (length ps) + 1 + 1)
          with (Z.of_nat (length ps + 1) + 1) by lia.
        exact Hseg.
    + destruct (IH ps (Some c1) final) as (new & Hout & Hseg).
      { unfold open_ok. split; [exact Hid|]. split.
        - rewrite Hev. apply no_early_end_snoc; assumption.
        - exists first, more. split; [exact Hfirst | exact Hstart]. }
      { cbn [open_events]. rewrite Hev, <- app_assoc. exact Hfinal. }
      exists new. split; [exact Hout|].
      cbn [open_events] in Hseg. rewrite Hev, <- app_assoc in Hseg. exact Hseg.
Qed.

Lemma identify_is_finished (pbp_df : list pbp_row) :
  _identify_possessions flagrant pbp_df
  = finished (identify_loop flagrant (sort_values event_order_leb pbp_df) [] None)
             (hd_error (rev (sort_values event_order_leb pbp_df))).
Proof.
  unfold _identify_possessions, finished.
  destruct (identify_loop _ _ _ _) as [ps cur]. simpl.
  destruct cur; [|reflexivity].
  destruct (rev _); reflexivity.
Qed.

Lemma identify_segments (pbp_df : list pbp_row) :
  segmentation flagrant 1 (sort_values event_order_leb pbp_df)
               (_identify_possessions flagrant pbp_df).
Proof.
  rewrite identify_is_finished.
  destruct (identify_loop_segments
              (sort_values event_order_leb pbp_df) [] None
              (hd_error (rev (sort_values event_order_leb pbp_df))))
    as (new & Hout & Hseg); [exact I | reflexivity |].
  rewrite Hout. exact Hseg.
Qed.

Lemma segmentation_events (ps : list possession) :
  forall k stream,
    segmentation flagrant k stream ps -> concat (map events ps) = stream.
Proof.
  induction ps as [|p rest IH]; simpl; intros k stream H; [congruence|].
  destruct H as (_ & before & final & following & -> & Hspan & _ & _ & Hrest).
  destruct Hspan as (-> & _). rewrite (IH _ _ Hrest), <- app_assoc.
  reflexivity.
Qed.

Lemma segmentation_ids (ps : list possession) :
  forall k stream,
    segmentation flagrant k stream ps ->
    map possession_id ps = ids_from k (length ps).
Proof.
  induction ps as [|p rest IH]; simpl; intros k stream H; [reflexivity|].
  destruct H as (Hid & before & final & following & _ & _ & _ & _ & Hrest).
  rewrite PossessionFacts.ids_from_S, Hid, (IH _ _ Hrest). reflexivity.
Qed.

Lemma segmentation_at (l1 : list possession) :
  forall k stream p l2,
    segmentation flagrant k stream (l1 ++ p :: l2) ->
    exists before final,
      spans p before final
      /\ no_early_end flagrant before (final :: concat (map events l2))
      /\ match end_reason_of p with
         | game_end =>
             l2 = [] /\ ends_possession flagrant final None = None
         | reason =>
             ends_possession flagrant final
                             (hd_error (concat (map events l2)))
             = Some reason
         end.
Proof.
  induction l1 as [|a l1 IH]; simpl; intros k stream p l2 H.
  - destruct H as (_ & before & final & following & _ & Hspan & Hno & Hend & Hrest).
    pose proof (segmentation_events _ _ _ Hrest) as Hfol.
    exists before, final. split; [exact Hspan|]. rewrite Hfol.
    split; [exact Hno|].
    destruct (end_reason_of p); try exact Hend.
    destruct Hend as [-> Hend]. split; [|exact Hend].
    destruct l2 as [|q l2]; [reflexivity|]. simpl in Hrest.
    destruct Hrest as (_ & b & f & fo & Hnil & _).
    destruct b; discriminate.
  - destruct H as (_ & before & final & following & _ & _ & _ & _ & Hrest).
    eapply IH, Hrest.
Qed.

End Segments.
End SegmentFacts.

Import PlayerPossessions.

(** X17. _identify_possessions cuts the rows, sorted by period and wall
    clock, into consecutive non-empty runs: the events of the possessions,
    concatenated in output order, are the sorted rows, so every row
    belongs to exactly one possession; the possession ids are 1, 2, ..., N;
    and each possession starts with the period, wall clock and teams of
    its first event, ends with the period and wall clock of its last
    event, and counts its events. *)
Theorem possessions_partition_the_sorted_rows
        (flagrant : pbp_row -> bool) (pbp_df : list pbp_row) :
  concat (map events (_identify_possessions flagrant pbp_df))
  = sort_values event_order_leb pbp_df
  /\ map possession_id (_identify_possessions flagrant pbp_df)
     = map Z.of_nat (seq 1 (length (_identify_possessions flagrant pbp_df)))
  /\ forall p, In p (_identify_possessions flagrant pbp_df) ->
               exists before final, spans p before final.
Proof.
  pose proof (SegmentFacts.identify_segments flagrant pbp_df) as Hseg.
  split; [|split].
  - eapply SegmentFacts.segmentation_events, Hseg.
  - rewrite <- PossessionPipeline.ids_from_one.
    eapply SegmentFacts.segmentation_ids, Hseg.
  - intros p Hp. apply in_split in Hp. destruct Hp as (l1 & l2 & Hsplit).
    rewrite Hsplit in Hseg.
    destruct (SegmentFacts.segmentation_at _ _ _ _ _ _ Hseg)
      as (before & final & Hspan & _).
    eauto.
Qed.

(** X18. A possession of _identify_possessions ends at the first of its
    events that ends a possession: no earlier event of it does, tested
    against the row that follows it.  A possession closed as game_end is
    the last one, and its last event ends nothing.  A possession closed as
    defensive_rebound ends on the missed shot itself, and the rebound row
    is the first event of the next possession. *)
Theorem possession_ends_at_first_ending_event
        (flagrant : pbp_row -> bool) (pbp_df : list pbp_row)
        (l1 : list possession) (p : possession) (l2 : list possession) :
  _identify_possessions flagrant pbp_df = l1 ++ p :: l2 ->
  exists before final,
    events p = before ++ [final]
    /\ no_early_end flagrant before (final :: concat (map events l2))
    /\ (end_reason_of p = game_end ->
        l2 = [] /\ ends_possession flagrant final None = None)
    /\ (end_reason_of p <> game_end ->
        ends_possession flagrant final (hd_error (concat (map events l2)))
        = Some (end_reason_of p))
    /\ (end_reason_of p = defensive_rebound ->
        msgType final = 2
        /\ exists next q l3,
             l2 = q :: l3 /\ hd_error (events q) = Some next
             /\ msgType next = 4).
Proof.
  intros Hsplit.
  pose proof (SegmentFacts.identify_segments flagrant pbp_df) as Hseg.
  rewrite Hsplit in Hseg.
  destruct (SegmentFacts.segmentation_at _ _ _ _ _ _ Hseg)
    as (before & final & Hspan & Hno & Hend).
  exists before, final. split; [apply Hspan|]. split; [exact Hno|].
  split; [|split].
  - intros Hr. rewrite Hr in Hend. exact Hend.
  - intros Hr. destruct (end_reason_of p); try exact Hend. congruence.
  - intros Hr. rewrite Hr in Hend.
    assert (Hshape : msgType final = 2
                     /\ exists next, hd_error (concat (map events l2)) = Some next
                                     /\ msgType next = 4).
    { revert Hend. unfold ends_possession.
      destruct (msgType final =? 1); [discriminate|].
      destruct (Z.eqb_spec (msgType final) 2) as [E2|_].
      - destruct (hd_error _) as [next|]; [|discriminate].
        destruct (Z.eqb_spec (msgType next) 4); [|discriminate]. eauto.
      - destruct (msgType final =? 5); [discriminate|].
        destruct (msgType final =? 13); [discriminate|].
        destruct (msgType final =? 6); [|discriminate].
        destruct (flagrant final); discriminate. }
    destruct Hshape as (Hm & next & Hnext & Hm4). split; [exact Hm|].
    destruct l2 as [|q l3]; [discriminate|].
    exists next, q, l3. split; [reflexivity|]. split; [|exact Hm4].
    replace (l1 ++ p :: q :: l3) with ((l1 ++ [p]) ++ q :: l3) in Hseg
      by (rewrite <- app_assoc; reflexivity).
    destruct (SegmentFacts.segmentation_at _ _ _ _ _ _ Hseg)
      as (bq & fq & Hq & _).
    destruct Hq as (Hevq & _). simpl in Hnext. rewrite Hevq in *.
    destruct bq; simpl in *; exact Hnext.
Qed.

Lemma possession_ends_at_first_ending_event_witness :
  exists p l2 before final,
    _identify_possessions (fun _ => false) Games.two_periods = p :: l2
    /\ events p = before ++ [final]
    /\ end_reason_of p = defensive_rebound
    /\ msgType final = 2.
Proof.
  destruct (_identify_possessions (fun _ => false) Games.two_periods)
    as [|p l2] eqn:E; [vm_compute in E; discriminate|].
  destruct (possession_ends_at_first_ending_event
              (fun _ => false) Games.two_periods [] p l2 E)
    as (before & final & Hev & _ & _ & _ & Hreb).
  assert (Hr : end_reason_of p = defensive_rebound)
    by (vm_compute in E; inversion E; reflexivity).
  exists p, l2, before, final. split; [reflexivity|]. split; [exact Hev|].
  split; [exact Hr|]. apply Hreb, Hr.
Defined.

(** ** players/transformers/possessions.py: counts per player *)

Module PlayerCountFacts.
Import Data CourtTime PlayerPossessions Vocabulary Terms.

Lemma count_interval_get o d pc (i : interval) (pid : Z) :
  dict_get Z.eqb (count_interval o d pc i) pid
  = if i_playerId i =? pid
    then
      let c := match dict_get Z.eqb pc pid with
               | Some c => c
               | None => mk_counts 0 0
               end in
      Some (if i_teamId i =? o then mk_counts (offensive c + 1) (defensive c)
            else if i_teamId i =? d
                 then mk_counts (offensive c) (defensive c + 1)
                 else c)
    else dict_get Z.eqb pc pid.
Proof.
  unfold count_interval. rewrite DictFacts.dict_get_set.
  destruct (Z.eqb_spec (i_playerId i) pid) as [->|_]; reflexivity.
Qed.

Lemma count_interval_NoDup o d pc (i : interval) :
  NoDup (map fst pc) -> NoDup (map fst (count_interval o d pc i)).
Proof. apply DictFacts.dict_set_NoDup. Qed.

Lemma fold_count_interval_NoDup o d (l : list interval) pc :
  NoDup (map fst pc) ->
  NoDup (map fst (fold_left (count_interval o d) l pc)).
Proof.
  revert pc. induction l as [|i r IH]; simpl; intros pc H; [exact H|].
  apply IH, count_interval_NoDup, H.
Qed.

(** What the rows on court do to one player's entry. *)
Lemma fold_count_interval_get o d (l : list interval) pc (pid : Z) :
  dict_get Z.eqb (fold_left (count_interval o d) l pc) pid
  = match filter (fun i => i_playerId i =? pid) l with
    | [] => dict_get Z.eqb pc pid
    | rows =>
        let c := match dict_get Z.eqb pc pid with
                 | Some c => c
                 | None => mk_counts 0 0
                 end in
        Some (mk_counts
                (offensive c
                 + Z.of_nat (length (filter (fun i => i_teamId i =? o) rows)))
                (defensive c
                 + Z.of_nat (length (filter (fun i => negb (i_teamId i =? o)
                                                      && (i_teamId i =? d))
                                            rows))))
    end.
Proof.
  revert pc. induction l as [|i r IH]; intros pc; [reflexivity|].
  simpl fold_left. rewrite IH, count_interval_get. simpl filter.
  destruct (i_playerId i =? pid); [|reflexivity].
  set (c := match dict_get Z.eqb pc pid with
            | Some c => c
            | None => mk_counts 0 0
            end).
  cbv zeta.
  destruct (filter (fun i0 => i_playerId i0 =? pid) r) as [|x xs];
    simpl filter;
    destruct (i_teamId i =? o), (i_teamId i =? d); simpl;
    destruct c as [a b]; simpl; f_equal; f_equal;
    repeat match goal with
           | |- context [if ?t then _ else _] => destruct t
           end; simpl length; lia.
Qed.

Lemma tally_snoc side intervals pid done poss :
  tally side intervals pid (done ++ [poss])
  = tally side intervals pid done
    + (if teams_known poss
       then Z.of_nat (length (filter (side poss)
                                     (rows_at_mid intervals pid poss)))
       else 0).
Proof.
  unfold tally. induction done as [|q r IH]; simpl; [lia|].
  rewrite IH. lia.
Qed.

Lemma seen_snoc intervals pid done poss :
  seen intervals pid (done ++ [poss])
  = seen intervals pid done
    || (teams_known poss
        && negb (length (rows_at_mid intervals pid poss) =? 0)%nat).
Proof.
  unfold seen. rewrite existsb_app. simpl. rewrite Bool.orb_false_r.
  reflexivity.
Qed.

Lemma tally_unseen side intervals pid done :
  seen intervals pid done = false -> tally side intervals pid done = 0.
Proof.
  unfold seen, tally. induction done as [|q r IH]; simpl; [reflexivity|].
  intros H. apply Bool.orb_false_iff in H. destruct H as [Hq Hr].
  rewrite (IH Hr). destruct (teams_known q); [|reflexivity].
  simpl in Hq. apply Bool.negb_false_iff, Nat.eqb_eq in Hq.
  destruct (rows_at_mid intervals pid q); [reflexivity | discriminate].
Qed.

Lemma counted_step intervals done pc poss :
  counted_so_far intervals done pc ->
  counted_so_far intervals (done ++ [poss])
                 (count_possession intervals pc poss).
Proof.
  intros [Hnd Hget]. unfold count_possession. split.
  - destruct (offensive_team poss); [|exact Hnd].
    destruct (defensive_team poss); [|exact Hnd].
    apply fold_count_interval_NoDup, Hnd.
  - intros pid. rewrite seen_snoc, !tally_snoc. unfold teams_known.
    destruct (offensive_team poss) as [o|] eqn:Eo;
      [|rewrite Hget, Bool.orb_false_r, !Z.add_0_r; reflexivity].
    destruct (defensive_team poss) as [d|] eqn:Ed;
      [|rewrite Hget, Bool.orb_false_r, !Z.add_0_r; reflexivity].
    rewrite fold_count_interval_get. fold (rows_at_mid intervals pid poss).
    rewrite Hget.
    replace (filter (on_offense poss) (rows_at_mid intervals pid poss))
      with (filter (fun i => i_teamId i =? o) (rows_at_mid intervals pid poss))
      by (apply filter_ext; intros i; unfold on_offense; rewrite Eo;
          reflexivity).
    replace (filter (on_defense poss) (rows_at_mid intervals pid poss))
      with (filter (fun i => negb (i_teamId i =? o) && (i_teamId i =? d))
                   (rows_at_mid intervals pid poss))
      by (apply filter_ext; intros i; unfold on_defense, on_offense;
          rewrite Eo, Ed; reflexivity).
    destruct (rows_at_mid intervals pid poss) as [|x xs] eqn:Erows.
    + simpl. rewrite Bool.orb_false_r, !Z.add_0_r. reflexivity.
    + rewrite Bool.orb_true_r.
      destruct (seen intervals pid done) eqn:Es; cbv zeta.
      * reflexivity.
      * rewrite !(tally_unseen _ _ _ _ Es). reflexivity.
Qed.

Lemma counted_fold intervals possessions :
  forall done pc,
    counted_so_far intervals done pc ->
    counted_so_far intervals (done ++ possessions)
                   (fold_left (count_possession intervals) possessions pc).
Proof.
  induction possessions as [|poss rest IH]; simpl; intros done pc H.
  - rewrite app_nil_r. exact H.
  - replace (done ++ poss :: rest) with ((done ++ [poss]) ++ rest)
      by (rewrite <- app_assoc; reflexivity).
    apply IH, counted_step, H.
Qed.

Lemma counted_all intervals possessions :
  counted_so_far intervals possessions
                 (fold_left (count_possession intervals) possessions []).
Proof.
  apply (counted_fold intervals possessions [] []).
  split; [constructor|]. intros pid. reflexivity.
Qed.

End PlayerCountFacts.

(** X19. With an interval table that has rows, _count_player_possessions
    returns one row per player that has an interval row on court at the
    middle of some possession with known teams, and no other row.  The
    player's offensive count is the number of pairs of such a possession
    and such an interval row whose team is the offensive team, the
    defensive count the number of pairs whose team is the defensive and not
    the offensive team, and the total is their sum; a player whose team is
    neither gets a row of zeros.  With an interval table without rows it
    raises KeyError as soon as one possession has both teams, and returns
    no row otherwise. *)
Theorem player_counts_are_mid_possession_tallies
        (possessions_df : list possession) (lineup_intervals : list interval)
        (team_mapping : dict (K := Z) (V := Z)) :
  (_count_player_possessions possessions_df lineup_intervals team_mapping
   = Raise KeyError
   <-> lineup_intervals = [] /\ existsb teams_known possessions_df = true)
  /\ forall rows,
       _count_player_possessions possessions_df lineup_intervals team_mapping
       = Ok rows ->
       NoDup (map cr_playerId rows)
       /\ (forall pid, In pid (map cr_playerId rows)
                       <-> seen lineup_intervals pid possessions_df = true)
       /\ forall row,
            In row rows ->
            offensive_possessions row
            = tally on_offense lineup_intervals (cr_playerId row) possessions_df
            /\ defensive_possessions row
               = tally on_defense lineup_intervals (cr_playerId row)
                       possessions_df
            /\ cr_total_possessions row
               = offensive_possessions row + defensive_possessions row.
Proof.
  split.
  - unfold _count_player_possessions.
    destruct lineup_intervals as [|i0 rest].
    + destruct (existsb teams_known possessions_df);
        [tauto | split; [discriminate | intros [_ H]; discriminate]].
    + split; [discriminate | intros [H _]; discriminate].
  - intros rows Hrows.
    destruct (PlayerCountFacts.counted_all lineup_intervals possessions_df)
      as [Hnd Hget].
    set (pc := fold_left (count_possession lineup_intervals) possessions_df [])
      in *.
    assert (Hrows' : rows
                     = map (fun e : Z * counts =>
                              mk_count_row (fst e) (offensive (snd e))
                                           (defensive (snd e))
                                           (offensive (snd e) + defensive (snd e)))
                           pc).
    { unfold _count_player_possessions in Hrows.
      destruct lineup_intervals as [|i0 rest];
        [|inversion Hrows; reflexivity].
      destruct (existsb teams_known possessions_df); [discriminate|].
      inversion Hrows. unfold pc.
      clear. induction possessions_df as [|q r IH]; simpl; [reflexivity|].
      unfold count_possession at 2. simpl.
      destruct (offensive_team q), (defensive_team q); exact IH. }
    subst rows.
    assert (Hkeys : map cr_playerId
                        (map (fun e : Z * counts =>
                                mk_count_row (fst e) (offensive (snd e))
                                             (defensive (snd e))
                                             (offensive (snd e)
                                              + defensive (snd e)))
                             pc)
                    = map fst pc)
      by (rewrite map_map; reflexivity).
    rewrite Hkeys. split; [exact Hnd|]. split.
    + intros pid. rewrite RimBounds.keys_get, Hget.
      destruct (seen lineup_intervals pid possessions_df).
      * split; eauto.
      * split; [intros [v Hv]; discriminate | discriminate].
    + intros row Hrow. apply in_map_iff in Hrow.
      destruct Hrow as ([pid c] & <- & Hin). simpl.
      apply (DictFacts.dict_get_In _ _ _ _ Hnd) in Hin.
      rewrite Hget in Hin.
      destruct (seen lineup_intervals pid possessions_df); [|discriminate].
      inversion Hin. simpl. auto.
Qed.

Lemma player_counts_are_mid_possession_tallies_witness :
  exists rows,
    _count_player_possessions
      (_identify_possessions (fun _ => false) Games.two_periods)
      Games.court_intervals [] = Ok rows
    /\ NoDup (map cr_playerId rows)
    /\ forall row, In row rows ->
                   cr_total_possessions row
                   = offensive_possessions row + defensive_possessions row.
Proof.
  destruct (_count_player_possessions
              (_identify_possessions (fun _ => false) Games.two_periods)
              Games.court_intervals []) as [rows|] eqn:E;
    [|vm_compute in E; discriminate].
  exists rows. split; [reflexivity|].
  destruct (player_counts_are_mid_possession_tallies
              (_identify_possessions (fun _ => false) Games.two_periods)
              Games.court_intervals []) as [_ H].
  destruct (H rows E) as (Hnd & _ & Hrow).
  split; [exact Hnd|]. intros row Hin. apply (Hrow row Hin).
Defined.

(** ** The prepared frame of a game with two teams *)

Module PreparedFacts.
Import Data Possessions Vocabulary Terms.

Lemma two_teams_valid (pbp_df : list pbp_row) (a b : Z) :
  a < b ->
  (forall x, In x (positive_off_teams pbp_df) <-> x = a \/ x = b) ->
  clean_valid_teams pbp_df = [a; b].
Proof.
  intros Hab Hmem. unfold clean_valid_teams.
  fold (positive_off_teams pbp_df).
  assert (Hperm : Permutation [a; b] (unique (positive_off_teams pbp_df))).
  { apply NoDup_Permutation.
    - constructor; [simpl; intros [H|[]]; lia|].
      constructor; [simpl; tauto | constructor].
    - apply unique_NoDup.
    - intros x. rewrite unique_In, Hmem. simpl. intuition. }
  rewrite <- (Permutation_length Hperm). simpl.
  assert (Hs : Permutation [a; b]
                           (sort_values Z.leb (unique (positive_off_teams pbp_df)))).
  { eapply perm_trans; [exact Hperm|].
    apply Permutation_sym, sort_values_perm. }
  pose proof (sort_values_sorted Z.leb Zleb_total
                                 (unique (positive_off_teams pbp_df))) as Hsorted.
  apply Permutation_length_2_inv in Hs. destruct Hs as [-> | Hs];
    [reflexivity|].
  rewrite Hs in Hsorted. exfalso.
  inversion Hsorted as [|? ? _ Hhd]; subst.
  inversion Hhd as [|? ? Hle]; subst. apply Z.leb_le in Hle. lia.
Qed.

Lemma other_team_of_pair (a b : Z) (x : option Z) :
  a <> b -> (x = None \/ x = Some a \/ x = Some b) ->
  exists d, other_team_of [a; b] x = Ok d
            /\ ((x = None /\ d = None) \/ (x = Some a /\ d = Some b)
                \/ (x = Some b /\ d = Some a)).
Proof.
  intros Hab [->|[->| ->]]; unfold other_team_of; simpl.
  - eauto.
  - rewrite Z.eqb_refl. eauto 6.
  - destruct (Z.eqb_spec b a); [congruence|]. eauto 6.
Qed.

Lemma mapM_map_fst {A B : Type} (f : A -> result B) (g : A -> pbp_row)
      (h : B -> pbp_row) (l : list A) (out : list B) :
  (forall x y, f x = Ok y -> h y = g x) ->
  mapM f l = Ok out -> map h out = map g l.
Proof.
  intros Hfg H. apply mapM_Ok_Forall2 in H.
  induction H as [|x y l0 out0 Hxy _ IH]; simpl; [reflexivity|].
  rewrite (Hfg _ _ Hxy), IH. reflexivity.
Qed.

End PreparedFacts.

Import Possessions.

(** X20. When the positive offTeamId values of a play-by-play are exactly
    two teams, _prepare_pbp_data succeeds; its rows are the input rows in
    another order, and every row has both clean team columns empty (where
    offTeamId is not positive) or has one of the two teams as clean
    offense and the other one as clean defense. *)
Theorem two_team_game_is_prepared
        (pbp_df : list pbp_row) (a b : Z) :
  a < b ->
  (forall x, In x (positive_off_teams pbp_df) <-> x = a \/ x = b) ->
  exists clean,
    _prepare_pbp_data pbp_df = Ok clean
    /\ Permutation (map src clean) pbp_df
    /\ forall c, In c clean ->
                 offTeamId_clean c = cleaned_off (src c)
                 /\ cleaned_for a b c.
Proof.
  intros Hab Hmem.
  assert (Hne : pbp_df <> []).
  { intros ->. destruct (Hmem a) as [_ H]. destruct (H (or_introl eq_refl)). }
  unfold _prepare_pbp_data.
  destruct pbp_df as [|r0 rest] eqn:Epbp; [congruence|]. rewrite <- Epbp in *.
  set (timed := map (fun r => (r, max_period_time pbp_df (period r) - gameClock r))
                    pbp_df).
  assert (Hvalid : clean_valid_teams (map fst (sort_values chrono_leb timed))
                   = [a; b]).
  { apply PreparedFacts.two_teams_valid; [exact Hab|].
    intros x. rewrite <- Hmem. unfold positive_off_teams, cells.
    rewrite !in_flat_map. split; intros (c & Hc & Hx); exists c;
      (split; [|exact Hx]); apply filter_In in Hc; destruct Hc as [Hc Hpos];
      apply filter_In; (split; [|exact Hpos]);
      apply in_map_iff in Hc; destruct Hc as (r & <- & Hr); apply in_map.
    - apply in_map_iff in Hr. destruct Hr as ([r1 t] & <- & Hr).
      apply sort_values_In, in_map_iff in Hr.
      destruct Hr as (r2 & [= <- _] & Hr2). exact Hr2.
    - apply in_map_iff.
      exists (r, max_period_time pbp_df (period r) - gameClock r).
      split; [reflexivity|]. apply sort_values_In, in_map_iff. eauto. }
  unfold _clean_team_ids. rewrite Hvalid.
  assert (Hrow : forall rt, In rt (sort_values chrono_leb timed) ->
             exists d,
               other_team_of [a; b]
                 (if positive_cell (offTeamId (fst rt))
                  then offTeamId (fst rt) else None) = Ok d
               /\ cleaned_for a b
                    (mk_prow (fst rt) (snd rt)
                             (if positive_cell (offTeamId (fst rt))
                              then offTeamId (fst rt) else None) d)).
  { intros [r t] Hrt. simpl.
    assert (Hr : In r pbp_df).
    { apply sort_values_In, in_map_iff in Hrt.
      destruct Hrt as (r2 & [= <- _] & Hr2). exact Hr2. }
    destruct (PreparedFacts.other_team_of_pair
                a b (if positive_cell (offTeamId r) then offTeamId r else None))
      as (d & Hd & Hcases); [lia | |].
    - destruct (offTeamId r) as [x|] eqn:Ex; simpl; [|auto].
      destruct (0 <? x) eqn:Epos; [|auto]. right.
      assert (Hx : In x (positive_off_teams pbp_df)).
      { unfold positive_off_teams, cells. apply in_flat_map.
        exists (Some x). split; [|simpl; auto].
        apply filter_In. split; [|exact Epos].
        rewrite <- Ex. apply in_map, Hr. }
      apply Hmem in Hx. destruct Hx as [-> | ->]; auto.
    - exists d. split; [exact Hd|]. unfold cleaned_for. simpl. exact Hcases. }
  destruct (LineupStateFacts.mapM_succeeds
              (fun rt : pbp_row * Z =>
                 let '(r, t) := rt in
                 let off_clean :=
                   if positive_cell (offTeamId r) then offTeamId r else None in
                 d <- other_team_of [a; b] off_clean ;;
                 Ok (mk_prow r t off_clean d))
              (sort_values chrono_leb timed)) as [clean Hclean].
  { intros [r t] Hrt. destruct (Hrow _ Hrt) as (d & Hd & _). simpl in Hd.
    cbv zeta. rewrite Hd. simpl. eauto. }
  exists clean. split; [exact Hclean|]. split.
  - assert (Hsrc : map src clean = map fst (sort_values chrono_leb timed)).
    { eapply PreparedFacts.mapM_map_fst; [|exact Hclean].
      intros [r t] y. cbv zeta.
      destruct (other_team_of _ _); simpl; [|discriminate].
      intros [= <-]. reflexivity. }
    rewrite Hsrc.
    eapply perm_trans; [apply Permutation_map, sort_values_perm|].
    unfold timed. rewrite map_map. simpl. rewrite map_id.
    apply Permutation_refl.
  - intros c Hc. apply mapM_Ok_Forall2 in Hclean.
    destruct (Forall2_In_r _ _ _ _ Hclean Hc) as ([r t] & Hrt & Hf).
    destruct (Hrow _ Hrt) as (d & Hd & Hcl). simpl in Hd, Hcl.
    cbv zeta in Hf. rewrite Hd in Hf. simpl in Hf. inversion Hf; subst c.
    split; [reflexivity | exact Hcl].
Qed.

Lemma two_team_game_is_prepared_witness :
  exists clean,
    _prepare_pbp_data Games.and_one_at_end = Ok clean
    /\ Permutation (map src clean) Games.and_one_at_end
    /\ forall c, In c clean ->
                 offTeamId_clean c = cleaned_off (src c)
                 /\ cleaned_for 1 2 c.
Proof.
  apply (two_team_game_is_prepared Games.and_one_at_end 1 2); [lia|].
  intros x. vm_compute. intuition.
Defined.

(** ** Intervals against status changes *)

Module IntervalFacts.
Import Data CourtTime Vocabulary Terms.

Section DictDel.
Context {V : Type}.

Lemma dict_get_missing (d : dict (K := Z) (V := V)) (k : Z) :
  ~ In k (map fst d) -> dict_get Z.eqb d k = None.
Proof.
  induction d as [|[k0 v0] r IH]; simpl; intros Hn; [reflexivity|].
  destruct (Z.eqb_spec k0 k) as [->|_]; [exfalso; auto | apply IH; auto].
Qed.

Lemma dict_del_keys (d : dict (K := Z) (V := V)) (k x : Z) :
  In x (map fst (dict_del Z.eqb d k)) -> In x (map fst d).
Proof.
  induction d as [|[k0 v0] r IH]; simpl; [tauto|].
  destruct (k0 =? k); simpl; [auto|]. intros [H|H]; auto.
Qed.

Lemma dict_del_NoDup (d : dict (K := Z) (V := V)) (k : Z) :
  NoDup (map fst d) -> NoDup (map fst (dict_del Z.eqb d k)).
Proof.
  induction d as [|[k0 v0] r IH]; simpl; intros H; [constructor|].
  inversion H as [|? ? Hn Hr]; subst.
  destruct (k0 =? k); simpl; [exact Hr|].
  constructor; [|auto]. intros Hin. apply Hn. eapply dict_del_keys, Hin.
Qed.

Lemma dict_get_del (d : dict (K := Z) (V := V)) (k k' : Z) :
  NoDup (map fst d) ->
  dict_get Z.eqb (dict_del Z.eqb d k) k'
  = if k =? k' then None else dict_get Z.eqb d k'.
Proof.
  induction d as [|[k0 v0] r IH]; simpl; intros H.
  - destruct (k =? k'); reflexivity.
  - inversion H as [|? ? Hn Hr]; subst.
    destruct (Z.eqb_spec k0 k) as [->|Hne].
    + destruct (Z.eqb_spec k k') as [->|_]; [|reflexivity].
      apply dict_get_missing, Hn.
    + simpl. rewrite (IH Hr).
      destruct (Z.eqb_spec k0 k') as [->|_]; [|reflexivity].
      destruct (Z.eqb_spec k k'); [congruence | reflexivity].
Qed.
End DictDel.

Lemma absent_snoc pid l c :
  absent pid l -> sc_playerId c <> pid -> absent pid (l ++ [c]).
Proof.
  intros Hl Hc x Hx. apply in_app_or in Hx.
  destruct Hx as [Hx|[<-|[]]]; auto.
Qed.

Lemma open_entry_snoc done pid v c :
  open_entry done pid v -> sc_playerId c <> pid ->
  open_entry (done ++ [c]) pid v.
Proof.
  intros (l1 & cin & l2 & -> & Ha & Hp & Hv & Habs) Hc.
  exists l1, cin, (l2 ++ [c]).
  split; [rewrite <- app_assoc; reflexivity|].
  repeat split; try assumption. apply absent_snoc; assumption.
Qed.

Lemma closed_pair_snoc done i c :
  closed_pair done i -> closed_pair (done ++ [c]) i.
Proof.
  intros (l1 & cin & l2 & cout & l3 & -> & Hin & Habs & Hout).
  exists l1, cin, l2, cout, (l3 ++ [c]).
  split; [|auto].
  rewrite <- app_assoc. simpl. rewrite <- app_assoc. reflexivity.
Qed.

Lemma paired_step game_id done st c :
  paired_so_far game_id done st ->
  paired_so_far game_id (done ++ [c])
                (intervals_loop game_id [c] (fst st) (snd st)).
Proof.
  destruct st as [et ivs]. intros (Hnd & Hopen & Hclosed). simpl in *.
  assert (Henter : sc_action c <> OUT ->
            paired_so_far game_id (done ++ [c])
              (dict_set Z.eqb et (sc_playerId c)
                        (sc_period c, sc_wallClockInt c, sc_teamId c), ivs)).
  { intros Ha. split; [apply DictFacts.dict_set_NoDup, Hnd|]. split.
    - intros pid v. simpl. rewrite DictFacts.dict_get_set.
      destruct (Z.eqb_spec (sc_playerId c) pid) as [Hp|Hp].
      + intros [= <-]. exists done, c, [].
        repeat split; try assumption. intros x [].
      + intros Hv. apply open_entry_snoc; auto.
    - intros i Hi. destruct (Hclosed i Hi) as [Hg Hc].
      split; [exact Hg | apply closed_pair_snoc, Hc]. }
  destruct (sc_action c) eqn:Ea; try (apply Henter; discriminate).
  destruct (dict_get Z.eqb et (sc_playerId c)) as [[[ep ew] tid]|] eqn:Eget.
  - split; [apply dict_del_NoDup, Hnd|]. split.
    + intros pid v. simpl. rewrite (dict_get_del _ _ _ Hnd).
      destruct (Z.eqb_spec (sc_playerId c) pid) as [Hp|Hp]; [discriminate|].
      intros Hv. apply open_entry_snoc; auto.
    + intros i Hi. simpl in Hi. apply in_app_or in Hi.
      destruct Hi as [Hi|[<-|[]]].
      * destruct (Hclosed i Hi) as [Hg Hc].
        split; [exact Hg | apply closed_pair_snoc, Hc].
      * split; [reflexivity|].
        destruct (Hopen _ _ Eget)
          as (l1 & cin & l2 & -> & Hact & Hp & Hv & Habs).
        inversion Hv; subst.
        exists l1, cin, l2, c, []. split.
        { rewrite <- app_assoc. reflexivity. }
        unfold enters, leaves. simpl. auto 10.
  - split; [exact Hnd|]. split.
    + intros pid v Hv. simpl in Hv.
      apply open_entry_snoc; [auto|]. intros Hp. congruence.
    + intros i Hi. destruct (Hclosed i Hi) as [Hg Hc].
      split; [exact Hg | apply closed_pair_snoc, Hc].
Qed.

Lemma intervals_loop_cons game_id c rest et ivs :
  intervals_loop game_id (c :: rest) et ivs
  = intervals_loop game_id rest
      (fst (intervals_loop game_id [c] et ivs))
      (snd (intervals_loop game_id [c] et ivs)).
Proof.
  simpl. destruct (sc_action c); try reflexivity.
  destruct (dict_get Z.eqb et (sc_playerId c)) as [[[ep ew] tid]|];
    reflexivity.
Qed.

Lemma paired_fold game_id rest :
  forall done st,
    paired_so_far game_id done st ->
    paired_so_far game_id (done ++ rest)
                  (intervals_loop game_id rest (fst st) (snd st)).
Proof.
  induction rest as [|c rest IH]; intros done st H.
  - rewrite app_nil_r. destruct st. exact H.
  - rewrite intervals_loop_cons.
    replace (done ++ c :: rest) with ((done ++ [c]) ++ rest)
      by (rewrite <- app_assoc; reflexivity).
    apply IH, paired_step, H.
Qed.

End IntervalFacts.

Import CourtTime.

(** X21. Every interval of _build_intervals_from_status_changes carries
    the game id and starts from an entry (START or IN) of its player, with
    that entry's team, period and wall clock.  Either the player's next
    change is an exit and the interval ends there, or the entry is the
    player's last change and the interval ends at the game-end wall clock
    in the largest period of the status changes.  A later entry without an
    exit in between replaces the earlier one, and an exit without an entry
    gives no interval. *)
Theorem interval_joins_entry_with_next_exit
        (status_df : list status_change) (game_id : string)
        (game_end_wallClock : option Z) (i : interval) :
  In i (_build_intervals_from_status_changes status_df game_id
                                             game_end_wallClock) ->
  i_gameId i = game_id
  /\ (closed_pair status_df i
      \/ (open_pair status_df i
          /\ wallClock_end i = game_end_wallClock
          /\ series_max (map sc_period status_df) = Some (period_end i))).
Proof.
  unfold _build_intervals_from_status_changes. intros Hi.
  pose proof (IntervalFacts.paired_fold game_id status_df [] ([], [])) as Hinv.
  simpl in Hinv.
  destruct (intervals_loop game_id status_df [] []) as [et ivs].
  destruct Hinv as (Hnd & Hopen & Hclosed).
  { split; [constructor|]. split; [intros pid v; discriminate | intros x []]. }
  simpl in *. apply in_app_or in Hi. destruct Hi as [Hi|Hi].
  - destruct (Hclosed i Hi) as [Hg Hc]. auto.
  - apply in_map_iff in Hi. destruct Hi as ([pid [[ep ew] tid]] & <- & Hin).
    simpl. split; [reflexivity|]. right.
    apply (DictFacts.dict_get_In _ _ _ _ Hnd) in Hin.
    destruct (Hopen _ _ Hin) as (l1 & cin & l2 & Hsplit & Hact & Hp & Hv & Habs).
    inversion Hv; subst ep ew tid.
    split; [|split; [reflexivity|]].
    + exists l1, cin, l2. unfold enters. simpl. auto 10.
    + destruct (map sc_period status_df) as [|x r] eqn:Em; [|reflexivity].
      rewrite Hsplit in Em. rewrite map_app in Em.
      destruct (map sc_period l1); discriminate.
Qed.

Lemma interval_joins_entry_with_next_exit_witness :
  closed_pair MoreGames.one_stint
              (mk_interval "G1" 105 1 1 (Some 1000) 1 (Some 1500)).
Proof.
  destruct (interval_joins_entry_with_next_exit
              MoreGames.one_stint "G1" (Some 2000)
              (mk_interval "G1" 105 1 1 (Some 1000) 1 (Some 1500)))
    as [_ [Hc | (_ & Hw & _)]].
  - simpl. auto.
  - exact Hc.
  - simpl in Hw. discriminate.
Defined.

(** ** Rim shots after the first period of a game without substitutions *)

Module LateRimShots.
Import Data CourtTime RimDefense Vocabulary Terms.

Lemma nobody_defends (intervals : list interval) (p w D : Z) :
  (forall i, In i intervals -> covers p w i = false) ->
  defending_players intervals p w D = [].
Proof.
  intros H. unfold defending_players.
  replace (filter (covers p w) intervals) with (@nil interval); [reflexivity|].
  symmetry. induction intervals as [|i r IH]; simpl; [reflexivity|].
  rewrite (H i (or_introl eq_refl)). apply IH. intros j Hj. apply H. simpl; auto.
Qed.

Lemma count_shot_never_on intervals player_teams ps shot :
  NoDup (map fst player_teams) ->
  (forall D, defending_players intervals (period shot) (wallClockInt shot) D
             = []) ->
  never_on_court ps ->
  never_on_court (count_shot intervals player_teams ps shot).
Proof.
  intros Hpt Hnone Hps pid s.
  rewrite (RimDefenseFacts.count_shot_get _ _ _ _ _ Hpt).
  destruct (offTeamId shot); [|apply Hps].
  destruct (defTeamId shot) as [D|]; [|apply Hps].
  destruct (existsb _ _); [|apply Hps].
  rewrite Hnone. unfold counted. simpl. intros [= <-]. simpl.
  destruct (dict_get Z.eqb ps pid) as [s0|] eqn:E; [|simpl; auto].
  apply (Hps _ _ E).
Qed.

Lemma fold_never_on intervals player_teams shots ps :
  NoDup (map fst player_teams) ->
  (forall shot D, In shot shots ->
                  defending_players intervals (period shot) (wallClockInt shot) D
                  = []) ->
  never_on_court ps ->
  never_on_court (fold_left (count_shot intervals player_teams) shots ps).
Proof.
  intros Hpt. revert ps. induction shots as [|shot rest IH]; simpl;
    intros ps Hnone Hps; [exact Hps|].
  apply IH; [intros; apply Hnone; auto|].
  apply count_shot_never_on; [exact Hpt | intros; apply Hnone; auto | exact Hps].
Qed.

End LateRimShots.

Import RimDefense.

(** X22. Composition of court-time tracking with rim defense: on a game
    whose play-by-play has no substitution row and whose rim shots all come
    after the first period, every row of track_rim_defense, computed with
    the intervals of track_lineup_states, has no on-court attempt and no
    on-court make, an empty on-court percentage, and all rim shots against
    the player's team in the off-court bucket: no interval reaches the
    later periods. *)
Theorem later_rim_shots_without_substitutions_count_off_court
        (box_score_df : list box_row) (pbp_df : list pbp_row)
        (intervals : list interval) (rows : list rim_row) (r : rim_row) :
  (forall x, In x pbp_df -> msgType x <> 8) ->
  (forall x, In x pbp_df -> is_rim_shot x = true -> 2 <= period x) ->
  track_lineup_states box_score_df pbp_df = Ok intervals ->
  track_rim_defense pbp_df intervals = Ok rows ->
  In r rows ->
  rim_fga_on r = 0 /\ rim_fgm_on r = 0 /\ rim_fg_pct_on r = None
  /\ rim_fga_off r = Vocabulary.rim_shots_against pbp_df (rr_teamId r).
Proof.
  intros Hno Hlate Htrack Hrim Hr.
  apply RimDefenseFacts.track_rim_defense_rows in Hrim. subst rows.
  destruct (RimBounds.final_stats pbp_df intervals) as [(Hnd & Hsome & _) _].
  cbv zeta in Hnd, Hsome.
  assert (Hoff : never_on_court
                   (fold_left (count_shot intervals
                                          (_get_player_team_mapping intervals))
                              (filter is_rim_shot pbp_df) [])).
  { apply LateRimShots.fold_never_on.
    - apply RimDefenseFacts.player_team_mapping_NoDup.
    - intros shot D Hshot. apply filter_In in Hshot.
      destruct Hshot as [Hin Hrimshot].
      apply LateRimShots.nobody_defends. intros i Hi.
      destruct (NoSubstitutions.intervals_shape _ _ _ _ Hno Htrack Hi)
        as (_ & Hend & _).
      apply NoSubstitutions.ended_interval_covers_nothing_later;
        [exact Hend | apply Hlate; assumption].
    - intros pid s. simpl. discriminate. }
  apply in_map_iff in Hr. destruct Hr as ([pid s] & <- & Hin).
  apply (DictFacts.dict_get_In _ _ _ _ Hnd) in Hin.
  destruct (Hoff _ _ Hin) as [Ha Hm].
  destruct (Hsome _ _ Hin) as (_ & Hsum & _).
  simpl. rewrite Ha, Hm. repeat split.
  rewrite <- RimDefenseFacts.against_rim_shots. lia.
Qed.

Lemma later_rim_shots_without_substitutions_count_off_court_witness :
  exists intervals rows r,
    track_lineup_states Games.box_score MoreGames.late_rim_shot = Ok intervals
    /\ track_rim_defense MoreGames.late_rim_shot intervals = Ok rows
    /\ In r rows
    /\ rim_fga_on r = 0 /\ rim_fg_pct_on r = None /\ rim_fga_off r = 1.
Proof.
  destruct (track_lineup_states Games.box_score MoreGames.late_rim_shot)
    as [intervals|] eqn:Ei; [|vm_compute in Ei; discriminate].
  destruct (track_rim_defense MoreGames.late_rim_shot intervals)
    as [rows|] eqn:Er;
    [|vm_compute in Ei; inversion Ei; subst intervals; vm_compute in Er;
      discriminate].
  destruct rows as [|r rest];
    [vm_compute in Ei; inversion Ei; subst intervals; vm_compute in Er;
     discriminate|].
  exists intervals, (r :: rest), r.
  split; [reflexivity|]. split; [exact Er|]. split; [simpl; auto|].
  destruct (later_rim_shots_without_substitutions_count_off_court
              Games.box_score MoreGames.late_rim_shot intervals (r :: rest) r)
    as (Hon & _ & Hpct & Hoff); [| | exact Ei | exact Er | simpl; auto |].
  - intros x Hx. simpl in Hx.
    repeat (destruct Hx as [<-|Hx]; [simpl; discriminate|]). destruct Hx.
  - intros x Hx. simpl in Hx.
    repeat (destruct Hx as [<-|Hx]; [simpl; intros; try discriminate; lia|]).
    destruct Hx.
  - split; [exact Hon|]. split; [exact Hpct|]. rewrite Hoff.
    vm_compute in Ei. inversion Ei; subst intervals.
    vm_compute in Er. inversion Er. reflexivity.
Defined.

(** ** players/transformers/shot_distance.py *)

Module ShotFacts.
Import Data ShotDistance Terms.

Lemma zrange_In (lo : Z) (n : nat) (x : Z) :
  lo <= x < lo + Z.of_nat n -> In x (zrange lo n).
Proof.
  intros H. unfold zrange. apply in_map_iff.
  exists (Z.to_nat (x - lo)). split; [lia|].
  apply in_seq. lia.
Qed.

(** The comparison of the binary64 distance with 4.0 decides the exact
    test at every integer point of the box. *)
Lemma near_basket_agreement : agree_near_basket = true.
Proof. vm_compute. reflexivity. Qed.

Lemma agreement_at (x y : Z) :
  -100 <= x <= 100 -> -100 <= y <= 100 -> agree_at x y = true.
Proof.
  intros Hx Hy. pose proof near_basket_agreement as H.
  unfold agree_near_basket in H. rewrite forallb_forall in H.
  assert (Hn : Z.of_nat 201 = 201) by reflexivity.
  assert (Hxin : In x (zrange (-100) 201))
    by (apply zrange_In; rewrite Hn; lia).
  assert (Hyin : In y (zrange (-100) 201))
    by (apply zrange_In; rewrite Hn; lia).
  specialize (H x Hxin). rewrite forallb_forall in H. apply H, Hyin.
Qed.

Lemma shot_attempt_types (r : pbp_row) :
  _is_shot_attempt r = true <-> msgType r = 1 \/ msgType r = 2.
Proof.
  unfold _is_shot_attempt. simpl.
  destruct (Z.eqb_spec (msgType r) 1), (Z.eqb_spec (msgType r) 2); simpl;
    intuition (try lia; try discriminate).
Qed.

End ShotFacts.

Import ShotDistance.

(** X23. calculate_shot_distances returns one row per input row, in order
    and with the other columns unchanged.  Only a field-goal row (msgType
    1 or 2) can be flagged as a rim shot, and a row that is not one gets
    shot_distance -1.  For a field-goal row whose coordinates are integers
    (tenths of feet) at most ten feet from the basket on both axes, the
    flag computed in binary64 is exact: the row is a rim shot exactly when
    locX^2 + locY^2 <= 1600, points at exactly four feet included. *)
Theorem rim_flag_is_exact_near_the_basket
        (pbp_df : list located_row) :
  Forall2 (fun l e =>
             same_but_flag (l_row l) (e_row e)
             /\ (is_rim_shot (e_row e) = true ->
                 msgType (l_row l) = 1 \/ msgType (l_row l) = 2)
             /\ (_is_shot_attempt (l_row l) = false ->
                 shot_distance e = no_distance)
             /\ forall x y,
                  -100 <= x <= 100 -> -100 <= y <= 100 ->
                  locX l = float_of_Z x -> locY l = float_of_Z y ->
                  is_rim_shot (e_row e)
                  = _is_shot_attempt (l_row l) && within_four_feet x y)
          pbp_df (calculate_shot_distances pbp_df).
Proof.
  unfold calculate_shot_distances.
  induction pbp_df as [|l rest IH]; simpl; constructor; [|exact IH].
  unfold enhance. cbn [e_row shot_distance with_rim_shot is_rim_shot].
  split; [reflexivity|]. split; [|split].
  - intros H. apply Bool.andb_true_iff in H. destruct H as [H _].
    apply ShotFacts.shot_attempt_types, H.
  - intros ->. reflexivity.
  - intros x y Hx Hy -> ->.
    destruct (_is_shot_attempt (l_row l)); [|reflexivity]. simpl andb.
    pose proof (ShotFacts.agreement_at x y Hx Hy) as H.
    unfold agree_at in H. apply Bool.eqb_prop in H. exact H.
Qed.

Lemma rim_flag_is_exact_near_the_basket_witness :
  is_rim_shot (e_row (enhance MoreGames.shot_at_four_feet)) = true.
Proof.
  pose proof (rim_flag_is_exact_near_the_basket [MoreGames.shot_at_four_feet])
    as H.
  inversion H as [|l e ls es (_ & _ & _ & Hexact) _]; subst.
  rewrite (Hexact 24 32); [reflexivity | lia | lia | reflexivity | reflexivity].
Defined.
